(** * s3mtowav: the S3M module parser and the channel-mixing renderer

    A shallow embedding of [S3MParser.read_s3m], [S3MRenderer.note_to_freq]
    and [S3MRenderer.render] of [s3mtowav.py], and the properties of the
    parser and of the synthesizer that were checked against it.

    Conventions of the embedding.
    - Python integers are [Z]; [//] and [%] are [Z.div] and [Z.modulo]
      (both floor, as in Python); [&] and [>>] are [Z.land] and [Z.shiftr].
    - The input buffer is a [list byte]; indexing it yields the byte's value
      as an integer, as indexing a Python [bytes] object does.
    - A Python exception is a value of [exn]; code that can raise lives in
      the [result] monad.  [logging] calls have no effect on the result and
      are left out.
    - The sample position, the increment and the frequencies are binary64
      floats, as in Python: they are Rocq's primitive floats.
    - Volumes and the mixed sum are Python floats of the form [k/64] with
      [|k|] far below [2^53] (see [sum_bound]); binary64 arithmetic is exact
      on them, so they are modelled by exact rationals [Q]. *)

From Stdlib Require Import ZArith List Bool Lia String Strings.Byte.
From Stdlib Require Import QArith Qround Qpower Lqa Floats.
Import ListNotations.

Set Warnings "-inexact-float".
Open Scope Z_scope.

(** ** Exceptions and the result monad *)

Inductive exn : Type :=
| Exception (msg : string)    (* [raise Exception(msg)] *)
| struct_error                (* [struct.error] *)
| IndexError
| ZeroDivisionError
| OverflowError               (* [int(inf)] *)
| ValueError                  (* [int(nan)] *)
| LoopBudget.                 (* a [while] loop outran the model's fuel *)

Inductive result (A : Type) : Type :=
| OK (a : A)
| Raise (e : exn).

Arguments OK {A} a.
Arguments Raise {A} e.

Definition bind {A B : Type} (r : result A) (k : A -> result B) : result B :=
  match r with
  | OK a => k a
  | Raise e => Raise e
  end.

Notation "x <- r ;; k" := (bind r (fun x => k))
  (at level 61, r at next level, right associativity).
Notation "' p <- r ;; k" := (bind r (fun x => let p := x in k))
  (at level 61, p pattern, r at next level, right associativity).

Definition is_ok {A : Type} (r : result A) : bool :=
  match r with OK _ => true | Raise _ => false end.

(** ** Python sequences *)

Definition len {A : Type} (l : list A) : Z := Z.of_nat (List.length l).

(** [l[i]]: a negative index counts from the end; out of range raises. *)
Definition py_index {A : Type} (l : list A) (i : Z) : result A :=
  let j := if i <? 0 then i + len l else i in
  if j <? 0 then Raise IndexError
  else match nth_error l (Z.to_nat j) with
       | Some a => OK a
       | None => Raise IndexError
       end.

(** [l[a:b]] for [0 <= a]: the slice is clipped to the sequence, never raises. *)
Definition slice {A : Type} (l : list A) (a b : Z) : list A :=
  firstn (Z.to_nat (b - a)) (skipn (Z.to_nat a) l).

Fixpoint list_set_nat {A : Type} (l : list A) (n : nat) (v : A) : option (list A) :=
  match l, n with
  | [], _ => None
  | _ :: t, O => Some (v :: t)
  | h :: t, S n' => option_map (cons h) (list_set_nat t n' v)
  end.

(** [l[i] = v] for [0 <= i]; out of range raises. *)
Definition py_setitem {A : Type} (l : list A) (i : Z) (v : A) : result (list A) :=
  if i <? 0 then Raise IndexError
  else match list_set_nat l (Z.to_nat i) v with
       | Some l' => OK l'
       | None => Raise IndexError
       end.

(** ** Bytes and [struct.unpack] *)

Definition bytes : Type := list byte.

Definition byte_val (b : byte) : Z := Z.of_N (Byte.to_N b).

(** [data[i]] on a [bytes] object. *)
Definition byte_at (data : bytes) (i : Z) : result Z :=
  b <- py_index data i ;; OK (byte_val b).

(** The little-endian unsigned integer held by a run of bytes. *)
Fixpoint le_uint (bs : bytes) : Z :=
  match bs with
  | [] => 0
  | b :: t => byte_val b + 256 * le_uint t
  end.

(** [struct.unpack('<nH', bs)]: [n] 16-bit fields; a buffer of any other
    size than [2n] bytes raises [struct.error]. *)
Fixpoint fields_H (n : nat) (bs : bytes) : list Z :=
  match n with
  | O => []
  | S n' => le_uint (firstn 2 bs) :: fields_H n' (skipn 2 bs)
  end.

Definition unpack_nH (n : Z) (bs : bytes) : result (list Z) :=
  if len bs =? 2 * n then OK (fields_H (Z.to_nat n) bs) else Raise struct_error.

(** [struct.unpack('<HHH', bs)] *)
Definition unpack_HHH (bs : bytes) : result (Z * Z * Z) :=
  if len bs =? 6
  then OK (le_uint (slice bs 0 2), le_uint (slice bs 2 4), le_uint (slice bs 4 6))
  else Raise struct_error.

(** [struct.unpack('<H', bs)[0]] *)
Definition unpack_H (bs : bytes) : result Z :=
  if len bs =? 2 then OK (le_uint bs) else Raise struct_error.

(** [struct.unpack('<LHHHB', bs)]: packed, 4 + 2 + 2 + 2 + 1 = 11 bytes. *)
Definition unpack_LHHHB (bs : bytes) : result (Z * Z * Z * Z * Z) :=
  if len bs =? 11
  then OK (le_uint (slice bs 0 4), le_uint (slice bs 4 6), le_uint (slice bs 6 8),
           le_uint (slice bs 8 10), le_uint (slice bs 10 11))
  else Raise struct_error.

(** [bs.decode('ascii', errors='ignore').rstrip('\0')]: bytes above 127 are
    dropped, then trailing NULs. *)
Definition rstrip_nul (s : list Z) : list Z :=
  fold_right (fun c acc => match acc with
                           | [] => if c =? 0 then [] else [c]
                           | _ => c :: acc
                           end) [] s.

Definition decode_ascii (bs : bytes) : list Z :=
  rstrip_nul (filter (fun c => c <? 128) (map byte_val bs)).

(** ** The data model *)

(** The dict built at line 165: a field the "what" byte does not announce
    is [None]. *)
Record Event : Type := mkEvent {
  ev_note : option Z;
  ev_instrument : option Z;
  ev_volume : option Z;
  ev_effect : option (Z * Z)
}.

(** A row is a list of channel slots, a slot is [None] or an event. *)
Definition Row : Type := list (option Event).
Definition Pattern : Type := list Row.

(** The dict appended to [self.instruments] at lines 97-104. *)
Record Instrument : Type := mkInstrument {
  inst_name : list Z;
  inst_sample : list Z;
  inst_length : Z;
  inst_loop_begin : Z;
  inst_loop_end : Z;
  inst_volume : Q
}.

(** The fields of an [S3MParser] object. *)
Record S3MParser : Type := mkParser {
  title : list Z;
  orders : list Z;
  instruments : list Instrument;
  patterns : list Pattern;
  num_orders : Z;
  num_instruments : Z;
  num_patterns : Z;
  sample_rate : Z;
  channels : Z;
  tempo : Z;
  speed : Z
}.

(** ** [S3MParser.read_s3m] *)

(** [try: body except struct.error: handler] *)
Definition except_struct_error {A : Type} (body handler : result A) : result A :=
  match body with
  | Raise struct_error => handler
  | _ => body
  end.

(** Line 96: a sample byte is stored in the unsigned convention. *)
Definition store_sample (b : Z) : Z := Z.land (b + 128) 255.

(** Lines 79-107, the body of the instrument loop for one pointer: [None]
    when the loop goes on without appending. *)
Definition parse_instrument (data : bytes) (ptr : Z) : result (option Instrument) :=
  let ptr := ptr * 16 in
  if ptr + 24 >? len data then OK None
  else
    inst_type <- byte_at data ptr ;;
    if inst_type =? 1 then
      let name := decode_ascii (slice data (ptr + 1) (ptr + 13)) in
      except_struct_error
        ('(sample_ptr, sample_len, loop_begin, loop_end, volume) <-
            unpack_LHHHB (slice data (ptr + 13) (ptr + 24)) ;;
         let sample_ptr := sample_ptr * 16 in
         if sample_ptr + sample_len >? len data then OK None
         else
           let sample_data := slice data sample_ptr (sample_ptr + sample_len) in
           let sample_data := map (fun b => store_sample (byte_val b)) sample_data in
           OK (Some {| inst_name := name;
                       inst_sample := sample_data;
                       inst_length := sample_len;
                       inst_loop_begin := loop_begin;
                       inst_loop_end := loop_end;
                       inst_volume := (inject_Z volume / 64)%Q |}))
        (OK None)
    else OK None.

(** Lines 78-107: the loop over the instrument pointers; a parsed
    instrument is appended, a skipped one leaves the list as it is. *)
Fixpoint parse_instruments (data : bytes) (inst_ptrs : list Z)
    (instruments : list Instrument) : result (list Instrument) :=
  match inst_ptrs with
  | [] => OK instruments
  | ptr :: rest =>
      r <- parse_instrument data ptr ;;
      parse_instruments data rest
        (match r with
         | Some inst => instruments ++ [inst]
         | None => instruments
         end)
  end.

(** Lines 143-149: the note and instrument bytes; [None] is the [break]. *)
Definition read_note (pattern_data : bytes) (what i : Z)
    : result (option (option Z * option Z * Z)) :=
  if Z.land what 32 =? 0 then OK (Some (None, None, i))
  else if i + 2 >? len pattern_data then OK None
  else
    note <- byte_at pattern_data i ;;
    instrument <- byte_at pattern_data (i + 1) ;;
    OK (Some (Some note, Some instrument, i + 2)).

(** Lines 151-156: the volume byte. *)
Definition read_volume (pattern_data : bytes) (what i : Z)
    : result (option (option Z * Z)) :=
  if Z.land what 64 =? 0 then OK (Some (None, i))
  else if i + 1 >? len pattern_data then OK None
  else
    volume <- byte_at pattern_data i ;;
    OK (Some (Some volume, i + 1)).

(** Lines 158-163: the effect bytes. *)
Definition read_effect (pattern_data : bytes) (what i : Z)
    : result (option (option (Z * Z) * Z)) :=
  if Z.land what 128 =? 0 then OK (Some (None, i))
  else if i + 2 >? len pattern_data then OK None
  else
    command <- byte_at pattern_data i ;;
    parameter <- byte_at pattern_data (i + 1) ;;
    OK (Some (Some (command, parameter), i + 2)).

(** Lines 128-165: the [while] loop of one row.  Every [break] leaves the
    loop with the row and the index as they are at that point; the result
    is the row and the index the next row starts from. *)
Fixpoint decode_row (fuel : nat) (pattern_data : bytes) (i : Z) (row : Row)
    : result (Row * Z) :=
  match fuel with
  | O => Raise LoopBudget
  | S fuel' =>
      if i <? len pattern_data then
        b <- byte_at pattern_data i ;;
        if b =? 0 then OK (row, i + 1)
        else if i + 1 >? len pattern_data then OK (row, i)
        else
          what <- byte_at pattern_data i ;;
          let i := i + 1 in
          let channel := Z.land what 31 in
          r <- read_note pattern_data what i ;;
          match r with
          | None => OK (row, i)
          | Some (note, instrument, i) =>
              r <- read_volume pattern_data what i ;;
              match r with
              | None => OK (row, i)
              | Some (volume, i) =>
                  r <- read_effect pattern_data what i ;;
                  match r with
                  | None => OK (row, i)
                  | Some (effect, i) =>
                      row <- py_setitem row channel
                               (Some (mkEvent note instrument volume effect)) ;;
                      decode_row fuel' pattern_data i row
                  end
              end
          end
      else OK (row, i)
  end.

(** Lines 125-166: [n] rows (64 in the source), each starting where the
    previous one stopped.  A loop iteration consumes at least one byte, so
    one more than the stream's length is fuel enough ([decode_row_total]). *)
Fixpoint decode_rows (n : nat) (channels : Z) (pattern_data : bytes) (i : Z)
    : result (list Row) :=
  match n with
  | O => OK []
  | S n' =>
      '(row, i) <- decode_row (S (List.length pattern_data)) pattern_data i
                     (repeat None (Z.to_nat channels)) ;;
      rows <- decode_rows n' channels pattern_data i ;;
      OK (row :: rows)
  end.

(** Lines 111-170, the body of the pattern loop for one pointer. *)
Definition parse_pattern (channels : Z) (data : bytes) (ptr : Z)
    : result (option Pattern) :=
  let ptr := ptr * 16 in
  if ptr + 2 >? len data then OK None
  else
    except_struct_error
      (packed_len <- unpack_H (slice data ptr (ptr + 2)) ;;
       if ptr + 2 + packed_len >? len data then OK None
       else
         let pattern_data := slice data (ptr + 2) (ptr + 2 + packed_len) in
         rows <- decode_rows 64 channels pattern_data 0 ;;
         OK (Some rows))
      (OK None).

Fixpoint parse_patterns (channels : Z) (data : bytes) (pattern_ptrs : list Z)
    (patterns : list Pattern) : result (list Pattern) :=
  match pattern_ptrs with
  | [] => OK patterns
  | ptr :: rest =>
      r <- parse_pattern channels data ptr ;;
      parse_patterns channels data rest
        (match r with
         | Some rows => patterns ++ [rows]
         | None => patterns
         end)
  end.

(** Lines 42-170, from the buffer read from the file on.  The parser's
    [sample_rate], [channels], [tempo] and [speed] are the constants of
    [__init__]. *)
Definition read_s3m (data : bytes) : result S3MParser :=
  if len data <? 96 then Raise (Exception "File too small to be a valid S3M")
  else
    let title := decode_ascii (slice data 0 28) in
    '(num_orders, num_instruments, num_patterns) <-
       except_struct_error (unpack_HHH (slice data 28 34))
                           (Raise (Exception "Invalid S3M header")) ;;
    flags <- unpack_H (slice data 38 40) ;;
    let order_start := 96 in
    if order_start + num_orders >? len data
    then Raise (Exception "Order list exceeds file size")
    else
      let orders := map byte_val (slice data order_start (order_start + num_orders)) in
      let inst_ptr_start := order_start + num_orders in
      let pattern_ptr_start := inst_ptr_start + 2 * num_instruments in
      if pattern_ptr_start + 2 * num_patterns >? len data
      then Raise (Exception "Pattern pointers exceed file size")
      else
        inst_ptrs <- unpack_nH num_instruments
                       (slice data inst_ptr_start (inst_ptr_start + 2 * num_instruments)) ;;
        pattern_ptrs <- unpack_nH num_patterns
                          (slice data pattern_ptr_start (pattern_ptr_start + 2 * num_patterns)) ;;
        instruments <- parse_instruments data inst_ptrs [] ;;
        patterns <- parse_patterns 32 data pattern_ptrs [] ;;
        OK {| title := title;
              orders := orders;
              instruments := instruments;
              patterns := patterns;
              num_orders := num_orders;
              num_instruments := num_instruments;
              num_patterns := num_patterns;
              sample_rate := 44100;
              channels := 32;
              tempo := 125;
              speed := 6 |}.

(** ** [S3MRenderer] *)

(** One entry of [self.channel_states] (line 176). *)
Record ChannelState : Type := mkState {
  sample_pos : float;
  increment : float;
  volume : Q;
  playing : bool;
  instrument : option Instrument
}.

Definition initial_state : ChannelState :=
  {| sample_pos := 0; increment := 0; volume := 0; playing := false;
     instrument := None |}.

(** [S3MRenderer.__init__]: one state per channel. *)
Definition init_channel_states (parser : S3MParser) : list ChannelState :=
  repeat initial_state (Z.to_nat (channels parser)).

(** An integer as a float (exact below [2^53], rounded to nearest above). *)
Definition float_of_int (z : Z) : float :=
  SF2Prim (binary_normalize prec emax z 0 false).

(** [int(x)] on a float: truncation towards zero; infinities and NaN raise. *)
Definition int_of_float (x : float) : result Z :=
  match Prim2SF x with
  | S754_zero _ => OK 0
  | S754_finite s m e =>
      let a := if 0 <=? e then Z.pos m * 2 ^ e else Z.pos m / 2 ^ (- e) in
      OK (if s then - a else a)
  | S754_infinity _ => Raise OverflowError
  | S754_nan => Raise ValueError
  end.

(** [int(x)] on a float that is an exact rational: truncation towards zero. *)
Definition py_int (x : Q) : Z := Z.quot (Qnum x) (Z.pos (Qden x)).

Definition note_table : list float :=
  [261.63; 277.18; 293.66; 311.13; 329.63; 349.23;
   369.99; 392.00; 415.30; 440.00; 466.16; 493.88]%float.

(** [S3MRenderer.note_to_freq] (lines 179-193).  The integer [0] of the two
    early returns is the float [0]: the caller divides it by the sample
    rate at once.  [2 ** (octave - 4)] is an exact power of two. *)
Definition note_to_freq (note : option Z) (c2spd : Z) : float :=
  match note with
  | None => 0
  | Some note =>
      if note =? 254 then 0
      else
        let octave := Z.shiftr note 4 in
        let note := Z.land note 15 in
        if note >=? len note_table then 0
        else
          let freq := (nth (Z.to_nat note) note_table 0 * Z.ldexp 1 (octave - 4))%float in
          (freq * float_of_int c2spd / float_of_int 8363)%float
  end.

(** Line 244: the mixed sum as an unsigned 8-bit sample. *)
Definition pcm_of_sum (sample : Q) : Z :=
  Z.max (Z.min (py_int (sample * 128 + 128)%Q) 255) 0.

(** Lines 212-225: the trigger of one slot of a row. *)
Definition trigger (parser : S3MParser) (states : list ChannelState)
    (ch : Z) (event : option Event) : result (list ChannelState) :=
  match event with
  | None => OK states
  | Some event =>
      match ev_note event with
      | None => OK states
      | Some note =>
          if note =? 254 then
            st <- py_index states ch ;;
            py_setitem states ch
              (mkState (sample_pos st) (increment st) (volume st) false (instrument st))
          else
            let inst_idx :=
              match ev_instrument event with
              | None => None
              | Some k => if k =? 0 then None else Some (k - 1)
              end in
            match inst_idx with
            | None => OK states
            | Some inst_idx =>
                if inst_idx <? len (instruments parser) then
                  inst <- py_index (instruments parser) inst_idx ;;
                  st <- py_index states ch ;;
                  incr <- (if sample_rate parser =? 0 then Raise ZeroDivisionError
                           else OK (note_to_freq (Some note) 8363
                                    / float_of_int (sample_rate parser))%float) ;;
                  vol <- match ev_volume event with
                         | Some v => OK (inject_Z v / 64)%Q
                         | None => OK (inst_volume inst)
                         end ;;
                  py_setitem states ch (mkState 0 incr vol true (Some inst))
                else OK states
            end
      end
  end.

(** Line 211: [for ch, event in enumerate(row)]. *)
Fixpoint trigger_row (parser : S3MParser) (states : list ChannelState)
    (ch : Z) (row : Row) : result (list ChannelState) :=
  match row with
  | [] => OK states
  | event :: rest =>
      states <- trigger parser states ch event ;;
      trigger_row parser states (ch + 1) rest
  end.

(** Line 242: the stored byte re-centred around zero. *)
Definition recenter (stored : Z) : Z := stored - 128.

(** Lines 232-243: what one channel adds to the sample under construction,
    and the channel's state afterwards. *)
Definition mix_channel (sample : Q) (state : ChannelState)
    : result (Q * ChannelState) :=
  match playing state, instrument state with
  | true, Some inst =>
      pos <- int_of_float (sample_pos state) ;;
      let play (pos : Z) :=
        b <- py_index (inst_sample inst) pos ;;
        OK ((sample + inject_Z (recenter b) * volume state)%Q,
            mkState (sample_pos state + increment state)%float (increment state)
                    (volume state) true (Some inst)) in
      if pos >=? inst_length inst then
        if inst_loop_end inst >? inst_loop_begin inst then
          play (inst_loop_begin inst
                + (pos - inst_loop_end inst) mod (inst_loop_end inst - inst_loop_begin inst))
        else
          OK (sample, mkState (sample_pos state) (increment state) (volume state)
                              false (Some inst))
      else play pos
  | _, _ => OK (sample, state)
  end.

(** Lines 230-243: [for ch in range(channels)] walks the first [channels]
    entries of [channel_states] in order, and fails on a shorter list. *)
Fixpoint mix_channels (n : nat) (states : list ChannelState) (sample : Q)
    : result (Q * list ChannelState) :=
  match n with
  | O => OK (sample, states)
  | S n' =>
      match states with
      | [] => Raise IndexError
      | state :: rest =>
          '(sample, state) <- mix_channel sample state ;;
          '(sample, rest) <- mix_channels n' rest sample ;;
          OK (sample, state :: rest)
      end
  end.

Section Render.

(** The conversion of line 244; [render] below takes [pcm_of_sum]. *)
Variable to_pcm : Q -> Z.
Variable parser : S3MParser.

(** Lines 228-245: [n] output samples. *)
Fixpoint render_samples (n : nat) (states : list ChannelState)
    : result (list Z * list ChannelState) :=
  match n with
  | O => OK ([], states)
  | S n' =>
      '(sample, states) <- mix_channels (Z.to_nat (channels parser)) states 0%Q ;;
      let sample := to_pcm sample in
      '(out, states) <- render_samples n' states ;;
      OK (sample :: out, states)
  end.

(** Lines 208-245: the rows of one pattern. *)
Fixpoint render_rows (row_samples : Z) (pattern : Pattern)
    (states : list ChannelState) : result (list Z * list ChannelState) :=
  match pattern with
  | [] => OK ([], states)
  | row :: rest =>
      states <- trigger_row parser states 0 row ;;
      '(out, states) <- render_samples (Z.to_nat row_samples) states ;;
      '(out', states) <- render_rows row_samples rest states ;;
      OK (out ++ out', states)
  end.

(** Lines 202-245: the order list. *)
Fixpoint render_orders (row_samples : Z) (ords : list Z)
    (states : list ChannelState) : result (list Z * list ChannelState) :=
  match ords with
  | [] => OK ([], states)
  | order :: rest =>
      if order >=? len (patterns parser) then render_orders row_samples rest states
      else
        pattern <- py_index (patterns parser) order ;;
        '(out, states) <- render_rows row_samples pattern states ;;
        '(out', states) <- render_orders row_samples rest states ;;
        OK (out ++ out', states)
  end.

(** [S3MRenderer(parser).render()] (lines 195-247). *)
Definition render_with : result (list Z) :=
  let ticks_per_row := speed parser in
  samples_per_tick <-
    (if tempo parser * 4 / 60 =? 0 then Raise ZeroDivisionError
     else OK (sample_rate parser / (tempo parser * 4 / 60))) ;;
  '(output, _) <- render_orders (ticks_per_row * samples_per_tick) (orders parser)
                    (init_channel_states parser) ;;
  OK output.

End Render.

(** The first call of [render] on a fresh renderer; its samples are bytes
    ([pcm_of_sum_range]), so the final [bytes(output)] does not raise. *)
Definition render (parser : S3MParser) : result (list Z) :=
  render_with pcm_of_sum parser.

(** ** Concrete inputs *)

Definition bytes_of (l : list Z) : bytes :=
  map (fun z => match Byte.of_N (Z.to_N z) with Some b => b | None => x00 end) l.

Definition zeros (n : nat) : list Z := repeat 0 n.

(** A 96-byte header: an empty title and the three counts at offset 28. *)
Definition header (n_orders n_instruments n_patterns : Z) : list Z :=
  zeros 28 ++ [n_orders; 0; n_instruments; 0; n_patterns; 0] ++ zeros 62.

(** A 24-byte instrument record with a one-letter name. *)
Definition instrument_record (type letter sample_ptr length loop_begin loop_end vol : Z)
    : list Z :=
  [type; letter] ++ zeros 11
  ++ [sample_ptr; 0; 0; 0; length; 0; loop_begin; 0; loop_end; 0; vol].

(** One order, one instrument at offset 112 (an empty sample with the loop
    0..1), one pattern at offset 144 whose first row plays note 0x40 with
    instrument 1 on channel 0. *)
Definition loop_past_sample_file : bytes :=
  bytes_of (header 1 1 1 ++ [0] ++ [7; 0] ++ [9; 0] ++ zeros 11
            ++ instrument_record 1 65 0 0 0 1 64 ++ zeros 8
            ++ [3; 0; 32; 64; 1]).

(** The same with a two-byte sample (the first two bytes of the file), the
    loop 0..4 and the highest note, 0xFB. *)
Definition loop_past_sample_file2 : bytes :=
  bytes_of (header 1 1 1 ++ [0] ++ [7; 0] ++ [9; 0] ++ zeros 11
            ++ instrument_record 1 65 0 2 0 4 64 ++ zeros 8
            ++ [3; 0; 32; 251; 1]).

(** Two instrument pointers: the record at offset 112 has type 0 and is
    skipped, the record at offset 144 is the sample "B".  The pattern at
    offset 176 plays instrument 2 on channel 0 and instrument 1 on
    channel 1. *)
Definition skipped_instrument_file : bytes :=
  bytes_of (header 1 2 1 ++ [0] ++ [7; 0; 9; 0] ++ [11; 0] ++ zeros 9
            ++ instrument_record 0 65 0 0 0 0 64 ++ zeros 8
            ++ instrument_record 1 66 0 4 0 0 64 ++ zeros 8
            ++ [6; 0; 32; 64; 2; 33; 64; 1]).

(** One pattern at offset 112 whose packed stream is the two bytes
    0x20 0x05: a note is announced and a single byte follows. *)
Definition truncated_pattern_file : bytes :=
  bytes_of (header 1 0 1 ++ [0] ++ [7; 0] ++ zeros 13 ++ [2; 0; 32; 5]).

(** Two orders, 0 and 5, one pattern, one instrument whose four sample
    bytes are the bytes at offset 112, without a loop. *)
Definition song_file : bytes :=
  bytes_of (header 2 1 1 ++ [0; 5] ++ [7; 0] ++ [9; 0] ++ zeros 10
            ++ instrument_record 1 65 7 4 0 0 64 ++ zeros 8
            ++ [3; 0; 32; 64; 1]).

Definition empty_parser : S3MParser := mkParser [] [] [] [] 0 0 0 44100 32 125 6.

(** The value of a result, [d] for a failure. *)
Definition value {A : Type} (d : A) (r : result A) : A :=
  match r with OK a => a | Raise _ => d end.

(** ** The specification's notions *)

(** The signed 8-bit (two's complement) value a raw byte encodes. *)
Definition signed8 (b : Z) : Z := if b <? 128 then b else b - 256.

(** ** Invariants of a parsed module *)

(** A volume as the code builds it: a byte over 64. *)
Definition vol64 (q : Q) : Prop := exists k, 0 <= k <= 255 /\ (q == k # 64)%Q.

Definition inst_ok (inst : Instrument) : Prop :=
  vol64 (inst_volume inst)
  /\ Forall (fun b => 0 <= b < 256) (inst_sample inst)
  /\ len (inst_sample inst) = inst_length inst.

Definition slot_ok (slot : option Event) : Prop :=
  match slot with
  | Some event =>
      match ev_volume event with
      | Some v => 0 <= v < 256
      | None => True
      end
  | None => True
  end.

(** A row has one slot per channel. *)
Definition row_ok (row : Row) : Prop :=
  List.length row = 32%nat /\ Forall slot_ok row.

(** A pattern has 64 rows. *)
Definition pattern_ok (pattern : Pattern) : Prop :=
  List.length pattern = 64%nat /\ Forall row_ok pattern.

Definition parser_ok (parser : S3MParser) : Prop :=
  Forall inst_ok (instruments parser)
  /\ Forall pattern_ok (patterns parser)
  /\ Forall (fun order => 0 <= order < 256) (orders parser)
  /\ sample_rate parser = 44100 /\ channels parser = 32
  /\ tempo parser = 125 /\ speed parser = 6.

(** The fatal conditions of the parser, in the specification's words: the
    buffer is smaller than the 96-byte header, the count fields at offset 28
    cannot be decoded, or the order list, the instrument pointer table or
    the pattern pointer table ends past the end of the buffer. *)
Definition fatal (data : bytes) : bool :=
  (len data <? 96)
  || match unpack_HHH (slice data 28 34) with
     | Raise _ => true
     | OK (n_orders, n_instruments, n_patterns) =>
         (96 + n_orders >? len data)
         || (96 + n_orders + 2 * n_instruments >? len data)
         || (96 + n_orders + 2 * n_instruments + 2 * n_patterns >? len data)
     end.

(** The order entries that name a parsed pattern. *)
Definition valid_orders (parser : S3MParser) : Z :=
  len (filter (fun order => order <? len (patterns parser)) (orders parser)).

(** [round(x)] as Python has it: to the nearest integer, a tie to the even
    one. *)
Definition py_round (x : Q) : Z :=
  let f := Qfloor x in
  match ((x - inject_Z f) ?= 1 # 2)%Q with
  | Lt => f
  | Gt => f + 1
  | Eq => if Z.even f then f else f + 1
  end.

Definition clamp (x lo hi : Z) : Z :=
  if x <? lo then lo else if hi <? x then hi else x.

(** The conversion in the specification's words:
    [clamp(round(sum * 128 + 128), 0, 255)]. *)
Definition pcm_round (sum : Q) : Z :=
  clamp (py_round (sum * 128 + 128)%Q) 0 255.

(** ** The renderer as the specification words it

    "For each order index in the order list, resolve to a pattern; if the
    pattern index is out of range, skip this order entirely.  For each of
    the pattern's 64 rows, first apply all trigger effects for that row
    across all channels.  Then render [ticksPerRow * samplesPerTick] output
    samples for this row: for each output sample, sum over all channels
    [...].  The summed signal is converted to unsigned 8-bit PCM via
    [clamp(round(sum * 128 + 128), 0, 255)] and appended to the output
    sequence."

    The output sequence is carried along and every sample is appended at
    its end.  Triggers and the sum over the channels are those of the
    code. *)
Fixpoint spec_render_samples (parser : S3MParser) (n : nat)
    (states : list ChannelState) (output : list Z)
    : result (list Z * list ChannelState) :=
  match n with
  | O => OK (output, states)
  | S n' =>
      '(sum, states) <- mix_channels (Z.to_nat (channels parser)) states 0%Q ;;
      spec_render_samples parser n' states
        (output ++ [clamp (py_round (sum * 128 + 128)%Q) 0 255])
  end.

Fixpoint spec_render_rows (parser : S3MParser) (row_samples : Z) (pattern : Pattern)
    (states : list ChannelState) (output : list Z)
    : result (list Z * list ChannelState) :=
  match pattern with
  | [] => OK (output, states)
  | row :: rest =>
      states <- trigger_row parser states 0 row ;;
      '(output, states) <-
        spec_render_samples parser (Z.to_nat row_samples) states output ;;
      spec_render_rows parser row_samples rest states output
  end.

Fixpoint spec_render_orders (parser : S3MParser) (row_samples : Z) (ords : list Z)
    (states : list ChannelState) (output : list Z)
    : result (list Z * list ChannelState) :=
  match ords with
  | [] => OK (output, states)
  | order :: rest =>
      if len (patterns parser) <=? order
      then spec_render_orders parser row_samples rest states output
      else
        pattern <- py_index (patterns parser) order ;;
        '(output, states) <- spec_render_rows parser row_samples pattern states output ;;
        spec_render_orders parser row_samples rest states output
  end.

(** [ticksPerRow = speed], [samplesPerTick = sampleRate // (tempo * 4 // 60)]. *)
Definition spec_render (parser : S3MParser) : result (list Z) :=
  let ticks_per_row := speed parser in
  let samples_per_tick := sample_rate parser / (tempo parser * 4 / 60) in
  '(output, _) <- spec_render_orders parser (ticks_per_row * samples_per_tick)
                    (orders parser) (init_channel_states parser) [] ;;
  OK output.

(** A channel state the renderer can be in: its volume is a byte over 64
    and its instrument, if any, is one the parser built. *)
Definition state_ok (st : ChannelState) : Prop :=
  vol64 (volume st)
  /\ forall inst, instrument st = Some inst -> inst_ok inst.

(** A mixed sum: [k/64] with [|k| <= bound]. *)
Definition sum64 (bound : Z) (q : Q) : Prop :=
  exists k, - bound <= k <= bound /\ (q == k # 64)%Q.

(** The position of a note on the semitone scale: [octave * 12 + semitone]. *)
Definition pitch (note : Z) : Z := Z.shiftr note 4 * 12 + Z.land note 15.

(** The note byte at a position of the scale. *)
Definition note_of_pitch (k : Z) : Z := 16 * (k / 12) + k mod 12.

(** *** The frequencies along the scale

    [base_freqs] lists [note_table[semitone] * 2 ** (octave - 4)] along the
    scale, for the 16 octaves and 12 semitones a note byte can hold;
    [scaled c2spd] is the frequency of each of them. *)
Definition base_freqs : list float :=
  Eval vm_compute in
    map (fun k => (nth (Z.to_nat (k mod 12)) note_table 0 * Z.ldexp 1 (k / 12 - 4))%float)
        (map Z.of_nat (seq 0 192)).

Definition scaled (c2spd : Z) : list float :=
  let fc := float_of_int c2spd in
  let f0 := float_of_int 8363 in
  map (fun base => (base * fc / f0)%float) base_freqs.

(** *** The bases as binary64 numbers *)

(** The value of a mantissa and an exponent. *)
Definition F2Q (m e : Z) : Q := inject_Z m * 2 ^ e.

(** [base * fc / f0] on two positive finite floats [fc] and [f0], as the
    operations are specified. *)
Definition scale (mc : positive) (ec : Z) (m0 : positive) (e0 : Z) (t : spec_float)
    : spec_float :=
  SFdiv prec emax (SFmul prec emax t (S754_finite false mc ec)) (S754_finite false m0 e0).

(** The relative distance the two roundings of [note_to_freq] stay
    within. *)
Definition eps : Q := 1 # 1000000000.

(** A float with the sign, the 53-digit mantissa and the exponent range of
    the entries of [base_freqs]. *)
Definition normal_base (x : float) : bool :=
  match Prim2SF x with
  | S754_finite false m e =>
      (2 ^ 52 <=? Z.pos m) && (Z.pos m <? 2 ^ 53) && (-60 <=? e) && (e <=? 0)
  | _ => false
  end.

(** The value of such a float in units of [2^-60]. *)
Definition weight (x : float) : Z :=
  match Prim2SF x with
  | S754_finite false m e => Z.pos m * 2 ^ (e + 60)
  | _ => 0
  end.

(** [y] is at least one per cent above [x]. *)
Definition gap (x y : float) : bool := 101 * weight x <=? 100 * weight y.

(** Each element is related to the next one. *)
Fixpoint chain {A : Type} (R : A -> A -> bool) (l : list A) : bool :=
  match l with
  | [] => true
  | x :: t =>
      match t with
      | [] => true
      | y :: _ => R x y && chain R t
      end
  end.

(** Decidable forms of "no channel is playing" and "no event in the slot". *)
Definition silentb (states : list ChannelState) : bool :=
  forallb (fun st => negb (playing st)) states.

Definition no_event (slot : option Event) : bool :=
  match slot with None => true | Some _ => false end.

(** The module parsed from [song_file]. *)
Definition song_parser : S3MParser := value empty_parser (read_s3m song_file).

(** ** The tables of the file, as the parser reads them *)

(** The instrument and pattern pointer tables of a parsed file: 16-bit
    values right after the order list (lines 67-73). *)
Definition instrument_pointers (data : bytes) (parser : S3MParser) : list Z :=
  fields_H (Z.to_nat (num_instruments parser))
    (slice data (96 + num_orders parser)
       (96 + num_orders parser + 2 * num_instruments parser)).

Definition pattern_pointers (data : bytes) (parser : S3MParser) : list Z :=
  fields_H (Z.to_nat (num_patterns parser))
    (slice data (96 + num_orders parser + 2 * num_instruments parser)
       (96 + num_orders parser + 2 * num_instruments parser
        + 2 * num_patterns parser)).

(** Python's [range(n)]. *)
Definition range (n : Z) : list Z := map Z.of_nat (seq 0 (Z.to_nat n)).

(** What a loop over pointers keeps: the units its body returns, in the
    order of the pointers. *)
Definition kept {A : Type} (body : Z -> result (option A)) (ptrs : list Z) : list A :=
  flat_map (fun ptr => match body ptr with
                       | OK (Some a) => [a]
                       | _ => []
                       end) ptrs.

(** An event as the pattern decoder builds it: every field is a byte, and
    the note and the instrument come together. *)
Definition is_byte (v : Z) : Prop := 0 <= v < 256.

Definition opt_byte (o : option Z) : Prop :=
  match o with Some v => is_byte v | None => True end.

Definition event_wf (event : Event) : Prop :=
  opt_byte (ev_note event) /\ opt_byte (ev_instrument event)
  /\ opt_byte (ev_volume event)
  /\ match ev_effect event with
     | Some (command, parameter) => is_byte command /\ is_byte parameter
     | None => True
     end
  /\ (ev_note event = None <-> ev_instrument event = None).

Definition slot_wf (slot : option Event) : Prop :=
  match slot with Some event => event_wf event | None => True end.

(** The message of the exception [read_s3m] raises, [None] when it
    returns: the checks of lines 42, 60 and 69, in that order. *)
Definition parse_error (data : bytes) : option string :=
  let n_orders := le_uint (slice data 28 30) in
  let n_instruments := le_uint (slice data 30 32) in
  let n_patterns := le_uint (slice data 32 34) in
  if len data <? 96 then Some "File too small to be a valid S3M"%string
  else if 96 + n_orders >? len data then Some "Order list exceeds file size"%string
  else if 96 + n_orders + 2 * n_instruments + 2 * n_patterns >? len data
       then Some "Pattern pointers exceed file size"%string
  else None.

(** A row without events. *)
Definition empty_row (chans : Z) : Row := repeat None (Z.to_nat chans).

(** ** Notions for the renderer *)

(** A slot that starts nothing: empty, without a note, a key-off, or a note
    whose instrument number is absent, 0 or past the instrument list
    (lines 212-219). *)
Definition inert (parser : S3MParser) (slot : option Event) : bool :=
  match slot with
  | None => true
  | Some event =>
      match ev_note event with
      | None => true
      | Some note =>
          (note =? 254)
          || match ev_instrument event with
             | None => true
             | Some k => (k =? 0) || (len (instruments parser) <=? k - 1)
             end
      end
  end.

(** What mixing one sample may do to a channel: the instrument, the volume
    and the increment stay; the position stays or moves by the increment;
    a stopped channel stays as it is. *)
Definition mix_frame (st st' : ChannelState) : Prop :=
  instrument st' = instrument st
  /\ volume st' = volume st
  /\ increment st' = increment st
  /\ (sample_pos st' = sample_pos st
      \/ sample_pos st' = (sample_pos st + increment st)%float)
  /\ (playing st' = true -> playing st = true)
  /\ (playing st = false -> st' = st).

(** A float that is zero, positive or plus infinity. *)
Definition nonneg (x : float) : bool :=
  match Prim2SF x with
  | S754_nan => false
  | S754_zero _ => true
  | S754_finite s _ _ => negb s
  | S754_infinity s => negb s
  end.

(** The note bytes, 0 to 255. *)
Definition note_bytes : list Z := map Z.of_nat (seq 0 256).

(** An instrument whose loop, if it has one, lies within its sample. *)
Definition loop_in_sample (inst : Instrument) : bool :=
  (inst_loop_end inst <=? inst_loop_begin inst)
  || (inst_loop_end inst <=? inst_length inst).

(** A result that is a value with the property [P], or the
    [OverflowError] of [int] on an infinite position. *)
Definition sound {A : Type} (P : A -> Prop) (r : result A) : Prop :=
  match r with
  | OK a => P a
  | Raise e => e = OverflowError
  end.

(** A channel state the mixer can read without leaving the sample. *)
Definition state_safe (st : ChannelState) : Prop :=
  nonneg (sample_pos st) = true
  /\ nonneg (increment st) = true
  /\ forall inst, instrument st = Some inst ->
       len (inst_sample inst) = inst_length inst
       /\ 0 <= inst_loop_begin inst
       /\ loop_in_sample inst = true.

(** The base frequency of a note: the table entry of its semitone times
    two to the octave minus 4 (line 190). *)
Definition base_freq (note : Z) : float :=
  (nth (Z.to_nat (Z.land note 15)) note_table 0 * Z.ldexp 1 (Z.shiftr note 4 - 4))%float.

(** ** [WAVWriter.write] and [convert_s3m_to_wav] *)

(** [struct.pack] of one unsigned little-endian field of [n] bytes; a
    value outside the field's range raises [struct.error]. *)
Fixpoint le_bytes (n : nat) (v : Z) : list Z :=
  match n with
  | O => []
  | S n' => v mod 256 :: le_bytes n' (v / 256)
  end.

Definition pack_uint (n : nat) (v : Z) : result (list Z) :=
  if (0 <=? v) && (v <? 256 ^ Z.of_nat n) then OK (le_bytes n v) else Raise struct_error.

(** [struct.pack('<...', v1, v2, ...)] for unsigned fields given with their
    sizes. *)
Fixpoint pack (fields : list (nat * Z)) : result (list Z) :=
  match fields with
  | [] => OK []
  | (n, v) :: rest =>
      b <- pack_uint n v ;;
      bs <- pack rest ;;
      OK (b ++ bs)
  end.

(** Lines 257-267: the 44-byte header, "RIFF", "WAVE", "fmt " and "data"
    as character codes. *)
Definition wav_header (sample_rate num_samples : Z) : result (list Z) :=
  chunk_size <- pack [(4%nat, 36 + num_samples)] ;;
  fmt <- pack [(4%nat, 16); (2%nat, 1); (2%nat, 1); (4%nat, sample_rate);
               (4%nat, sample_rate); (2%nat, 1); (2%nat, 8)] ;;
  data_size <- pack [(4%nat, num_samples)] ;;
  OK ([82; 73; 70; 70] ++ chunk_size ++ [87; 65; 86; 69] ++ [102; 109; 116; 32]
      ++ fmt ++ [100; 97; 116; 97] ++ data_size).

(** [WAVWriter(filename, sample_rate).write(audio_data)] (lines 255-276):
    the bytes written to the file.  Opening and writing the file are
    outside the model. *)
Definition wav_write (sample_rate : Z) (audio_data : list Z) : result (list Z) :=
  let num_samples := len audio_data in
  header <- wav_header sample_rate num_samples ;;
  OK (header ++ audio_data).

(** [convert_s3m_to_wav] (lines 278-286), from the bytes of the S3M file
    to the bytes of the WAV file; the writer takes its default rate. *)
Definition convert_s3m_to_wav (data : bytes) : result (list Z) :=
  parser <- read_s3m data ;;
  audio_data <- render parser ;;
  wav_write 44100 audio_data.

(** ** Further inputs *)

(** The layout of [song_file], with a pattern that starts nothing: a
    key-off on channel 0, a note with instrument 0 on channel 1, a note
    with the absent instrument 5 on channel 2 and a volume alone on
    channel 3. *)
Definition quiet_file : bytes :=
  bytes_of (header 1 1 1 ++ [0] ++ [7; 0] ++ [9; 0] ++ zeros 11
            ++ instrument_record 1 65 7 4 0 0 64 ++ zeros 8
            ++ [11; 0; 32; 254; 1; 33; 64; 0; 34; 64; 5; 67; 30]).

Definition quiet_parser : S3MParser := value empty_parser (read_s3m quiet_file).

(** 2030 orders (0x07EE), all of them pattern 0; no instrument; one
    pattern at offset 2128 with an empty packed stream. *)
Definition long_file : bytes :=
  bytes_of (zeros 28 ++ [238; 7; 0; 0; 1; 0] ++ zeros 62
            ++ zeros 2030 ++ [133; 0] ++ [0; 0]).

Definition long_parser : S3MParser := value empty_parser (read_s3m long_file).

(** A channel past the end of a two-byte sample whose instrument loops
    over four bytes. *)
Definition looping_instrument : Instrument := mkInstrument [65] [10; 20; 30; 40] 2 0 4 1.

Definition looping_state : ChannelState :=
  mkState 5 1 1 true (Some looping_instrument).

(** A channel of the renderer past the end of a four-byte sample that
    loops as a whole, at full volume. *)
Definition wrapping_instrument : Instrument := mkInstrument [65] [10; 20; 30; 40] 4 0 4 1.

Definition wrapping_state : ChannelState :=
  mkState 5 1 1 true (Some wrapping_instrument).
(** * Properties *)

(** ** Sequences and the result monad *)

(** Boolean integer tests in the hypotheses, as propositions. *)
Ltac zbool :=
  repeat match goal with
  | H : (_ >? _) = _ |- _ => rewrite Z.gtb_ltb in H
  | H : (_ >=? _) = _ |- _ => rewrite Z.geb_leb in H
  | H : (_ <? _) = true |- _ => apply Z.ltb_lt in H
  | H : (_ <? _) = false |- _ => apply Z.ltb_ge in H
  | H : (_ <=? _) = true |- _ => apply Z.leb_le in H
  | H : (_ <=? _) = false |- _ => apply Z.leb_gt in H
  | H : (_ =? _) = true |- _ => apply Z.eqb_eq in H
  | H : (_ =? _) = false |- _ => apply Z.eqb_neq in H
  end.

Lemma len_nonneg {A : Type} (l : list A) : 0 <= len l.
Proof. unfold len. lia. Qed.

Lemma bind_ok {A B : Type} (r : result A) (k : A -> result B) (b : B) :
  bind r k = OK b -> exists a, r = OK a /\ k a = OK b.
Proof. destruct r as [a | e]; simpl; intros H; [eauto | discriminate]. Qed.

Lemma byte_val_range (b : byte) : 0 <= byte_val b < 256.
Proof.
  unfold byte_val. pose proof (Byte.to_N_bounded b) as H. lia.
Qed.

Lemma len_slice {A : Type} (l : list A) (a b : Z) :
  0 <= a -> a <= b -> b <= len l -> len (slice l a b) = b - a.
Proof.
  unfold slice, len. intros Ha Hab Hb.
  rewrite length_firstn, length_skipn. lia.
Qed.

Lemma py_index_ok {A : Type} (l : list A) (i : Z) :
  0 <= i < len l -> exists a, py_index l i = OK a /\ nth_error l (Z.to_nat i) = Some a.
Proof.
  unfold py_index, len. intros Hi.
  destruct (i <? 0) eqn:E; [lia |]. rewrite E.
  destruct (nth_error l (Z.to_nat i)) as [a |] eqn:N; [eauto |].
  apply nth_error_None in N. lia.
Qed.

Lemma py_index_In {A : Type} (l : list A) (i : Z) (a : A) :
  py_index l i = OK a -> In a l.
Proof.
  unfold py_index. destruct (_ <? 0); [discriminate |].
  destruct (nth_error l _) eqn:N; [| discriminate].
  intros H. inversion H. subst. eapply nth_error_In; eauto.
Qed.

Lemma byte_at_ok (data : bytes) (i : Z) :
  0 <= i < len data -> exists v, byte_at data i = OK v /\ 0 <= v < 256.
Proof.
  intros Hi. unfold byte_at.
  destruct (py_index_ok data i Hi) as [b [Hb _]]. rewrite Hb. simpl.
  eexists. split; [reflexivity | apply byte_val_range].
Qed.

Lemma list_set_nat_ok {A : Type} (l : list A) (n : nat) (v : A) :
  (n < List.length l)%nat ->
  exists l', list_set_nat l n v = Some l' /\ List.length l' = List.length l
             /\ nth_error l' n = Some v
             /\ forall m, m <> n -> nth_error l' m = nth_error l m.
Proof.
  revert n. induction l as [| h t IH]; intros n Hn; simpl in Hn; [lia |].
  destruct n as [| n'].
  - exists (v :: t). simpl. repeat split; auto.
    intros [| m] Hm; [congruence | reflexivity].
  - destruct (IH n') as [t' [E [L [N O]]]]; [lia |].
    exists (h :: t'). simpl. rewrite E. simpl. repeat split; auto.
    intros [| m] Hm; simpl; [reflexivity | apply O; congruence].
Qed.

Lemma list_set_nat_Forall {A : Type} (P : A -> Prop) (l l' : list A) (n : nat) (v : A) :
  list_set_nat l n v = Some l' -> Forall P l -> P v -> Forall P l'.
Proof.
  revert n l'. induction l as [| h t IH]; intros n l' E Hl Hv; simpl in E.
  - discriminate.
  - inversion Hl; subst. destruct n as [| n'].
    + inversion E. subst. constructor; assumption.
    + destruct (list_set_nat t n' v) as [t' |] eqn:Et; simpl in E; [| discriminate].
      inversion E. subst. constructor; [assumption | eapply IH; eauto].
Qed.

Lemma py_setitem_ok {A : Type} (l : list A) (i : Z) (v : A) :
  0 <= i < len l ->
  exists l', py_setitem l i v = OK l' /\ List.length l' = List.length l
             /\ nth_error l' (Z.to_nat i) = Some v
             /\ forall m, m <> Z.to_nat i -> nth_error l' m = nth_error l m.
Proof.
  unfold py_setitem, len. intros Hi.
  destruct (i <? 0) eqn:E; [lia |].
  destruct (list_set_nat_ok l (Z.to_nat i) v) as [l' [E' H]]; [lia |].
  exists l'. rewrite E'. auto.
Qed.

Lemma py_setitem_Forall {A : Type} (P : A -> Prop) (l l' : list A) (i : Z) (v : A) :
  py_setitem l i v = OK l' -> Forall P l -> P v -> Forall P l'.
Proof.
  unfold py_setitem. destruct (i <? 0); [discriminate |].
  destruct (list_set_nat l (Z.to_nat i) v) as [l0 |] eqn:E; [| discriminate].
  intros H. inversion H. subst. eapply list_set_nat_Forall; eauto.
Qed.

Lemma py_setitem_length {A : Type} (l l' : list A) (i : Z) (v : A) :
  py_setitem l i v = OK l' -> List.length l' = List.length l.
Proof.
  unfold py_setitem. destruct (i <? 0) eqn:Ei; [discriminate |].
  destruct (list_set_nat l (Z.to_nat i) v) as [l0 |] eqn:E; [| discriminate].
  intros H. inversion H. subst.
  destruct (Nat.lt_ge_cases (Z.to_nat i) (List.length l)) as [Hlt | Hge].
  - destruct (list_set_nat_ok l (Z.to_nat i) v Hlt) as [l1 [E1 [L _]]]. congruence.
  - exfalso. clear Ei H. revert l' E Hge. generalize (Z.to_nat i) as n.
    induction l as [| h t IH]; intros n l' E Hge; simpl in E; [discriminate |].
    destruct n as [| n']; simpl in Hge; [lia |].
    destruct (list_set_nat t n' v) eqn:Et; simpl in E; [| discriminate].
    eapply IH; eauto. lia.
Qed.

(** ** Sample bytes *)

Lemma recenter_store_sample (b : Z) :
  0 <= b < 256 -> recenter (store_sample b) = signed8 b.
Proof.
  intros Hb. unfold recenter, store_sample, signed8.
  change 255 with (Z.ones 8). rewrite Z.land_ones by lia.
  change (2 ^ 8) with 256.
  destruct (b <? 128) eqn:E.
  - apply Z.ltb_lt in E. rewrite Z.mod_small by lia. lia.
  - apply Z.ltb_ge in E.
    replace (b + 128) with ((b - 128) + 1 * 256) by lia.
    rewrite Z.mod_add by lia. rewrite Z.mod_small by lia. lia.
Qed.

(** C8: for each of the 256 raw byte values, the byte stored by the parser
    as [(b + 128) & 0xFF] and read back by the mixer as [stored - 128] is
    the signed 8-bit value the raw byte encodes. *)
Theorem sample_round_trip (b : byte) :
  recenter (store_sample (byte_val b)) = signed8 (byte_val b).
Proof. apply recenter_store_sample, byte_val_range. Qed.

(** ** Triggers *)

(** C9: a key-off event (note 254) clears the channel's playing flag and
    nothing else: position, increment, volume and instrument of the channel
    stay, and so does every other channel. *)
Theorem key_off_only_stops (parser : S3MParser) (states : list ChannelState)
    (ch : Z) (event : Event) (st : ChannelState) :
  ev_note event = Some 254 ->
  0 <= ch ->
  nth_error states (Z.to_nat ch) = Some st ->
  exists states',
    trigger parser states ch (Some event) = OK states'
    /\ nth_error states' (Z.to_nat ch)
       = Some (mkState (sample_pos st) (increment st) (volume st) false (instrument st))
    /\ (forall ch', ch' <> Z.to_nat ch -> nth_error states' ch' = nth_error states ch')
    /\ List.length states' = List.length states.
Proof.
  intros Hnote Hch Hst.
  assert (Hlt : 0 <= ch < len states).
  { unfold len. split; [assumption |].
    assert (Z.to_nat ch < List.length states)%nat
      by (apply nth_error_Some; congruence).
    lia. }
  unfold trigger. rewrite Hnote. simpl.
  destruct (py_index_ok states ch Hlt) as [st0 [Hidx Hnth]].
  rewrite Hidx. simpl.
  assert (st0 = st) by congruence. subst st0.
  destruct (py_setitem_ok states ch
              (mkState (sample_pos st) (increment st) (volume st) false (instrument st))
              Hlt) as [states' [Hset [Hlen [Hnew Hold]]]].
  exists states'. auto.
Qed.

Lemma key_off_only_stops_witness :
  exists states',
    trigger empty_parser
            [initial_state; mkState 3 1 1 true None] 1
            (Some (mkEvent (Some 254) None None None)) = OK states'
    /\ nth_error states' 1 = Some (mkState 3 1 1 false None)
    /\ (forall ch', ch' <> 1%nat ->
          nth_error states' ch' = nth_error [initial_state; mkState 3 1 1 true None] ch')
    /\ List.length states' = 2%nat.
Proof.
  apply (key_off_only_stops empty_parser
           [initial_state; mkState 3 1 1 true None] 1
           (mkEvent (Some 254) None None None) (mkState 3 1 1 true None)).
  - reflexivity.
  - lia.
  - reflexivity.
Defined.

(** C10: an event with a note other than key-off whose instrument byte is
    absent or 0, or whose 0-based instrument index is not below the number
    of parsed instruments, leaves the channel states as they are. *)
Theorem unresolved_instrument_is_ignored (parser : S3MParser)
    (states : list ChannelState) (ch : Z) (event : Event) (note : Z) :
  ev_note event = Some note ->
  note <> 254 ->
  (ev_instrument event = None
   \/ ev_instrument event = Some 0
   \/ exists k, ev_instrument event = Some k /\ len (instruments parser) <= k - 1) ->
  trigger parser states ch (Some event) = OK states.
Proof.
  intros Hnote Hkey Hinst. unfold trigger. rewrite Hnote.
  destruct (note =? 254) eqn:E; [apply Z.eqb_eq in E; contradiction |].
  destruct Hinst as [H | [H | [k [H Hk]]]]; rewrite H; simpl; try reflexivity.
  destruct (k =? 0); [reflexivity |].
  destruct (k - 1 <? len (instruments parser)) eqn:L; [| reflexivity].
  apply Z.ltb_lt in L. lia.
Qed.

Lemma unresolved_instrument_is_ignored_witness :
  trigger empty_parser
          [mkState 3 1 1 true None] 0
          (Some (mkEvent (Some 64) (Some 5) (Some 32) None))
  = OK [mkState 3 1 1 true None].
Proof.
  apply (unresolved_instrument_is_ignored empty_parser
           [mkState 3 1 1 true None] 0
           (mkEvent (Some 64) (Some 5) (Some 32) None) 64).
  - reflexivity.
  - lia.
  - right. right. exists 5. split; [reflexivity | vm_compute; discriminate].
Defined.

(** ** The parser never fails past the header checks *)

Lemma le_uint_nonneg (bs : bytes) : 0 <= le_uint bs.
Proof.
  induction bs as [| b t IH]; cbn [le_uint]; [lia |].
  pose proof (byte_val_range b). lia.
Qed.

Lemma le_uint_byte (bs : bytes) : len bs = 1 -> 0 <= le_uint bs < 256.
Proof.
  destruct bs as [| b [| c t]]; unfold len; cbn [List.length le_uint]; try lia.
  intros _. pose proof (byte_val_range b). lia.
Qed.

Lemma fields_H_nonneg (n : nat) (bs : bytes) : Forall (fun p => 0 <= p) (fields_H n bs).
Proof.
  revert bs. induction n as [| n IH]; intros bs; simpl; constructor.
  - apply le_uint_nonneg.
  - apply IH.
Qed.

Lemma vol64_byte (v : Z) : 0 <= v < 256 -> vol64 (inject_Z v / 64)%Q.
Proof.
  intros Hv. exists v. split; [lia |].
  unfold Qeq, Qdiv, Qmult, Qinv, inject_Z. simpl. lia.
Qed.

Lemma store_sample_range (b : Z) : 0 <= store_sample b < 256.
Proof.
  unfold store_sample. change 255 with (Z.ones 8).
  rewrite Z.land_ones by lia. apply Z.mod_pos_bound. lia.
Qed.

Lemma parse_instrument_total (data : bytes) (ptr : Z) :
  0 <= ptr ->
  exists r, parse_instrument data ptr = OK r
            /\ match r with Some inst => inst_ok inst | None => True end.
Proof.
  intros Hptr. unfold parse_instrument.
  destruct (ptr * 16 + 24 >? len data) eqn:G; [exists None; auto |].
  zbool.
  destruct (byte_at_ok data (ptr * 16)) as [ty [Hty _]]; [lia |].
  rewrite Hty. simpl.
  destruct (ty =? 1); [| exists None; auto].
  unfold unpack_LHHHB.
  set (rec := slice data (ptr * 16 + 13) (ptr * 16 + 24)).
  assert (Hrec : len rec = 11) by (unfold rec; rewrite len_slice; lia).
  rewrite Hrec. simpl.
  destruct (le_uint (slice rec 0 4) * 16 + le_uint (slice rec 4 6) >? len data) eqn:G2;
    [exists None; auto |].
  zbool.
  pose proof (le_uint_nonneg (slice rec 0 4)) as H0.
  pose proof (le_uint_nonneg (slice rec 4 6)) as H1.
  eexists. split; [reflexivity |]. simpl.
  unfold inst_ok. simpl. repeat split.
  - apply vol64_byte, le_uint_byte. rewrite len_slice; lia.
  - apply Forall_map. apply Forall_forall. intros b _. apply store_sample_range.
  - unfold len at 1. rewrite length_map. fold (len (slice data (le_uint (slice rec 0 4) * 16)
        (le_uint (slice rec 0 4) * 16 + le_uint (slice rec 4 6)))).
    rewrite len_slice; lia.
Qed.

Lemma parse_instruments_total (data : bytes) (ptrs : list Z) (acc : list Instrument) :
  Forall (fun p => 0 <= p) ptrs -> Forall inst_ok acc ->
  exists insts, parse_instruments data ptrs acc = OK insts /\ Forall inst_ok insts.
Proof.
  revert acc. induction ptrs as [| ptr rest IH]; intros acc Hp Hacc; simpl.
  - eauto.
  - inversion Hp; subst.
    destruct (parse_instrument_total data ptr) as [r [Hr Hok]]; [assumption |].
    rewrite Hr. simpl. apply IH; [assumption |].
    destruct r as [inst |]; [| assumption].
    apply Forall_app. split; [assumption | constructor; [assumption | constructor]].
Qed.

(** *** Packed patterns *)

Lemma read_note_total (pd : bytes) (what i : Z) :
  0 <= i ->
  exists r, read_note pd what i = OK r
            /\ match r with Some (_, _, i') => i <= i' | None => True end.
Proof.
  intros Hi. unfold read_note.
  destruct (Z.land what 32 =? 0); [eexists; split; [reflexivity | simpl; lia] |].
  destruct (i + 2 >? len pd) eqn:G; [exists None; auto |]. zbool.
  destruct (byte_at_ok pd i) as [n [Hn _]]; [lia |].
  destruct (byte_at_ok pd (i + 1)) as [k [Hk _]]; [lia |].
  rewrite Hn. simpl. rewrite Hk. simpl.
  eexists. split; [reflexivity | simpl; lia].
Qed.

Lemma read_volume_total (pd : bytes) (what i : Z) :
  0 <= i ->
  exists r, read_volume pd what i = OK r
            /\ match r with
               | Some (v, i') =>
                   i <= i' /\ match v with Some v => 0 <= v < 256 | None => True end
               | None => True
               end.
Proof.
  intros Hi. unfold read_volume.
  destruct (Z.land what 64 =? 0); [eexists; split; [reflexivity | simpl; split; [lia | auto]] |].
  destruct (i + 1 >? len pd) eqn:G; [exists None; auto |]. zbool.
  destruct (byte_at_ok pd i) as [v [Hv Hr]]; [lia |].
  rewrite Hv. simpl.
  eexists. split; [reflexivity | simpl; split; [lia | assumption]].
Qed.

Lemma read_effect_total (pd : bytes) (what i : Z) :
  0 <= i ->
  exists r, read_effect pd what i = OK r
            /\ match r with Some (_, i') => i <= i' | None => True end.
Proof.
  intros Hi. unfold read_effect.
  destruct (Z.land what 128 =? 0); [eexists; split; [reflexivity | simpl; lia] |].
  destruct (i + 2 >? len pd) eqn:G; [exists None; auto |]. zbool.
  destruct (byte_at_ok pd i) as [c [Hc _]]; [lia |].
  destruct (byte_at_ok pd (i + 1)) as [k [Hk _]]; [lia |].
  rewrite Hc. simpl. rewrite Hk. simpl.
  eexists. split; [reflexivity | simpl; lia].
Qed.

Lemma channel_range (what : Z) : 0 <= what -> 0 <= Z.land what 31 < 32.
Proof.
  intros Hw. change 31 with (Z.ones 5). rewrite Z.land_ones by lia.
  apply Z.mod_pos_bound. lia.
Qed.

(** The [while] loop of a row ends: each iteration that goes on has moved
    the index forward, so any fuel above the number of bytes left is enough,
    and the row keeps its 32 slots. *)
Lemma decode_row_total (fuel : nat) (pd : bytes) (i : Z) (row : Row) :
  0 <= i -> (Z.to_nat (len pd - i) < fuel)%nat -> row_ok row ->
  exists row' i', decode_row fuel pd i row = OK (row', i') /\ row_ok row' /\ i <= i'.
Proof.
  revert i row. induction fuel as [| fuel IH]; intros i row Hi Hfuel Hrow; [lia |].
  cbn [decode_row].
  destruct (i <? len pd) eqn:L; [| exists row, i; repeat split; auto; apply Hrow || lia].
  zbool.
  destruct (byte_at_ok pd i) as [what [Hw Hwr]]; [lia |].
  rewrite Hw. cbn [bind].
  destruct (what =? 0); [exists row, (i + 1); repeat split; auto; apply Hrow || lia |].
  destruct (i + 1 >? len pd); [exists row, i; repeat split; auto; apply Hrow || lia |].
  destruct (read_note_total pd what (i + 1)) as [r1 [E1 H1]]; [lia |].
  rewrite E1. cbn [bind].
  destruct r1 as [[[note ins] i1] |];
    [| exists row, (i + 1); repeat split; auto; apply Hrow || lia].
  destruct (read_volume_total pd what i1) as [r2 [E2 H2]]; [lia |].
  rewrite E2. cbn [bind].
  destruct r2 as [[vol i2] |];
    [| exists row, i1; repeat split; auto; apply Hrow || lia].
  destruct H2 as [H2 Hvol].
  destruct (read_effect_total pd what i2) as [r3 [E3 H3]]; [lia |].
  rewrite E3. cbn [bind].
  destruct r3 as [[eff i3] |];
    [| exists row, i2; repeat split; auto; apply Hrow || lia].
  destruct Hrow as [Hlen Hslots].
  pose proof (channel_range what (proj1 Hwr)) as Hch.
  destruct (py_setitem_ok row (Z.land what 31) (Some (mkEvent note ins vol eff)))
    as [row1 [Eset [Hlen1 _]]]; [unfold len; lia |].
  rewrite Eset. cbn [bind].
  destruct (IH i3 row1) as [row' [i' [E [Hok Hle]]]]; [lia | lia | |].
  - split; [congruence |].
    eapply py_setitem_Forall; [exact Eset | exact Hslots |].
    simpl. exact Hvol.
  - exists row', i'. repeat split; auto; apply Hok || lia.
Qed.

Lemma repeat_None_row_ok : row_ok (repeat None (Z.to_nat 32)).
Proof.
  split; [rewrite repeat_length; reflexivity |].
  apply Forall_forall. intros x Hx. apply repeat_spec in Hx. subst. exact I.
Qed.

Lemma decode_rows_total (n : nat) (pd : bytes) (i : Z) :
  0 <= i ->
  exists rows, decode_rows n 32 pd i = OK rows
               /\ List.length rows = n /\ Forall row_ok rows.
Proof.
  revert i. induction n as [| n IH]; intros i Hi; cbn [decode_rows].
  - exists []. auto.
  - destruct (decode_row_total (S (List.length pd)) pd i (repeat None (Z.to_nat 32)))
      as [row [i' [E [Hok Hle]]]]; [lia | unfold len; lia | apply repeat_None_row_ok |].
    rewrite E. cbn [bind].
    destruct (IH i') as [rows [Er [Hlen Hrows]]]; [lia |].
    rewrite Er. cbn [bind].
    exists (row :: rows). simpl. auto.
Qed.

Lemma parse_pattern_total (data : bytes) (ptr : Z) :
  0 <= ptr ->
  exists r, parse_pattern 32 data ptr = OK r
            /\ match r with Some pattern => pattern_ok pattern | None => True end.
Proof.
  intros Hptr. unfold parse_pattern.
  destruct (ptr * 16 + 2 >? len data) eqn:G; [exists None; auto |]. zbool.
  unfold unpack_H. rewrite len_slice by lia.
  replace (ptr * 16 + 2 - ptr * 16 =? 2) with true by (symmetry; apply Z.eqb_eq; lia).
  cbn [bind].
  destruct (_ >? len data); [exists None; auto |].
  destruct (decode_rows_total 64 (slice data (ptr * 16 + 2)
              (ptr * 16 + 2 + le_uint (slice data (ptr * 16) (ptr * 16 + 2)))) 0)
    as [rows [E [Hlen Hrows]]]; [lia |].
  rewrite E. cbn [bind except_struct_error].
  exists (Some rows). split; [reflexivity | split; assumption].
Qed.

Lemma parse_patterns_total (data : bytes) (ptrs : list Z) (acc : list Pattern) :
  Forall (fun p => 0 <= p) ptrs -> Forall pattern_ok acc ->
  exists pats, parse_patterns 32 data ptrs acc = OK pats /\ Forall pattern_ok pats.
Proof.
  revert acc. induction ptrs as [| ptr rest IH]; intros acc Hp Hacc; simpl.
  - eauto.
  - inversion Hp; subst.
    destruct (parse_pattern_total data ptr) as [r [Hr Hok]]; [assumption |].
    rewrite Hr. simpl. apply IH; [assumption |].
    destruct r as [pattern |]; [| assumption].
    apply Forall_app. split; [assumption | constructor; [assumption | constructor]].
Qed.

(** *** The whole parse *)

Lemma read_s3m_cases (data : bytes) :
  if fatal data
  then exists msg, read_s3m data = Raise (Exception msg)
  else exists parser, read_s3m data = OK parser /\ parser_ok parser.
Proof.
  unfold fatal, read_s3m.
  destruct (len data <? 96) eqn:L; cbn [orb]; [eauto |]. zbool.
  unfold unpack_HHH. rewrite len_slice by lia.
  change (34 - 28 =? 6) with true. cbv iota.
  cbn [except_struct_error bind].
  set (no := le_uint (slice (slice data 28 34) 0 2)).
  set (ni := le_uint (slice (slice data 28 34) 2 4)).
  set (np := le_uint (slice (slice data 28 34) 4 6)).
  assert (Hno : 0 <= no) by apply le_uint_nonneg.
  assert (Hni : 0 <= ni) by apply le_uint_nonneg.
  assert (Hnp : 0 <= np) by apply le_uint_nonneg.
  assert (Hflags : unpack_H (slice data 38 40) = OK (le_uint (slice data 38 40))).
  { unfold unpack_H. rewrite len_slice by lia. reflexivity. }
  rewrite Hflags. cbn [bind].
  destruct (96 + no >? len data) eqn:G1; cbn [orb]; [eauto |].
  destruct (96 + no + 2 * ni + 2 * np >? len data) eqn:G2.
  { rewrite orb_true_r. eauto. }
  zbool.
  replace (96 + no + 2 * ni >? len data) with false
    by (symmetry; rewrite Z.gtb_ltb; apply Z.ltb_ge; lia).
  cbn [orb].
  unfold unpack_nH. rewrite !len_slice by lia.
  replace (96 + no + 2 * ni - (96 + no) =? 2 * ni) with true
    by (symmetry; apply Z.eqb_eq; lia).
  replace (96 + no + 2 * ni + 2 * np - (96 + no + 2 * ni) =? 2 * np) with true
    by (symmetry; apply Z.eqb_eq; lia).
  cbn [bind].
  destruct (parse_instruments_total data
              (fields_H (Z.to_nat ni) (slice data (96 + no) (96 + no + 2 * ni))) [])
    as [insts [Ei Hi]]; [apply fields_H_nonneg | constructor |].
  rewrite Ei. cbn [bind].
  destruct (parse_patterns_total data
              (fields_H (Z.to_nat np)
                 (slice data (96 + no + 2 * ni) (96 + no + 2 * ni + 2 * np))) [])
    as [pats [Ep Hp]]; [apply fields_H_nonneg | constructor |].
  rewrite Ep. cbn [bind].
  eexists. split; [reflexivity |].
  unfold parser_ok. cbn. repeat split; try assumption.
  apply Forall_map. apply Forall_forall. intros b _. apply byte_val_range.
Qed.

Lemma read_s3m_ok (data : bytes) (parser : S3MParser) :
  read_s3m data = OK parser -> parser_ok parser.
Proof.
  intros H. pose proof (read_s3m_cases data) as C.
  destruct (fatal data).
  - destruct C as [msg C]. congruence.
  - destruct C as [p [C Hok]]. congruence.
Qed.

(** C4: the parse fails, with one of the parser's own exceptions, exactly
    when the buffer is shorter than the 96-byte header, the counts at
    offset 28 cannot be decoded, or one of the order list, the instrument
    pointer table and the pattern pointer table ends past the buffer; on
    every other buffer it returns a module. *)
Theorem read_s3m_fails_exactly_when_fatal (data : bytes) :
  ((exists msg, read_s3m data = Raise (Exception msg)) <-> fatal data = true)
  /\ ((exists parser, read_s3m data = OK parser) <-> fatal data = false).
Proof.
  pose proof (read_s3m_cases data) as C.
  destruct (fatal data).
  - destruct C as [msg C]. repeat split; eauto; try discriminate.
    intros [p Hp]. congruence.
  - destruct C as [p [C _]]. repeat split; eauto; try discriminate.
    intros [msg Hm]. congruence.
Qed.

(** ** The length of the output *)

Ltac inv_bind H :=
  let a := fresh "a" in
  let E := fresh "E" in
  apply bind_ok in H; destruct H as [a [E H]].

Section RenderLength.

Variable to_pcm : Q -> Z.
Variable parser : S3MParser.

Lemma render_samples_length (n : nat) (states : list ChannelState)
    (out : list Z) (states' : list ChannelState) :
  render_samples to_pcm parser n states = OK (out, states') ->
  List.length out = n.
Proof.
  revert states out states'. induction n as [| n IH]; intros states out states' H;
    cbn [render_samples] in H.
  - inversion H. reflexivity.
  - inv_bind H. destruct a as [sample st1]. cbn beta iota zeta in H.
    inv_bind H. destruct a as [out1 st2]. cbn beta iota zeta in H.
    inversion H. subst. simpl. f_equal. eapply IH. eassumption.
Qed.

Lemma render_rows_length (row_samples : Z) (pattern : Pattern)
    (states : list ChannelState) (out : list Z) (states' : list ChannelState) :
  render_rows to_pcm parser row_samples pattern states = OK (out, states') ->
  List.length out = (List.length pattern * Z.to_nat row_samples)%nat.
Proof.
  revert states out states'.
  induction pattern as [| row rest IH]; intros states out states' H;
    cbn [render_rows] in H.
  - inversion H. reflexivity.
  - inv_bind H. inv_bind H. destruct a0 as [out1 st1]. cbn beta iota zeta in H.
    inv_bind H. destruct a0 as [out2 st2]. cbn beta iota zeta in H.
    inversion H. subst. rewrite length_app.
    apply render_samples_length in E0. apply IH in E1. simpl. lia.
Qed.

Lemma render_orders_length (row_samples : Z) (ords : list Z)
    (states : list ChannelState) (out : list Z) (states' : list ChannelState) :
  Forall pattern_ok (patterns parser) ->
  render_orders to_pcm parser row_samples ords states = OK (out, states') ->
  List.length out
  = (List.length (filter (fun order => (order <? len (patterns parser))%Z) ords)
     * 64 * Z.to_nat row_samples)%nat.
Proof.
  intros Hpat. revert states out states'.
  induction ords as [| order rest IH]; intros states out states' H;
    cbn [render_orders] in H.
  - inversion H. reflexivity.
  - cbn [filter]. rewrite Z.geb_leb in H.
    destruct (len (patterns parser) <=? order) eqn:G.
    + zbool. replace (order <? len (patterns parser)) with false
        by (symmetry; apply Z.ltb_ge; lia).
      eapply IH. eassumption.
    + zbool. replace (order <? len (patterns parser)) with true
        by (symmetry; apply Z.ltb_lt; lia).
      inv_bind H. inv_bind H. destruct a0 as [out1 st1]. cbn beta iota zeta in H.
      inv_bind H. destruct a0 as [out2 st2]. cbn beta iota zeta in H.
      inversion H. subst. rewrite length_app.
      apply render_rows_length in E0. apply IH in E1.
      apply py_index_In in E.
      rewrite Forall_forall in Hpat. destruct (Hpat _ E) as [H64 _].
      cbn [List.length]. lia.
Qed.

End RenderLength.

(** C5: the output of a parsed module has
    [N * 64 * speed * (sample_rate // (tempo * 4 // 60))] samples, [N] being
    the number of order entries below the number of parsed patterns; the
    other order entries add nothing. *)
Theorem render_length (data : bytes) (parser : S3MParser) (out : list Z) :
  read_s3m data = OK parser ->
  render parser = OK out ->
  len out = valid_orders parser * 64 * speed parser
            * (sample_rate parser / (tempo parser * 4 / 60)).
Proof.
  intros Hparse Hrender.
  destruct (read_s3m_ok data parser Hparse) as [_ [Hpat [_ [Hsr [_ [Htempo Hspeed]]]]]].
  unfold render, render_with in Hrender.
  rewrite Hsr, Htempo, Hspeed in *.
  change (125 * 4 / 60) with 8 in *. change (44100 / 8) with 5512 in *.
  cbn [Z.eqb bind] in Hrender.
  inv_bind Hrender. destruct a as [output st]. cbn beta iota zeta in Hrender.
  inversion Hrender. subst.
  apply render_orders_length in E; [| assumption].
  unfold valid_orders. unfold len at 1 2. rewrite E.
  change (Z.to_nat (6 * 5512)) with (Z.to_nat 33072). lia.
Qed.

(** ** The conversion to 8-bit samples *)

Lemma py_int_integer (x : Q) (z : Z) : (x == inject_Z z)%Q -> py_int x = z.
Proof.
  unfold Qeq, py_int, inject_Z. simpl. intros H.
  rewrite Z.mul_1_r in H. rewrite H. apply Z.quot_mul. lia.
Qed.

Lemma py_round_integer (x : Q) (z : Z) : (x == inject_Z z)%Q -> py_round x = z.
Proof.
  intros H. unfold py_round.
  assert (F : Qfloor x = z) by (rewrite H; apply Qfloor_Z).
  rewrite F.
  assert (L : (x - inject_Z z < 1 # 2)%Q).
  { rewrite H. unfold Qlt, Qminus, Qplus, Qopp, inject_Z. simpl. lia. }
  rewrite (proj1 (Qlt_alt _ _) L). reflexivity.
Qed.

Lemma clamp_max_min (x : Z) : Z.max (Z.min x 255) 0 = clamp x 0 255.
Proof.
  unfold clamp. destruct (x <? 0) eqn:A; [zbool; lia |].
  destruct (255 <? x) eqn:B; zbool; lia.
Qed.

(** The converted sample is a byte, so [bytes(output)] accepts it. *)
Lemma pcm_of_sum_range (sample : Q) : 0 <= pcm_of_sum sample <= 255.
Proof. unfold pcm_of_sum. lia. Qed.

(** On a sum of the form [k/64] the argument of [int] is the integer
    [2k + 128]: truncating it and rounding it give the same sample. *)
Lemma pcm_of_sum_round (bound : Z) (q : Q) :
  sum64 bound q -> pcm_of_sum q = pcm_round q.
Proof.
  intros [k [_ Hk]]. unfold pcm_of_sum, pcm_round.
  assert (H : (q * 128 + 128 == inject_Z (2 * k + 128))%Q).
  { rewrite Hk. unfold Qeq, Qplus, Qmult, inject_Z. cbn [Qnum Qden]. lia. }
  rewrite (py_int_integer _ _ H), (py_round_integer _ _ H).
  apply clamp_max_min.
Qed.

Lemma sum64_step (bound : Z) (sample vol : Q) (b : Z) :
  sum64 bound sample -> vol64 vol -> 0 <= b < 256 ->
  sum64 (bound + 32640) (sample + inject_Z (recenter b) * vol)%Q.
Proof.
  intros [k [Hk Es]] [v [Hv Ev]] Hb.
  exists (k + recenter b * v). split.
  - unfold recenter. nia.
  - rewrite Es, Ev. unfold Qeq, Qplus, Qmult, inject_Z. simpl. lia.
Qed.

Lemma sum64_weaken (b b' : Z) (q : Q) : b <= b' -> sum64 b q -> sum64 b' q.
Proof. intros Hb [k [Hk E]]. exists k. split; [lia | assumption]. Qed.

(** *** The channel states stay well formed *)

Lemma initial_state_ok : state_ok initial_state.
Proof.
  split; [| discriminate]. exists 0. split; [lia | reflexivity].
Qed.

Lemma init_channel_states_ok (parser : S3MParser) :
  Forall state_ok (init_channel_states parser).
Proof.
  apply Forall_forall. intros st H. apply repeat_spec in H. subst.
  apply initial_state_ok.
Qed.

Lemma nth_error_Forall {A : Type} (P : A -> Prop) (l : list A) (n : nat) (a : A) :
  Forall P l -> nth_error l n = Some a -> P a.
Proof.
  intros HF Hn. rewrite Forall_forall in HF. apply HF.
  eapply nth_error_In. eassumption.
Qed.

Lemma py_index_Forall {A : Type} (P : A -> Prop) (l : list A) (i : Z) (a : A) :
  Forall P l -> py_index l i = OK a -> P a.
Proof.
  intros HF Hi. rewrite Forall_forall in HF. apply HF.
  eapply py_index_In. eassumption.
Qed.

Lemma trigger_ok (parser : S3MParser) (states states' : list ChannelState)
    (ch : Z) (event : option Event) :
  Forall inst_ok (instruments parser) -> slot_ok event ->
  Forall state_ok states ->
  trigger parser states ch event = OK states' ->
  Forall state_ok states'.
Proof.
  intros Hinst Hslot Hst H. unfold trigger in H.
  destruct event as [event |]; [| inversion H; subst; assumption].
  destruct (ev_note event) as [note |]; [| inversion H; subst; assumption].
  destruct (note =? 254).
  - inv_bind H.
    eapply py_setitem_Forall; [exact H | exact Hst |].
    pose proof (py_index_Forall _ _ _ _ Hst E) as [Hv Hi].
    split; assumption.
  - destruct (ev_instrument event) as [k |]; [| inversion H; subst; assumption].
    destruct (k =? 0); [inversion H; subst; assumption |].
    destruct (k - 1 <? len (instruments parser)); [| inversion H; subst; assumption].
    inv_bind H. inv_bind H. inv_bind H. inv_bind H.
    eapply py_setitem_Forall; [exact H | exact Hst |].
    pose proof (py_index_Forall _ _ _ _ Hinst E) as Hok.
    split; cbn.
    + simpl in Hslot. destruct (ev_volume event) as [v |]; inversion E2; subst.
      * apply vol64_byte. assumption.
      * apply Hok.
    + intros inst Hi. inversion Hi. subst. assumption.
Qed.

Lemma trigger_row_ok (parser : S3MParser) (row : Row) :
  Forall inst_ok (instruments parser) -> Forall slot_ok row ->
  forall (states states' : list ChannelState) (ch : Z),
    Forall state_ok states ->
    trigger_row parser states ch row = OK states' ->
    Forall state_ok states'.
Proof.
  intros Hinst Hrow. induction Hrow as [| event rest Hev Hrest IH];
    intros states states' ch Hst H; cbn [trigger_row] in H.
  - inversion H. subst. assumption.
  - inv_bind H. eapply IH; [| exact H].
    eapply trigger_ok; eauto.
Qed.

Lemma mix_channel_ok (bound : Z) (sample sample' : Q) (st st' : ChannelState) :
  state_ok st -> sum64 bound sample ->
  mix_channel sample st = OK (sample', st') ->
  state_ok st' /\ sum64 (bound + 32640) sample'.
Proof.
  intros [Hv Hi] Hs H. unfold mix_channel in H.
  assert (Hkeep : state_ok st /\ sum64 (bound + 32640) sample)
    by (split; [split; assumption | eapply sum64_weaken; [| exact Hs]; lia]).
  destruct (playing st); [| inversion H; subst; exact Hkeep].
  destruct (instrument st) as [inst |] eqn:Ei; [| inversion H; subst; exact Hkeep].
  specialize (Hi inst eq_refl). destruct Hi as [Hiv [Hbytes Hlen]].
  inv_bind H.
  assert (Hplay : forall pos,
    (b <- py_index (inst_sample inst) pos ;;
     OK ((sample + inject_Z (recenter b) * volume st)%Q,
         mkState (sample_pos st + increment st)%float (increment st)
                 (volume st) true (Some inst))) = OK (sample', st') ->
    state_ok st' /\ sum64 (bound + 32640) sample').
  { intros pos Hp. inv_bind Hp. inversion Hp. subst. split.
    - split; cbn; [assumption |]. intros i Hi. inversion Hi. subst.
      repeat split; assumption.
    - apply sum64_step; [assumption | assumption |].
      eapply py_index_Forall in E0; [exact E0 | exact Hbytes]. }
  destruct (a >=? inst_length inst).
  - destruct (inst_loop_end inst >? inst_loop_begin inst).
    + eapply Hplay. exact H.
    + inversion H. subst. split.
      * split; cbn; [assumption |]. intros i Hi. inversion Hi. subst.
        repeat split; assumption.
      * eapply sum64_weaken; [| exact Hs]. lia.
  - eapply Hplay. exact H.
Qed.

Lemma mix_channels_ok (n : nat) :
  forall (bound : Z) (states states' : list ChannelState) (sample sample' : Q),
    Forall state_ok states -> sum64 bound sample ->
    mix_channels n states sample = OK (sample', states') ->
    Forall state_ok states' /\ sum64 (bound + Z.of_nat n * 32640) sample'.
Proof.
  induction n as [| n IH]; intros bound states states' sample sample' Hst Hs H;
    cbn [mix_channels] in H.
  - inversion H. subst. split; [assumption |].
    eapply sum64_weaken; [| exact Hs]. lia.
  - destruct states as [| st rest]; [discriminate |].
    inversion Hst; subst.
    inv_bind H. destruct a as [s1 st1]. cbn beta iota zeta in H.
    inv_bind H. destruct a as [s2 rest1]. cbn beta iota zeta in H.
    inversion H. subst.
    destruct (mix_channel_ok bound _ _ _ _ H2 Hs E) as [Hst1 Hs1].
    destruct (IH _ _ _ _ _ H3 Hs1 E0) as [Hrest Hs2].
    split; [constructor; assumption |].
    eapply sum64_weaken; [| exact Hs2]. lia.
Qed.

Lemma sum64_zero : sum64 0 0%Q.
Proof. exists 0. split; [lia | reflexivity]. Qed.

(** Every sum the renderer converts is [k/64] with [|k| <= 32 * 128 * 255],
    far below [2^53]: binary64 holds each partial sum exactly. *)
Lemma sum_bound (states states' : list ChannelState) (sample : Q) :
  Forall state_ok states ->
  mix_channels 32 states 0%Q = OK (sample, states') ->
  sum64 (32 * 128 * 255) sample.
Proof.
  intros Hst H.
  destruct (mix_channels_ok 32 0 _ _ _ _ Hst sum64_zero H) as [_ Hs].
  exact Hs.
Qed.

(** *** Rounding and truncating render the same bytes *)

Section RenderRound.

Variable parser : S3MParser.
Hypothesis Hinst : Forall inst_ok (instruments parser).
Hypothesis Hpat : Forall pattern_ok (patterns parser).

Lemma render_samples_ok (to_pcm : Q -> Z) (n : nat) :
  forall (states states' : list ChannelState) (out : list Z),
    Forall state_ok states ->
    render_samples to_pcm parser n states = OK (out, states') ->
    Forall state_ok states'.
Proof.
  induction n as [| n IH]; intros states states' out Hst H;
    cbn [render_samples] in H.
  - inversion H. subst. assumption.
  - inv_bind H. destruct a as [s st1]. cbn beta iota zeta in H.
    inv_bind H. destruct a as [out1 st2]. cbn beta iota zeta in H.
    inversion H. subst.
    destruct (mix_channels_ok _ 0 _ _ _ _ Hst sum64_zero E) as [Hst1 _].
    eapply IH; eassumption.
Qed.

Lemma render_samples_round (n : nat) :
  forall states : list ChannelState,
    Forall state_ok states ->
    render_samples pcm_round parser n states
    = render_samples pcm_of_sum parser n states.
Proof.
  induction n as [| n IH]; intros states Hst; cbn [render_samples]; [reflexivity |].
  destruct (mix_channels (Z.to_nat (channels parser)) states 0%Q)
    as [[s st1] | e] eqn:E; cbn [bind]; [| reflexivity].
  destruct (mix_channels_ok _ 0 _ _ _ _ Hst sum64_zero E) as [Hst1 Hs].
  rewrite (pcm_of_sum_round _ _ Hs), (IH st1 Hst1). reflexivity.
Qed.

Lemma render_rows_ok (to_pcm : Q -> Z) (row_samples : Z) (pattern : Pattern) :
  Forall row_ok pattern ->
  forall (states states' : list ChannelState) (out : list Z),
    Forall state_ok states ->
    render_rows to_pcm parser row_samples pattern states = OK (out, states') ->
    Forall state_ok states'.
Proof.
  intros Hrows. induction Hrows as [| row rest [_ Hrow] Hrest IH];
    intros states states' out Hst H; cbn [render_rows] in H.
  - inversion H. subst. assumption.
  - inv_bind H. inv_bind H. destruct a0 as [out1 st1]. cbn beta iota zeta in H.
    inv_bind H. destruct a0 as [out2 st2]. cbn beta iota zeta in H.
    inversion H. subst.
    eapply IH; [| exact E1].
    eapply render_samples_ok; [| exact E0].
    eapply trigger_row_ok; eauto.
Qed.

Lemma render_rows_round (row_samples : Z) (pattern : Pattern) :
  Forall row_ok pattern ->
  forall states : list ChannelState,
    Forall state_ok states ->
    render_rows pcm_round parser row_samples pattern states
    = render_rows pcm_of_sum parser row_samples pattern states.
Proof.
  intros Hrows. induction Hrows as [| row rest [_ Hrow] Hrest IH];
    intros states Hst; cbn [render_rows]; [reflexivity |].
  destruct (trigger_row parser states 0 row) as [st0 | e] eqn:E0; cbn [bind];
    [| reflexivity].
  assert (Hst0 : Forall state_ok st0) by (eapply trigger_row_ok; eauto).
  rewrite (render_samples_round _ _ Hst0).
  destruct (render_samples pcm_of_sum parser (Z.to_nat row_samples) st0)
    as [[out1 st1] | e] eqn:E1; cbn [bind]; [| reflexivity].
  rewrite IH; [reflexivity |].
  eapply render_samples_ok; eassumption.
Qed.

Lemma render_orders_round (row_samples : Z) (ords : list Z) :
  forall states : list ChannelState,
    Forall state_ok states ->
    render_orders pcm_round parser row_samples ords states
    = render_orders pcm_of_sum parser row_samples ords states.
Proof.
  induction ords as [| order rest IH]; intros states Hst; cbn [render_orders];
    [reflexivity |].
  destruct (order >=? len (patterns parser)); [apply IH; assumption |].
  destruct (py_index (patterns parser) order) as [pattern | e] eqn:E; cbn [bind];
    [| reflexivity].
  destruct (py_index_Forall _ _ _ _ Hpat E) as [_ Hrows].
  rewrite (render_rows_round _ _ Hrows _ Hst).
  destruct (render_rows pcm_of_sum parser row_samples pattern states)
    as [[out1 st1] | e] eqn:E1; cbn [bind]; [| reflexivity].
  rewrite IH; [reflexivity |].
  eapply render_rows_ok; eassumption.
Qed.

End RenderRound.

(** Rendering with the rounding conversion is rendering as the code does:
    the mixed sum of a parsed module is always a multiple of 1/64, so
    [sum * 128 + 128] is an integer, and truncation and rounding to nearest
    give the same byte. *)
Lemma render_with_round (data : bytes) (parser : S3MParser) :
  read_s3m data = OK parser ->
  render_with pcm_round parser = render parser.
Proof.
  intros Hparse.
  destruct (read_s3m_ok data parser Hparse) as [Hinst [Hpat _]].
  unfold render, render_with.
  destruct (tempo parser * 4 / 60 =? 0); cbn [bind]; [reflexivity |].
  rewrite (render_orders_round parser Hinst Hpat); [reflexivity |].
  apply init_channel_states_ok.
Qed.

(** *** The code's loops append what the specification appends *)

Lemma spec_render_samples_app (parser : S3MParser) (n : nat) :
  forall (states : list ChannelState) (output : list Z),
    spec_render_samples parser n states output
    = ('(out, states) <- render_samples pcm_round parser n states ;;
       OK (output ++ out, states)).
Proof.
  induction n as [| n IH]; intros states output;
    cbn [spec_render_samples render_samples bind].
  - rewrite app_nil_r. reflexivity.
  - destruct (mix_channels (Z.to_nat (channels parser)) states 0%Q)
      as [[sum st1] | e]; cbn [bind]; [| reflexivity].
    rewrite IH.
    destruct (render_samples pcm_round parser n st1) as [[out st2] | e]; cbn [bind];
      [| reflexivity].
    rewrite <- app_assoc. reflexivity.
Qed.

Lemma spec_render_rows_app (parser : S3MParser) (row_samples : Z) (pattern : Pattern) :
  forall (states : list ChannelState) (output : list Z),
    spec_render_rows parser row_samples pattern states output
    = ('(out, states) <- render_rows pcm_round parser row_samples pattern states ;;
       OK (output ++ out, states)).
Proof.
  induction pattern as [| row rest IH]; intros states output;
    cbn [spec_render_rows render_rows bind].
  - rewrite app_nil_r. reflexivity.
  - destruct (trigger_row parser states 0 row) as [st0 | e]; cbn [bind]; [| reflexivity].
    rewrite spec_render_samples_app.
    destruct (render_samples pcm_round parser (Z.to_nat row_samples) st0)
      as [[out1 st1] | e]; cbn [bind]; [| reflexivity].
    rewrite IH.
    destruct (render_rows pcm_round parser row_samples rest st1) as [[out2 st2] | e];
      cbn [bind]; [| reflexivity].
    rewrite app_assoc. reflexivity.
Qed.

Lemma spec_render_orders_app (parser : S3MParser) (row_samples : Z) (ords : list Z) :
  forall (states : list ChannelState) (output : list Z),
    spec_render_orders parser row_samples ords states output
    = ('(out, states) <- render_orders pcm_round parser row_samples ords states ;;
       OK (output ++ out, states)).
Proof.
  induction ords as [| order rest IH]; intros states output;
    cbn [spec_render_orders render_orders bind].
  - rewrite app_nil_r. reflexivity.
  - rewrite Z.geb_leb.
    destruct (len (patterns parser) <=? order); [apply IH |].
    destruct (py_index (patterns parser) order) as [pattern | e]; cbn [bind];
      [| reflexivity].
    rewrite spec_render_rows_app.
    destruct (render_rows pcm_round parser row_samples pattern states)
      as [[out1 st1] | e]; cbn [bind]; [| reflexivity].
    rewrite IH.
    destruct (render_orders pcm_round parser row_samples rest st1) as [[out2 st2] | e];
      cbn [bind]; [| reflexivity].
    rewrite app_assoc. reflexivity.
Qed.

Lemma spec_render_with (parser : S3MParser) :
  (tempo parser * 4 / 60 =? 0) = false ->
  spec_render parser = render_with pcm_round parser.
Proof.
  intros Ht. unfold spec_render, render_with. rewrite Ht. cbn [bind].
  rewrite spec_render_orders_app.
  destruct (render_orders pcm_round parser
              (speed parser * (sample_rate parser / (tempo parser * 4 / 60)))
              (orders parser) (init_channel_states parser)) as [[out st] | e];
    cbn [bind]; reflexivity.
Qed.

(** C2: on every parsed module the code renders what the specification's
    renderer renders: for every output sample the sum over the channels,
    converted by [clamp(round(sum * 128 + 128), 0, 255)] and appended to
    the output sequence; the same samples in the same order, and the same
    failure when there is one.  The code truncates with [int] where the
    claim rounds; on the sums of a parsed module the two agree. *)
Theorem render_rounds_to_nearest (data : bytes) (parser : S3MParser) :
  read_s3m data = OK parser ->
  render parser = spec_render parser.
Proof.
  intros Hparse.
  destruct (read_s3m_ok data parser Hparse) as [_ [_ [_ [_ [_ [Htempo _]]]]]].
  rewrite spec_render_with by (rewrite Htempo; reflexivity).
  symmetry. exact (render_with_round data parser Hparse).
Qed.

(** ** Notes and frequencies *)

(** The valid note bytes are the 192 positions of the scale. *)
Lemma pitch_range (n : Z) :
  0 <= n < 256 -> Z.land n 15 < 12 ->
  0 <= pitch n < 192 /\ note_of_pitch (pitch n) = n.
Proof.
  intros Hn Hs. unfold pitch, note_of_pitch in *.
  change 15 with (Z.ones 4) in *. rewrite Z.land_ones in * by lia.
  rewrite Z.shiftr_div_pow2 by lia. change (2 ^ 4) with 16 in *.
  pose proof (Z.mod_pos_bound n 16 ltac:(lia)) as Hm.
  pose proof (Z.div_mod n 16 ltac:(lia)) as Hd.
  assert (Ho : 0 <= n / 16 < 16)
    by (split; [apply Z.div_pos; lia | apply Z.div_lt_upper_bound; lia]).
  rewrite Z.div_add_l by lia. rewrite (Z.div_small (n mod 16) 12) by lia.
  rewrite Z.add_comm with (n := n / 16 * 12). rewrite Z.mod_add by lia.
  rewrite (Z.mod_small (n mod 16) 12) by lia.
  lia.
Qed.

(** [scaled] lists what [note_to_freq] returns along the scale. *)
Lemma note_to_freq_scaled (c : Z) (k : nat) :
  (k < 192)%nat ->
  note_to_freq (Some (note_of_pitch (Z.of_nat k))) c = nth k (scaled c) 0%float.
Proof.
  intros Hk. unfold note_to_freq, scaled.
  generalize (float_of_int c) (float_of_int 8363). intros fc f0.
  do 192 (destruct k as [| k]; [vm_compute; reflexivity |]).
  lia.
Qed.

Lemma note_to_freq_zero (c2spd : Z) :
  note_to_freq None c2spd = 0%float
  /\ note_to_freq (Some 254) c2spd = 0%float
  /\ forall n, 12 <= Z.land n 15 -> note_to_freq (Some n) c2spd = 0%float.
Proof.
  repeat split. intros n Hn. unfold note_to_freq.
  destruct (n =? 254); [reflexivity |].
  replace (Z.land n 15 >=? len note_table) with true; [reflexivity |].
  symmetry. rewrite Z.geb_leb. apply Z.leb_le. exact Hn.
Qed.

(** * Binary64 rounding *)

(** *** The number of binary digits *)

Lemma digits2_pos_size (p : positive) : digits2_pos p = Pos.size p.
Proof. induction p as [p IH | p IH |]; cbn; rewrite ?IH; reflexivity. Qed.

Lemma digits2_pos_bounds (p : positive) :
  2 ^ (Z.pos (digits2_pos p) - 1) <= Z.pos p < 2 ^ Z.pos (digits2_pos p).
Proof.
  rewrite digits2_pos_size.
  pose proof (Pos.size_gt p) as Hgt. pose proof (Pos.size_le p) as Hle.
  apply Pos2Z.pos_lt_pos in Hgt. apply Pos2Z.pos_le_pos in Hle.
  rewrite Pos2Z.inj_pow in Hgt, Hle. change (Z.pos p~0) with (2 * Z.pos p) in Hle.
  split; [| exact Hgt].
  replace (Z.pos (Pos.size p)) with (1 + (Z.pos (Pos.size p) - 1)) in Hle by lia.
  rewrite Z.pow_add_r in Hle by lia. change (2 ^ 1) with 2 in Hle. lia.
Qed.

Lemma Zdigits2_unique (m d : Z) :
  2 ^ (d - 1) <= m < 2 ^ d -> 1 <= d -> Zdigits2 m = d.
Proof.
  intros [Hlo Hhi] Hd.
  assert (Hm : 0 < m) by (pose proof (Z.pow_pos_nonneg 2 (d - 1)); lia).
  destruct m as [| p | p]; try lia. cbn [Zdigits2].
  destruct (digits2_pos_bounds p) as [Plo Phi].
  set (s := Z.pos (digits2_pos p)) in *.
  assert (s - 1 < d) by (apply (Z.pow_lt_mono_r_iff 2); lia).
  assert (d - 1 < s) by (apply (Z.pow_lt_mono_r_iff 2); lia).
  lia.
Qed.

(** *** Shifting right *)

Lemma shr_1_m (mrs : shr_record) : shr_m (shr_1 mrs) = Z.div2 (shr_m mrs) \/ shr_m mrs < 0.
Proof.
  destruct mrs as [m r s]. destruct m as [| p | p]; [left; reflexivity | | right; cbn; lia].
  left. destruct p; reflexivity.
Qed.

Lemma shr_1_div (mrs : shr_record) :
  0 <= shr_m mrs -> shr_m (shr_1 mrs) = shr_m mrs / 2.
Proof.
  intros H. destruct (shr_1_m mrs) as [E | E]; [| lia].
  rewrite E. apply Z.div2_div.
Qed.

Lemma iter_shr_1_div (p : positive) :
  forall mrs, 0 <= shr_m mrs ->
  shr_m (iter_pos shr_1 p mrs) = shr_m mrs / 2 ^ Z.pos p.
Proof.
  induction p as [p IH | p IH |]; intros mrs H; cbn [iter_pos].
  - assert (H1 : 0 <= shr_m (shr_1 mrs))
      by (rewrite shr_1_div by exact H; apply Z.div_pos; lia).
    assert (H2 : 0 <= shr_m (iter_pos shr_1 p (shr_1 mrs)))
      by (rewrite IH by exact H1; apply Z.div_pos; [lia | apply Z.pow_pos_nonneg; lia]).
    rewrite IH by exact H2. rewrite IH by exact H1. rewrite shr_1_div by exact H.
    rewrite !Z.div_div by (try apply Z.pow_pos_nonneg; lia).
    f_equal. replace (Z.pos p~1) with (1 + Z.pos p + Z.pos p) by lia.
    rewrite !Z.pow_add_r by lia. change (2 ^ 1) with 2. ring.
  - assert (H2 : 0 <= shr_m (iter_pos shr_1 p mrs))
      by (rewrite IH by exact H; apply Z.div_pos; [lia | apply Z.pow_pos_nonneg; lia]).
    rewrite IH by exact H2. rewrite IH by exact H.
    rewrite !Z.div_div by (try apply Z.pow_pos_nonneg; lia).
    f_equal. replace (Z.pos p~0) with (Z.pos p + Z.pos p) by lia.
    rewrite !Z.pow_add_r by lia. ring.
  - rewrite shr_1_div by exact H. reflexivity.
Qed.

Lemma shr_m_of_loc (m : Z) (l : location) : shr_m (shr_record_of_loc m l) = m.
Proof. destruct l as [| c]; [reflexivity |]. destruct c; reflexivity. Qed.

(** [shr] by [n >= 0] places divides the mantissa by [2^n]. *)
Lemma shr_div (mrs : shr_record) (e n : Z) :
  0 <= shr_m mrs -> 0 <= n ->
  shr_m (fst (shr mrs e n)) = shr_m mrs / 2 ^ n /\ snd (shr mrs e n) = e + n.
Proof.
  intros Hm Hn. destruct n as [| p | p]; [| | lia]; cbn [shr fst snd].
  - rewrite Z.div_1_r. split; [reflexivity | lia].
  - split; [apply iter_shr_1_div; exact Hm | reflexivity].
Qed.

Lemma round_nearest_even_cases (m : Z) (l : location) :
  round_nearest_even m l = m \/ round_nearest_even m l = m + 1.
Proof.
  destruct l as [| c]; [left; reflexivity |].
  destruct c; cbn; [destruct (Z.even m) | |]; auto.
Qed.

(** *** Rounding a mantissa of 53 digits or more in the normal range

    The result keeps 53 digits; it lies within two units in the last
    place of the value it rounds. *)
Lemma binary_round_aux_normal (m e d : Z) (l : location) :
  2 ^ (d - 1) <= m < 2 ^ d -> 53 <= d -> -1074 <= e + d - 53 ->
  exists m3 e3,
    2 ^ 52 <= m3 < 2 ^ 53
    /\ e + d - 53 <= e3 <= e + d - 52
    /\ (m3 - 1) * 2 ^ (e3 - e) <= m < (m3 + 2) * 2 ^ (e3 - e)
    /\ binary_round_aux prec emax false m e l
       = if e3 <=? 971 then S754_finite false (Z.to_pos m3) e3 else S754_infinity false.
Proof.
  intros Hm Hd He.
  assert (Hdig : Zdigits2 m = d) by (apply Zdigits2_unique; [exact Hm | lia]).
  assert (Hpos : 0 < m) by (pose proof (Z.pow_pos_nonneg 2 (d - 1)); lia).
  unfold binary_round_aux, shr_fexp. rewrite Hdig.
  assert (Hfexp : fexp prec emax (d + e) = d + e - 53)
    by (unfold fexp, emin, prec, emax; lia).
  rewrite Hfexp. replace (d + e - 53 - e) with (d - 53) by lia.
  set (n := d - 53) in *.
  destruct (shr_div (shr_record_of_loc m l) e n) as [Hm1 He1];
    [rewrite shr_m_of_loc; lia | lia |].
  rewrite shr_m_of_loc in Hm1.
  destruct (shr (shr_record_of_loc m l) e n) as [mrs1 e1]. cbn [fst snd] in Hm1, He1.
  set (m1 := shr_m mrs1) in *.
  assert (Hpow : 0 < 2 ^ n) by (apply Z.pow_pos_nonneg; lia).
  assert (Hsplit : 2 ^ d = 2 ^ 53 * 2 ^ n)
    by (rewrite <- Z.pow_add_r by lia; f_equal; lia).
  assert (Hsplit' : 2 ^ (d - 1) = 2 ^ 52 * 2 ^ n)
    by (rewrite <- Z.pow_add_r by lia; f_equal; lia).
  assert (Hm1r : 2 ^ 52 <= m1 < 2 ^ 53).
  { rewrite Hm1. split.
    - apply Z.div_le_lower_bound; lia.
    - apply Z.div_lt_upper_bound; lia. }
  assert (Hm1b : m1 * 2 ^ n <= m < (m1 + 1) * 2 ^ n).
  { rewrite Hm1. pose proof (Z.mul_div_le m (2 ^ n) Hpow).
    pose proof (Z.mul_succ_div_gt m (2 ^ n) Hpow). lia. }
  set (m2 := round_nearest_even m1 (loc_of_shr_record mrs1)).
  assert (Hm2 : m2 = m1 \/ m2 = m1 + 1) by apply round_nearest_even_cases.
  destruct (Z.eq_dec m2 (2 ^ 53)) as [Htop | Hntop].
  - (* the mantissa rounded up to 2^53: one more shift *)
    assert (Hdig2 : Zdigits2 m2 = 54) by (apply Zdigits2_unique; [rewrite Htop; cbn; lia | lia]).
    rewrite Hdig2.
    assert (Hfexp2 : fexp prec emax (54 + e1) = e1 + 1)
      by (unfold fexp, emin, prec, emax; lia).
    rewrite Hfexp2. replace (e1 + 1 - e1) with 1 by lia.
    rewrite Htop. cbn [shr_record_of_loc shr iter_pos shr_1]. 
    exists (2 ^ 52), (e1 + 1).
    split; [cbn; lia |]. split; [lia |]. split.
    + replace (e1 + 1 - e) with (1 + n) by lia. rewrite Z.pow_add_r by lia.
      change (2 ^ 1) with 2. assert (m1 = 2 ^ 53 - 1) by lia. nia.
    + reflexivity.
  - assert (Hm2r : 2 ^ 52 <= m2 < 2 ^ 53) by lia.
    assert (Hdig2 : Zdigits2 m2 = 53) by (apply Zdigits2_unique; [exact Hm2r | lia]).
    rewrite Hdig2.
    assert (Hfexp2 : fexp prec emax (53 + e1) = e1)
      by (unfold fexp, emin, prec, emax; lia).
    rewrite Hfexp2. rewrite Z.sub_diag. cbn [shr shr_record_of_loc shr_m].
    exists m2, e1.
    split; [exact Hm2r |]. split; [lia |]. split.
    + replace (e1 - e) with n by lia. nia.
    + destruct m2 as [| p2 | p2]; try (cbn in Hm2r; lia). reflexivity.
Qed.

(** *** Values *)

Section Values.

Open Scope Q_scope.

Lemma F2Q_shift (m e k : Z) : (0 <= k)%Z -> F2Q m (e + k) == F2Q (m * 2 ^ k) e.
Proof.
  intros Hk. unfold F2Q. rewrite Qpower_plus by discriminate.
  rewrite inject_Z_mult. rewrite (Zpower_Qpower 2 k Hk).
  change (inject_Z 2) with 2%Q. ring.
Qed.

Lemma F2Q_le (m m' e : Z) : (m <= m')%Z -> F2Q m e <= F2Q m' e.
Proof.
  intros H. unfold F2Q. apply Qmult_le_compat_r.
  - rewrite <- Zle_Qle. exact H.
  - apply Qlt_le_weak, Qpower_0_lt. reflexivity.
Qed.

Lemma F2Q_lt (m m' e : Z) : (m < m')%Z -> F2Q m e < F2Q m' e.
Proof.
  intros H. unfold F2Q. apply Qmult_lt_compat_r.
  - apply Qpower_0_lt. reflexivity.
  - rewrite <- Zlt_Qlt. exact H.
Qed.

Lemma F2Q_mul (a e b f : Z) : F2Q a e * F2Q b f == F2Q (a * b) (e + f).
Proof.
  unfold F2Q. rewrite Qpower_plus by discriminate. rewrite inject_Z_mult. ring.
Qed.

Lemma F2Q_pos (m e : Z) : (0 < m)%Z -> 0 < F2Q m e.
Proof.
  intros H. unfold F2Q. apply Qmult_lt_0_compat.
  - change 0%Q with (inject_Z 0). rewrite <- Zlt_Qlt. exact H.
  - apply Qpower_0_lt. reflexivity.
Qed.

(** One unit in the last place of a 53-digit mantissa is at most
    [2^-52] of the value. *)
Lemma F2Q_ulp (m e j : Z) :
  (2 ^ 52 <= m)%Z -> (0 <= j <= 4)%Z ->
  F2Q m e * (1 - (1 # 1000000000)) <= F2Q (m - j) e
  /\ F2Q (m + j) e <= F2Q m e * (1 + (1 # 1000000000)).
Proof.
  intros Hm Hj. unfold F2Q.
  assert (Hp : 0 < 2 ^ e) by (apply Qpower_0_lt; reflexivity).
  assert (H1 : inject_Z m * (1 - (1 # 1000000000)) <= inject_Z (m - j)).
  { unfold Qle, Qminus, Qplus, Qmult, Qopp, inject_Z. cbn [Qnum Qden]. cbn in Hm. lia. }
  assert (H2 : inject_Z (m + j) <= inject_Z m * (1 + (1 # 1000000000))).
  { unfold Qle, Qminus, Qplus, Qmult, Qopp, inject_Z. cbn [Qnum Qden]. cbn in Hm. lia. }
  split.
  - setoid_replace (inject_Z m * 2 ^ e * (1 - (1 # 1000000000)))
      with (inject_Z m * (1 - (1 # 1000000000)) * 2 ^ e) by ring.
    apply Qmult_le_compat_r; [exact H1 | apply Qlt_le_weak, Hp].
  - setoid_replace (inject_Z m * 2 ^ e * (1 + (1 # 1000000000)))
      with (inject_Z m * (1 + (1 # 1000000000)) * 2 ^ e) by ring.
    apply Qmult_le_compat_r; [exact H2 | apply Qlt_le_weak, Hp].
Qed.

(** Among 53-digit mantissas the order of the values is the order of the
    floats. *)
Lemma SFltb_of_values (m1 m2 : positive) (e1 e2 : Z) :
  (2 ^ 52 <= Z.pos m1 < 2 ^ 53)%Z -> (2 ^ 52 <= Z.pos m2 < 2 ^ 53)%Z ->
  F2Q (Z.pos m1) e1 < F2Q (Z.pos m2) e2 ->
  SFltb (S754_finite false m1 e1) (S754_finite false m2 e2) = true.
Proof.
  intros H1 H2 Hlt. unfold SFltb, SFcompare.
  destruct (Z.compare_spec e1 e2) as [-> | Hl | Hg]; [| reflexivity |].
  - change (Pos.compare_cont Eq m1 m2) with (Pos.compare m1 m2).
    destruct (Pos.compare_spec m1 m2) as [-> | L | G]; [| reflexivity |].
    + exfalso. apply (Qlt_irrefl _ Hlt).
    + exfalso. apply (Qlt_irrefl (F2Q (Z.pos m1) e2)).
      eapply Qlt_trans; [exact Hlt |]. apply F2Q_lt. lia.
  - exfalso. apply (Qlt_irrefl (F2Q (Z.pos m1) e1)).
    eapply Qlt_le_trans; [exact Hlt |].
    replace e1 with (e2 + (e1 - e2))%Z by lia.
    rewrite (F2Q_shift (Z.pos m1) e2 (e1 - e2)) by lia.
    apply F2Q_le.
    assert (2 ^ 1 <= 2 ^ (e1 - e2))%Z by (apply Z.pow_le_mono_r; lia).
    change (2 ^ 1)%Z with 2%Z in *. cbn in H1, H2. nia.
Qed.

(** *** Products and quotients of normal numbers *)

Lemma SFmul_normal (mx my : positive) (ex ey : Z) :
  (2 ^ 52 <= Z.pos mx < 2 ^ 53)%Z -> (2 ^ 52 <= Z.pos my < 2 ^ 53)%Z ->
  (-1126 <= ex + ey)%Z ->
  exists m3 e3,
    (2 ^ 52 <= m3 < 2 ^ 53)%Z
    /\ (ex + ey + 52 <= e3)%Z
    /\ F2Q (m3 - 1) e3 <= F2Q (Z.pos mx) ex * F2Q (Z.pos my) ey
    /\ F2Q (Z.pos mx) ex * F2Q (Z.pos my) ey <= F2Q (m3 + 2) e3
    /\ SFmul prec emax (S754_finite false mx ex) (S754_finite false my ey)
       = if (e3 <=? 971)%Z then S754_finite false (Z.to_pos m3) e3
         else S754_infinity false.
Proof.
  intros Hx Hy He. cbn [SFmul xorb].
  assert (Hm : (2 ^ 104 <= Z.pos (mx * my) < 2 ^ 106)%Z).
  { rewrite Pos2Z.inj_mul. cbn in Hx, Hy |- *. nia. }
  assert (Hd : exists d, (105 <= d <= 106)%Z
                         /\ (2 ^ (d - 1) <= Z.pos (mx * my) < 2 ^ d)%Z).
  { destruct (Z.lt_ge_cases (Z.pos (mx * my)) (2 ^ 105)) as [L | G].
    - exists 105%Z. split; [lia |]. change (105 - 1)%Z with 104%Z. lia.
    - exists 106%Z. split; [lia |]. change (106 - 1)%Z with 105%Z. lia. }
  destruct Hd as [d [Hdr Hdm]].
  destruct (binary_round_aux_normal (Z.pos (mx * my)) (ex + ey) d loc_Exact Hdm)
    as [m3 [e3 [Hm3 [He3 [Hb Hr]]]]]; [lia | lia |].
  exists m3, e3. split; [exact Hm3 |]. split; [lia |].
  assert (E : forall a, F2Q a e3 == F2Q (a * 2 ^ (e3 - (ex + ey))) (ex + ey)).
  { intros a. rewrite <- F2Q_shift by lia.
    replace (ex + ey + (e3 - (ex + ey)))%Z with e3 by lia. reflexivity. }
  rewrite Pos2Z.inj_mul in Hb.
  split; [rewrite F2Q_mul, E; apply F2Q_le; lia |].
  split; [rewrite F2Q_mul, E; apply F2Q_le; lia | exact Hr].
Qed.

Lemma SFdiv_normal (mx my : positive) (ex ey : Z) :
  (2 ^ 52 <= Z.pos mx < 2 ^ 53)%Z -> (2 ^ 52 <= Z.pos my < 2 ^ 53)%Z ->
  (-1074 <= ex - ey - 53)%Z ->
  exists m3 e3,
    (2 ^ 52 <= m3 < 2 ^ 53)%Z
    /\ F2Q (m3 - 1) e3 * F2Q (Z.pos my) ey <= F2Q (Z.pos mx) ex
    /\ F2Q (Z.pos mx) ex <= F2Q (m3 + 3) e3 * F2Q (Z.pos my) ey
    /\ SFdiv prec emax (S754_finite false mx ex) (S754_finite false my ey)
       = if (e3 <=? 971)%Z then S754_finite false (Z.to_pos m3) e3
         else S754_infinity false.
Proof.
  intros Hx Hy He. cbn [SFdiv xorb]. unfold SFdiv_core_binary.
  rewrite (Zdigits2_unique (Z.pos mx) 53) by (change (53 - 1)%Z with 52%Z; lia).
  rewrite (Zdigits2_unique (Z.pos my) 53) by (change (53 - 1)%Z with 52%Z; lia).
  assert (He' : Z.min (fexp prec emax (53 + ex - (53 + ey))) (ex - ey) = (ex - ey - 53)%Z)
    by (unfold fexp, emin, prec, emax; lia).
  rewrite He'. replace (ex - ey - (ex - ey - 53))%Z with 53%Z by lia.
  rewrite Z.shiftl_mul_pow2 by lia.
  set (m' := (Z.pos mx * 2 ^ 53)%Z).
  assert (Hq : Z.div_eucl m' (Z.pos my) = (m' / Z.pos my, m' mod Z.pos my)%Z)
    by (unfold Z.div, Z.modulo; destruct (Z.div_eucl m' (Z.pos my)); reflexivity).
  rewrite Hq. set (q := (m' / Z.pos my)%Z).
  assert (Hqb : (q * Z.pos my <= m' < (q + 1) * Z.pos my)%Z).
  { unfold q. pose proof (Z.mul_div_le m' (Z.pos my) ltac:(lia)).
    pose proof (Z.mul_succ_div_gt m' (Z.pos my) ltac:(lia)). lia. }
  assert (Hqr : (2 ^ 52 <= q < 2 ^ 54)%Z).
  { unfold q, m'. split.
    - apply Z.div_le_lower_bound; [lia |]. cbn in Hx, Hy |- *. nia.
    - apply Z.div_lt_upper_bound; [lia |]. cbn in Hx, Hy |- *. nia. }
  assert (Hd : exists d, (53 <= d <= 54)%Z /\ (2 ^ (d - 1) <= q < 2 ^ d)%Z).
  { destruct (Z.lt_ge_cases q (2 ^ 53)) as [L | G].
    - exists 53%Z. split; [lia |]. change (53 - 1)%Z with 52%Z. lia.
    - exists 54%Z. split; [lia |]. change (54 - 1)%Z with 53%Z. lia. }
  destruct Hd as [d [Hdr Hdm]].
  destruct (binary_round_aux_normal q (ex - ey - 53) d
              (new_location (Z.pos my) (m' mod Z.pos my)) Hdm)
    as [m3 [e3 [Hm3 [He3 [Hb Hr]]]]]; [lia | lia |].
  exists m3, e3. split; [exact Hm3 |].
  set (k := (e3 - (ex - ey - 53))%Z) in *.
  assert (Hk : (0 <= k)%Z) by (unfold k; lia).
  assert (Hpk : (1 <= 2 ^ k)%Z) by (pose proof (Z.pow_pos_nonneg 2 k); lia).
  assert (E : forall a, F2Q a e3 * F2Q (Z.pos my) ey
                        == F2Q (a * Z.pos my * 2 ^ k) (ex - 53)).
  { intros a. rewrite F2Q_mul. rewrite <- F2Q_shift by lia.
    replace (ex - 53 + k)%Z with (e3 + ey)%Z by (unfold k; lia). reflexivity. }
  assert (E' : F2Q (Z.pos mx) ex == F2Q m' (ex - 53)).
  { unfold m'. rewrite <- F2Q_shift by lia.
    replace (ex - 53 + 53)%Z with ex by lia. reflexivity. }
  split; [rewrite E, E'; apply F2Q_le; nia |].
  split; [rewrite E, E'; apply F2Q_le; nia | exact Hr].
Qed.

End Values.

(** *** Integers as floats *)

Lemma iter_xO (q : positive) :
  forall p, Z.pos (Pos.iter xO p q) = Z.pos p * 2 ^ Z.pos q.
Proof.
  induction q as [| q IH] using Pos.peano_ind; intros p.
  - cbn [Pos.iter]. change (2 ^ 1) with 2. lia.
  - rewrite Pos.iter_succ. rewrite Pos2Z.inj_xO, IH, Pos2Z.inj_succ.
    rewrite Z.pow_succ_r by lia. ring.
Qed.

(** A positive integer converts to a positive float with a 53-digit
    mantissa, at least 1, or to plus infinity. *)
Lemma binary_normalize_pos (c : Z) :
  1 <= c ->
  exists mc ec,
    2 ^ 52 <= Z.pos mc < 2 ^ 53 /\ -52 <= ec
    /\ binary_normalize prec emax c 0 false
       = if ec <=? 971 then S754_finite false mc ec else S754_infinity false.
Proof.
  intros Hc. destruct c as [| p | p]; try lia. cbn [binary_normalize].
  unfold binary_round, shl_align.
  destruct (digits2_pos_bounds p) as [Plo Phi].
  set (d := Z.pos (digits2_pos p)) in *.
  assert (Hd : 1 <= d) by (unfold d; lia).
  assert (Hfexp : fexp prec emax (d + 0) = d - 53)
    by (unfold fexp, emin, prec, emax; lia).
  rewrite Hfexp.
  destruct (d - 53 - 0) as [| z | q] eqn:Ez.
  - destruct (binary_round_aux_normal (Z.pos p) 0 d loc_Exact) as [m3 [e3 [Hm [He [_ Hr]]]]];
      [lia | lia | lia |].
    exists (Z.to_pos m3), e3. rewrite Z2Pos.id by lia.
    split; [exact Hm |]. split; [lia | exact Hr].
  - destruct (binary_round_aux_normal (Z.pos p) 0 d loc_Exact) as [m3 [e3 [Hm [He [_ Hr]]]]];
      [lia | lia | lia |].
    exists (Z.to_pos m3), e3. rewrite Z2Pos.id by lia.
    split; [exact Hm |]. split; [lia | exact Hr].
  - assert (Hq : Z.pos q = 53 - d) by lia.
    assert (Hmz : 2 ^ (53 - 1) <= Z.pos (Pos.iter xO p q) < 2 ^ 53).
    { rewrite iter_xO, Hq.
      assert (E1 : 2 ^ (53 - 1) = 2 ^ (d - 1) * 2 ^ (53 - d))
        by (rewrite <- Z.pow_add_r by lia; f_equal; lia).
      assert (E2 : 2 ^ 53 = 2 ^ d * 2 ^ (53 - d))
        by (rewrite <- Z.pow_add_r by lia; f_equal; lia).
      assert (0 < 2 ^ (53 - d)) by (apply Z.pow_pos_nonneg; lia).
      rewrite E1, E2. nia. }
    destruct (binary_round_aux_normal (Z.pos (Pos.iter xO p q)) (d - 53) 53 loc_Exact Hmz)
      as [m3 [e3 [Hm [He [_ Hr]]]]]; [lia | lia |].
    exists (Z.to_pos m3), e3. rewrite Z2Pos.id by lia.
    split; [exact Hm |]. split; [lia | exact Hr].
Qed.

Lemma float_of_int_pos (c : Z) :
  1 <= c ->
  exists mc ec,
    2 ^ 52 <= Z.pos mc < 2 ^ 53 /\ -52 <= ec
    /\ Prim2SF (float_of_int c)
       = if ec <=? 971 then S754_finite false mc ec else S754_infinity false.
Proof.
  intros Hc. destruct (binary_normalize_pos c Hc) as [mc [ec [Hm [He Hr]]]].
  exists mc, ec. split; [exact Hm |]. split; [exact He |].
  unfold float_of_int. rewrite Prim2SF_SF2Prim; [exact Hr |].
  rewrite Hr. destruct (ec <=? 971) eqn:B; [| reflexivity].
  cbn [valid_binary]. unfold bounded, canonical_mantissa.
  pose proof (Zdigits2_unique (Z.pos mc) 53 Hm ltac:(lia)) as Hdig.
  cbn [Zdigits2] in Hdig. rewrite Hdig.
  apply andb_true_intro. split.
  - apply Z.eqb_eq. unfold fexp, emin, prec, emax. lia.
  - apply Z.leb_le in B. apply Z.leb_le. unfold prec, emax. lia.
Qed.

(** *** A frequency scaled and divided: [base * fc / f0] *)

Section Scaling.

Open Scope Q_scope.

Variables (mc m0 : positive) (ec e0 : Z).
Hypothesis Hmc : (2 ^ 52 <= Z.pos mc < 2 ^ 53)%Z.
Hypothesis Hm0 : (2 ^ 52 <= Z.pos m0 < 2 ^ 53)%Z.
Hypothesis Hec : (-52 <= ec)%Z.
Hypothesis He0 : (-100 <= e0 <= 100)%Z.

(** The result is plus infinity, or a normal number within [3 eps] of the
    exact quotient. *)
Lemma scale_cases (m : positive) (e : Z) :
  (2 ^ 52 <= Z.pos m < 2 ^ 53)%Z -> (-60 <= e <= 0)%Z ->
  scale mc ec m0 e0 (S754_finite false m e) = S754_infinity false
  \/ exists mf ef,
       (2 ^ 52 <= Z.pos mf < 2 ^ 53)%Z
       /\ scale mc ec m0 e0 (S754_finite false m e) = S754_finite false mf ef
       /\ F2Q (Z.pos mf) ef * F2Q (Z.pos m0) e0 * (1 - 3 * eps)
          <= F2Q (Z.pos m) e * F2Q (Z.pos mc) ec
       /\ F2Q (Z.pos m) e * F2Q (Z.pos mc) ec
          <= F2Q (Z.pos mf) ef * F2Q (Z.pos m0) e0 * (1 + 3 * eps).
Proof.
  intros Hm He. unfold scale.
  destruct (SFmul_normal m mc e ec Hm Hmc ltac:(lia))
    as [ma [ea [Hma [Hea [A1 [A2 Ha]]]]]].
  rewrite Ha. destruct (ea <=? 971)%Z; [| left; reflexivity].
  destruct (SFdiv_normal (Z.to_pos ma) m0 ea e0) as [mf [ef [Hmf [D1 [D2 Hf]]]]];
    [rewrite Z2Pos.id by lia; exact Hma | exact Hm0 | lia |].
  rewrite Z2Pos.id in D1, D2 by lia.
  rewrite Hf. destruct (ef <=? 971)%Z; [| left; reflexivity].
  right. exists (Z.to_pos mf), ef. rewrite Z2Pos.id by lia.
  split; [exact Hmf |]. split; [reflexivity |].
  destruct (F2Q_ulp ma ea 1 ltac:(lia) ltac:(lia)) as [Ua1 _].
  destruct (F2Q_ulp ma ea 2 ltac:(lia) ltac:(lia)) as [_ Ua2].
  destruct (F2Q_ulp mf ef 1 ltac:(lia) ltac:(lia)) as [Uf1 _].
  destruct (F2Q_ulp mf ef 3 ltac:(lia) ltac:(lia)) as [_ Uf2].
  assert (Dpos : 0 < F2Q (Z.pos m0) e0) by (apply F2Q_pos; lia).
  assert (Fpos : 0 < F2Q mf ef) by (apply F2Q_pos; cbn in Hmf; lia).
  apply (Qmult_le_compat_r _ _ (F2Q (Z.pos m0) e0)) in Uf1; [| lra].
  apply (Qmult_le_compat_r _ _ (F2Q (Z.pos m0) e0)) in Uf2; [| lra].
  assert (Ppos : 0 < F2Q mf ef * F2Q (Z.pos m0) e0)
    by (apply Qmult_lt_0_compat; assumption).
  set (P := F2Q mf ef * F2Q (Z.pos m0) e0) in *.
  set (XC := F2Q (Z.pos m) e * F2Q (Z.pos mc) ec) in *.
  set (Va := F2Q ma ea) in *.
  assert (Uf1' : P * (1 - (1 # 1000000000)) <= Va).
  { eapply Qle_trans; [| exact D1]. eapply Qle_trans; [| exact Uf1].
    unfold P. apply Qle_lteq. right. ring. }
  assert (Uf2' : Va <= P * (1 + (1 # 1000000000))).
  { eapply Qle_trans; [exact D2 |]. eapply Qle_trans; [exact Uf2 |].
    unfold P. apply Qle_lteq. right. ring. }
  unfold eps. split; lra.
Qed.

(** A base one per cent above another one scales to a greater frequency,
    unless the smaller one has reached infinity. *)
Lemma scale_order (m1 m2 : positive) (e1 e2 : Z) :
  (2 ^ 52 <= Z.pos m1 < 2 ^ 53)%Z -> (-60 <= e1 <= 0)%Z ->
  (2 ^ 52 <= Z.pos m2 < 2 ^ 53)%Z -> (-60 <= e2 <= 0)%Z ->
  101 * F2Q (Z.pos m1) e1 <= 100 * F2Q (Z.pos m2) e2 ->
  SFltb (scale mc ec m0 e0 (S754_finite false m1 e1)) (S754_infinity false) = true ->
  SFltb (scale mc ec m0 e0 (S754_finite false m1 e1))
        (scale mc ec m0 e0 (S754_finite false m2 e2)) = true.
Proof.
  intros H1 E1 H2 E2 Hgap Hfin.
  destruct (scale_cases m1 e1 H1 E1) as [I1 | [f1 [g1 [Hf1 [R1 [L1 _]]]]]].
  { rewrite I1 in Hfin. discriminate. }
  destruct (scale_cases m2 e2 H2 E2) as [I2 | [f2 [g2 [Hf2 [R2 [_ U2]]]]]].
  { rewrite R1, I2. reflexivity. }
  rewrite R1, R2. apply SFltb_of_values; [exact Hf1 | exact Hf2 |].
  assert (Dpos : 0 < F2Q (Z.pos m0) e0) by (apply F2Q_pos; lia).
  assert (Cpos : 0 < F2Q (Z.pos mc) ec) by (apply F2Q_pos; lia).
  assert (P2pos : 0 < F2Q (Z.pos f2) g2 * F2Q (Z.pos m0) e0)
    by (apply Qmult_lt_0_compat; [apply F2Q_pos; lia | exact Dpos]).
  apply (Qmult_le_compat_r _ _ (F2Q (Z.pos mc) ec)) in Hgap; [| lra].
  apply (Qmult_lt_r _ _ (F2Q (Z.pos m0) e0) Dpos).
  unfold eps in *.
  set (P1 := F2Q (Z.pos f1) g1 * F2Q (Z.pos m0) e0) in *.
  set (P2 := F2Q (Z.pos f2) g2 * F2Q (Z.pos m0) e0) in *.
  assert (G : 101 * (F2Q (Z.pos m1) e1 * F2Q (Z.pos mc) ec)
              <= 100 * (F2Q (Z.pos m2) e2 * F2Q (Z.pos mc) ec)).
  { eapply Qle_trans; [| eapply Qle_trans; [exact Hgap |]];
      apply Qle_lteq; right; ring. }
  set (X1 := F2Q (Z.pos m1) e1 * F2Q (Z.pos mc) ec) in *.
  set (X2 := F2Q (Z.pos m2) e2 * F2Q (Z.pos mc) ec) in *.
  lra.
Qed.

End Scaling.

(** *** The order of the frequencies *)

Lemma f0_spec : Prim2SF (float_of_int 8363) = S754_finite false 4597607871545344 (-39).
Proof. vm_compute. reflexivity. Qed.

Lemma weight_value (x : float) (m : positive) (e : Z) :
  Prim2SF x = S754_finite false m e -> -60 <= e ->
  (F2Q (Z.pos m) e == F2Q (weight x) (-60))%Q.
Proof.
  intros Hx He. unfold weight. rewrite Hx.
  rewrite <- F2Q_shift by lia. replace (-60 + (e + 60)) with e by lia. reflexivity.
Qed.

Lemma weight_nonneg (x : float) : 0 <= weight x.
Proof.
  unfold weight. destruct (Prim2SF x) as [s | s | | s m e]; try lia.
  destruct s; [lia |]. pose proof (Z.pow_nonneg 2 (e + 60)). nia.
Qed.

Lemma gap_trans (x y z : float) : gap x y = true -> gap y z = true -> gap x z = true.
Proof.
  unfold gap. intros H1 H2. zbool. apply Z.leb_le.
  pose proof (weight_nonneg z). lia.
Qed.

Lemma chain_head {A : Type} (R : A -> A -> bool) (d : A) (t : list A) :
  (forall x y z, R x y = true -> R y z = true -> R x z = true) ->
  forall x, chain R (x :: t) = true ->
  forall j, (j < List.length t)%nat -> R x (nth j t d) = true.
Proof.
  intros Htrans. induction t as [| y t IH]; intros x H j Hj; simpl in Hj; [lia |].
  cbn [chain] in H. apply andb_prop in H. destruct H as [Hxy Ht].
  destruct j as [| j]; [exact Hxy |].
  cbn [nth]. eapply Htrans; [exact Hxy |].
  apply IH; [exact Ht | lia].
Qed.

Lemma chain_pairs {A : Type} (R : A -> A -> bool) (d : A) (l : list A) :
  (forall x y z, R x y = true -> R y z = true -> R x z = true) ->
  chain R l = true ->
  forall i j, (i < j < List.length l)%nat -> R (nth i l d) (nth j l d) = true.
Proof.
  intros Htrans. induction l as [| x t IH]; intros H i j Hij; simpl in Hij; [lia |].
  destruct j as [| j]; [lia |].
  destruct i as [| i]; cbn [nth].
  - apply chain_head; [exact Htrans | exact H | lia].
  - apply IH; [| lia].
    cbn [chain] in H. destruct t as [| y t']; [reflexivity |].
    apply andb_prop in H. apply H.
Qed.

(** The bases are normal numbers, each at least one per cent above the one
    before. *)
Lemma base_freqs_normal : forallb normal_base base_freqs = true.
Proof. vm_compute. reflexivity. Qed.

Lemma base_freqs_gaps : chain gap base_freqs = true.
Proof. vm_compute. reflexivity. Qed.

Lemma normal_base_spec (x : float) :
  normal_base x = true ->
  exists m e, Prim2SF x = S754_finite false m e
              /\ 2 ^ 52 <= Z.pos m < 2 ^ 53 /\ -60 <= e <= 0.
Proof.
  unfold normal_base. destruct (Prim2SF x) as [s | s | | s m e]; try discriminate.
  destruct s; [discriminate |]. intros H.
  apply andb_prop in H. destruct H as [H H4].
  apply andb_prop in H. destruct H as [H H3].
  apply andb_prop in H. destruct H as [H1 H2]. zbool.
  exists m, e. split; [reflexivity | lia].
Qed.

(** Two bases one per cent apart, scaled by a positive [c2spd]. *)
Lemma scaled_order (b1 b2 : float) (c2spd : Z) :
  normal_base b1 = true -> normal_base b2 = true -> gap b1 b2 = true ->
  0 < c2spd ->
  let f x := (x * float_of_int c2spd / float_of_int 8363)%float in
  (f b1 <? infinity)%float = true -> (f b1 <? f b2)%float = true.
Proof.
  intros N1 N2 G Hc f. unfold f. rewrite !ltb_spec, !div_spec, !mul_spec, f0_spec.
  change (Prim2SF infinity) with (S754_infinity false).
  destruct (normal_base_spec b1 N1) as [m1 [e1 [P1 [M1 E1]]]].
  destruct (normal_base_spec b2 N2) as [m2 [e2 [P2 [M2 E2]]]].
  destruct (float_of_int_pos c2spd ltac:(lia)) as [mc [ec [Mc [Ec Pc]]]].
  rewrite P1, P2, Pc.
  destruct (ec <=? 971).
  - apply (scale_order mc 4597607871545344 ec (-39) Mc ltac:(cbn; lia) Ec ltac:(lia)
             m1 m2 e1 e2 M1 E1 M2 E2).
    rewrite (weight_value b1 m1 e1 P1 ltac:(lia)).
    rewrite (weight_value b2 m2 e2 P2 ltac:(lia)).
    unfold gap in G. zbool.
    setoid_replace (101 * F2Q (weight b1) (-60))%Q with (F2Q (101 * weight b1) (-60))
      by (unfold F2Q; rewrite inject_Z_mult; ring).
    setoid_replace (100 * F2Q (weight b2) (-60))%Q with (F2Q (100 * weight b2) (-60))
      by (unfold F2Q; rewrite inject_Z_mult; ring).
    apply F2Q_le. exact G.
  - cbn. discriminate.
Qed.

Lemma note_to_freq_ascending (c2spd n1 n2 : Z) :
  0 < c2spd ->
  0 <= n1 < 256 -> 0 <= n2 < 256 ->
  Z.land n1 15 < 12 -> Z.land n2 15 < 12 ->
  pitch n1 < pitch n2 ->
  (note_to_freq (Some n1) c2spd <? infinity)%float = true ->
  (note_to_freq (Some n1) c2spd <? note_to_freq (Some n2) c2spd)%float = true.
Proof.
  intros Hc H1 H2 S1 S2 Hp.
  destruct (pitch_range n1 H1 S1) as [R1 E1].
  destruct (pitch_range n2 H2 S2) as [R2 E2].
  rewrite <- E1 at 1 2. rewrite <- E2 at 1.
  rewrite <- (Z2Nat.id (pitch n1)) at 1 2 by lia.
  rewrite <- (Z2Nat.id (pitch n2)) at 1 by lia.
  rewrite !note_to_freq_scaled by lia.
  set (k1 := Z.to_nat (pitch n1)). set (k2 := Z.to_nat (pitch n2)).
  assert (L : List.length base_freqs = 192%nat) by reflexivity.
  unfold scaled.
  set (f := fun base : float => (base * float_of_int c2spd / float_of_int 8363)%float).
  rewrite (nth_indep (map f base_freqs) 0%float (f 0%float)) by (rewrite length_map, L; lia).
  rewrite (nth_indep (map f base_freqs) 0%float (f 0%float)) by (rewrite length_map, L; lia).
  rewrite !map_nth.
  apply (scaled_order (nth k1 base_freqs 0%float) (nth k2 base_freqs 0%float) c2spd).
  - pose proof base_freqs_normal as N. rewrite forallb_forall in N.
    apply N, nth_In. rewrite L. lia.
  - pose proof base_freqs_normal as N. rewrite forallb_forall in N.
    apply N, nth_In. rewrite L. lia.
  - apply (chain_pairs gap 0%float base_freqs gap_trans base_freqs_gaps).
    rewrite L. lia.
  - exact Hc.
Qed.

(** A frequency that has reached infinity is below no other one. *)
Lemma infinity_not_below (y : float) : (infinity <? y)%float = false.
Proof.
  rewrite ltb_spec. change (Prim2SF infinity) with (S754_infinity false).
  destruct (Prim2SF y) as [s | s | | s m e]; try destruct s; reflexivity.
Qed.




(** Nor is it for every positive [c2spd]: with [c2spd = 10^305] the two
    highest notes both overflow to infinity. *)
Example note_to_freq_overflows :
  pitch 250 < pitch 251
  /\ note_to_freq (Some 250) (10 ^ 305) = infinity
  /\ note_to_freq (Some 251) (10 ^ 305) = infinity.
Proof. repeat split; vm_compute; reflexivity. Qed.

(** Nor for a negative [c2spd]: the order is reversed. *)
Example note_to_freq_descends_below_zero :
  pitch 64 < pitch 65
  /\ PrimFloat.ltb (note_to_freq (Some 65) (-1)) (note_to_freq (Some 64) (-1)) = true.
Proof. split; vm_compute; reflexivity. Qed.

(** ** What a channel adds to a sample *)

Lemma mix_channel_not_playing (sample : Q) (st : ChannelState) :
  playing st = false -> mix_channel sample st = OK (sample, st).
Proof. intros H. unfold mix_channel. rewrite H. reflexivity. Qed.

Lemma mix_channel_no_instrument (sample : Q) (st : ChannelState) :
  instrument st = None -> mix_channel sample st = OK (sample, st).
Proof. intros H. unfold mix_channel. rewrite H. destruct (playing st); reflexivity. Qed.

(** Past the end of a sample without a loop the channel stops and adds
    nothing. *)
Lemma mix_channel_stops (sample : Q) (st : ChannelState) (inst : Instrument) (pos : Z) :
  playing st = true -> instrument st = Some inst ->
  int_of_float (sample_pos st) = OK pos ->
  inst_length inst <= pos ->
  inst_loop_end inst <= inst_loop_begin inst ->
  mix_channel sample st
  = OK (sample, mkState (sample_pos st) (increment st) (volume st) false (Some inst)).
Proof.
  intros Hp Hi Hpos Hlen Hloop. unfold mix_channel. rewrite Hp, Hi, Hpos. cbn [bind].
  replace (pos >=? inst_length inst) with true
    by (symmetry; rewrite Z.geb_leb; apply Z.leb_le; lia).
  replace (inst_loop_end inst >? inst_loop_begin inst) with false
    by (symmetry; rewrite Z.gtb_ltb; apply Z.ltb_ge; lia).
  reflexivity.
Qed.

(** The wrapped position lies in the loop; it is an index of the sample
    only when the loop lies within the sample, which the parser does not
    check. *)
Lemma wrapped_position_in_loop (pos loop_begin loop_end : Z) :
  loop_begin < loop_end ->
  loop_begin <= loop_begin + (pos - loop_end) mod (loop_end - loop_begin) < loop_end.
Proof.
  intros H. pose proof (Z.mod_pos_bound (pos - loop_end) (loop_end - loop_begin)). lia.
Qed.

Lemma mix_channel_wraps (sample : Q) (st : ChannelState) (inst : Instrument) (pos : Z) :
  playing st = true -> instrument st = Some inst ->
  int_of_float (sample_pos st) = OK pos ->
  inst_length inst <= pos ->
  0 <= inst_loop_begin inst < inst_loop_end inst ->
  inst_loop_end inst <= len (inst_sample inst) ->
  exists b,
    mix_channel sample st
    = OK ((sample + inject_Z (recenter b) * volume st)%Q,
          mkState (sample_pos st + increment st)%float (increment st) (volume st)
                  true (Some inst)).
Proof.
  intros Hp Hi Hpos Hlen Hloop Hin. unfold mix_channel. rewrite Hp, Hi, Hpos. cbn [bind].
  replace (pos >=? inst_length inst) with true
    by (symmetry; rewrite Z.geb_leb; apply Z.leb_le; lia).
  replace (inst_loop_end inst >? inst_loop_begin inst) with true
    by (symmetry; rewrite Z.gtb_ltb; apply Z.ltb_lt; lia).
  pose proof (wrapped_position_in_loop pos (inst_loop_begin inst) (inst_loop_end inst)
                ltac:(lia)) as Hw.
  destruct (py_index_ok (inst_sample inst)
              (inst_loop_begin inst
               + (pos - inst_loop_end inst) mod (inst_loop_end inst - inst_loop_begin inst)))
    as [b [Hb _]]; [lia |].
  rewrite Hb. cbn [bind]. eauto.
Qed.

(** ** Behaviour on particular files *)

Lemma is_ok_value {A : Type} (d : A) (r : result A) :
  is_ok r = true -> r = OK (value d r).
Proof. destruct r; [reflexivity | discriminate]. Qed.

(** C1: the renderer does raise.  The instrument of this file has an empty
    sample and the loop 0..1; the first output sample of channel 0 finds
    position 0 at the sample's length, wraps it to
    [0 + (0 - 1) mod (1 - 0) = 0] and indexes the empty sample. *)
Theorem render_raises_when_loop_passes_sample :
  exists parser inst,
    read_s3m loop_past_sample_file = OK parser
    /\ instruments parser = [inst]
    /\ (inst_length inst, inst_loop_begin inst, inst_loop_end inst) = (0, 0, 1)
    /\ render parser = Raise IndexError.
Proof.
  eexists. eexists.
  split; [vm_compute; reflexivity |].
  split; [vm_compute; reflexivity |].
  split; vm_compute; reflexivity.
Qed.

(** The same failure with a sample that is not empty: two bytes, the loop
    0..4 and the note 0xFB, whose increment is about 22.9.  The second
    output sample wraps position 22 to [0 + (22 - 4) mod 4 = 2]. *)
Lemma render_raises_when_loop_passes_sample2 :
  exists parser,
    read_s3m loop_past_sample_file2 = OK parser
    /\ map (fun inst => (inst_sample inst, inst_loop_begin inst, inst_loop_end inst))
           (instruments parser) = [([128; 128], 0, 4)]
    /\ render parser = Raise IndexError.
Proof.
  eexists. split; [vm_compute; reflexivity |].
  split; vm_compute; reflexivity.
Qed.

(** C3: an event's instrument number indexes the list of the instruments
    that were kept, not the pointer table.  In this file the first pointer
    (7) leads to a skipped record and the second (9) to the sample "B": the
    event with number 2 on channel 0 is ignored, and the event with number
    1 on channel 1 gets "B". *)
Theorem skipped_instrument_shifts_numbers :
  exists parser inst_b row states,
    read_s3m skipped_instrument_file = OK parser
    /\ parse_instrument skipped_instrument_file 7 = OK None
    /\ parse_instrument skipped_instrument_file 9 = OK (Some inst_b)
    /\ instruments parser = [inst_b]
    /\ option_map (fun pattern => nth_error pattern 0) (nth_error (patterns parser) 0)
       = Some (Some row)
    /\ nth_error row 0 = Some (Some (mkEvent (Some 64) (Some 2) None None))
    /\ nth_error row 1 = Some (Some (mkEvent (Some 64) (Some 1) None None))
    /\ trigger_row parser (init_channel_states parser) 0 row = OK states
    /\ option_map instrument (nth_error states 0) = Some None
    /\ option_map instrument (nth_error states 1) = Some (Some inst_b).
Proof.
  eexists. eexists. eexists. eexists.
  split; [vm_compute; reflexivity |].
  split; [vm_compute; reflexivity |].
  split; [vm_compute; reflexivity |].
  split; [vm_compute; reflexivity |].
  split; [vm_compute; reflexivity |].
  split; [vm_compute; reflexivity |].
  split; [vm_compute; reflexivity |].
  split; [vm_compute; reflexivity |].
  split; vm_compute; reflexivity.
Qed.

(** Every pattern the parser keeps has 64 rows of 32 slots. *)
Lemma parsed_patterns_shape (data : bytes) (parser : S3MParser) :
  read_s3m data = OK parser ->
  Forall (fun pattern =>
            List.length pattern = 64%nat
            /\ Forall (fun row : Row => List.length row = 32%nat) pattern)
         (patterns parser).
Proof.
  intros H. destruct (read_s3m_ok data parser H) as [_ [Hpat _]].
  eapply Forall_impl; [| exact Hpat].
  intros pattern [H64 Hrows]. split; [exact H64 |].
  eapply Forall_impl; [| exact Hrows]. intros row [H32 _]. exact H32.
Qed.

(** C6: a truncated stream does not leave the later rows empty.  The
    stream 0x20 0x05 announces a note with one byte left: row 0 stops after
    the "what" byte and is empty, and row 1 goes on from there, reads 0x05
    as a "what" byte without fields and puts an event on channel 5. *)
Theorem truncated_stream_spills_into_next_row :
  exists parser pattern,
    read_s3m truncated_pattern_file = OK parser
    /\ patterns parser = [pattern]
    /\ List.length pattern = 64%nat
    /\ nth_error pattern 0 = Some (repeat None 32)
    /\ option_map (fun row => nth_error row 5) (nth_error pattern 1)
       = Some (Some (Some (mkEvent None None None None))).
Proof.
  eexists. eexists.
  split; [vm_compute; reflexivity |].
  split; [vm_compute; reflexivity |].
  split; [vm_compute; reflexivity |].
  split; vm_compute; reflexivity.
Qed.

(** *** Rendering once every channel has stopped *)

Lemma mix_channels_silent (n : nat) :
  forall (states : list ChannelState) (sample : Q),
    silentb states = true -> (n <= List.length states)%nat ->
    mix_channels n states sample = OK (sample, states).
Proof.
  induction n as [| n IH]; intros states sample Hs Hn; cbn [mix_channels];
    [reflexivity |].
  destruct states as [| st rest]; [simpl in Hn; lia |].
  cbn [silentb forallb] in Hs. apply andb_prop in Hs. destruct Hs as [Hst Hrest].
  unfold mix_channel. destruct (playing st); [discriminate |].
  cbn [bind]. rewrite (IH rest sample Hrest) by (simpl in Hn; lia).
  reflexivity.
Qed.

Section Silence.

Variable to_pcm : Q -> Z.
Variable parser : S3MParser.

Lemma render_samples_silent (n : nat) (states : list ChannelState) :
  silentb states = true ->
  (Z.to_nat (channels parser) <= List.length states)%nat ->
  render_samples to_pcm parser n states = OK (repeat (to_pcm 0%Q) n, states).
Proof.
  intros Hs Hn. induction n as [| n IH]; cbn [render_samples]; [reflexivity |].
  rewrite (mix_channels_silent _ _ _ Hs Hn). cbn [bind].
  rewrite IH. reflexivity.
Qed.

Lemma render_samples_app (a b : nat) :
  forall (states st1 : list ChannelState) (o1 : list Z),
    render_samples to_pcm parser a states = OK (o1, st1) ->
    render_samples to_pcm parser (a + b) states
    = ('(o2, st2) <- render_samples to_pcm parser b st1 ;; OK (o1 ++ o2, st2)).
Proof.
  induction a as [| a IH]; intros states st1 o1 H; cbn [render_samples Nat.add] in *.
  - inversion H. subst. destruct (render_samples to_pcm parser b st1) as [[o2 st2] |];
      reflexivity.
  - destruct (mix_channels (Z.to_nat (channels parser)) states 0%Q) as [[s st'] |];
      [| discriminate].
    cbn [bind] in *.
    destruct (render_samples to_pcm parser a st') as [[o st''] |] eqn:E;
      [| discriminate].
    cbn [bind] in H. inversion H. subst.
    rewrite (IH _ _ _ E).
    destruct (render_samples to_pcm parser b st1) as [[o2 st2] |]; reflexivity.
Qed.

Lemma trigger_row_no_event (row : Row) :
  forallb no_event row = true ->
  forall (states : list ChannelState) (ch : Z),
    trigger_row parser states ch row = OK states.
Proof.
  induction row as [| slot rest IH]; intros H states ch; cbn [trigger_row];
    [reflexivity |].
  cbn [forallb] in H. apply andb_prop in H. destruct H as [Hslot Hrest].
  destruct slot; [discriminate |]. cbn [trigger bind]. apply IH. exact Hrest.
Qed.

Lemma render_rows_silent (row_samples : Z) (pattern : Pattern)
    (states : list ChannelState) :
  forallb (forallb no_event) pattern = true ->
  silentb states = true ->
  (Z.to_nat (channels parser) <= List.length states)%nat ->
  exists out, render_rows to_pcm parser row_samples pattern states = OK (out, states).
Proof.
  intros Hp Hs Hn. induction pattern as [| row rest IH]; cbn [render_rows].
  - eauto.
  - cbn [forallb] in Hp. apply andb_prop in Hp. destruct Hp as [Hrow Hrest].
    rewrite (trigger_row_no_event row Hrow). cbn [bind].
    rewrite (render_samples_silent _ _ Hs Hn). cbn [bind].
    destruct (IH Hrest) as [out E]. rewrite E. cbn [bind]. eauto.
Qed.

(** A module of one pattern and the orders 0 and 5 renders when the
    channels its first row starts have all stopped after [a] samples. *)
Lemma render_one_pattern_ok (row0 : Row) (rest : Pattern) (a b : nat)
    (o1 : list Z) (st1 st2 : list ChannelState) :
  (tempo parser * 4 / 60 =? 0) = false ->
  orders parser = [0; 5] ->
  patterns parser = [row0 :: rest] ->
  trigger_row parser (init_channel_states parser) 0 row0 = OK st1 ->
  render_samples to_pcm parser a st1 = OK (o1, st2) ->
  silentb st2 = true ->
  (Z.to_nat (channels parser) <=? List.length st2)%nat = true ->
  Z.to_nat (speed parser * (sample_rate parser / (tempo parser * 4 / 60))) = (a + b)%nat ->
  forallb (forallb no_event) rest = true ->
  is_ok (render_with to_pcm parser) = true.
Proof.
  intros Htempo Hord Hpat Htrig Hpre Hsil Hch Hsplit Hrest.
  apply Nat.leb_le in Hch.
  unfold render_with. rewrite Htempo. cbn [bind].
  rewrite Hord. cbn [render_orders]. rewrite Hpat.
  change (0 >=? len [row0 :: rest]) with false.
  change (5 >=? len [row0 :: rest]) with true.
  change (py_index [row0 :: rest] 0) with (OK (row0 :: rest)).
  cbv iota. cbn [bind render_rows].
  rewrite Htrig. cbn [bind]. rewrite Hsplit.
  rewrite (render_samples_app a b _ _ _ Hpre).
  rewrite (render_samples_silent b st2 Hsil Hch). cbn [bind].
  destruct (render_rows_silent (speed parser * (sample_rate parser / (tempo parser * 4 / 60)))
              rest st2 Hrest Hsil Hch) as [out E].
  rewrite E. reflexivity.
Qed.

End Silence.

Lemma song_parses : read_s3m song_file = OK song_parser.
Proof. apply is_ok_value. vm_compute. reflexivity. Qed.

(** The note of [song_file] has played its four bytes and stopped within
    the first 700 samples; the rest of the song is silence. *)
Lemma song_renders : is_ok (render song_parser) = true.
Proof.
  pose (pattern := hd [] (patterns song_parser)).
  pose (st1 := value [] (trigger_row song_parser (init_channel_states song_parser) 0
                           (hd [] pattern))).
  pose (pre := value ([], []) (render_samples pcm_of_sum song_parser (Z.to_nat 700) st1)).
  apply (render_one_pattern_ok pcm_of_sum song_parser (hd [] pattern) (tl pattern)
           (Z.to_nat 700) (Z.to_nat 32372) (fst pre) st1 (snd pre)).
  - vm_compute. reflexivity.
  - vm_compute. reflexivity.
  - vm_compute. reflexivity.
  - apply is_ok_value. vm_compute. reflexivity.
  - rewrite <- surjective_pairing. apply is_ok_value. vm_compute. reflexivity.
  - vm_compute. reflexivity.
  - vm_compute. reflexivity.
  - rewrite <- Z2Nat.inj_add by lia. apply f_equal. vm_compute. reflexivity.
  - vm_compute. reflexivity.
Qed.

Lemma render_length_witness :
  exists out,
    read_s3m song_file = OK song_parser
    /\ render song_parser = OK out
    /\ len out = 2116608.
Proof.
  exists (value [] (render song_parser)).
  split; [exact song_parses |].
  split; [exact (is_ok_value [] _ song_renders) |].
  rewrite (render_length song_file song_parser _ song_parses
             (is_ok_value [] _ song_renders)).
  vm_compute. reflexivity.
Defined.

Lemma render_rounds_to_nearest_witness :
  read_s3m song_file = OK song_parser
  /\ render song_parser = spec_render song_parser.
Proof.
  split; [exact song_parses |].
  exact (render_rounds_to_nearest song_file song_parser song_parses).
Defined.

(** Truncation and rounding are not the same conversion: they differ on a
    sum that is not a multiple of 1/128, which the mixer never produces. *)
Example pcm_of_sum_truncates : pcm_of_sum (1 # 200) = 128 /\ pcm_round (1 # 200) = 129.
Proof. split; vm_compute; reflexivity. Qed.

(** * Further properties of the parser *)

Lemma byte_at_range (data : bytes) (i v : Z) : byte_at data i = OK v -> is_byte v.
Proof.
  unfold byte_at. intros H. inv_bind H. inversion H. apply byte_val_range.
Qed.

Lemma slice_slice {A : Type} (l : list A) (a b c d : Z) :
  0 <= a -> 0 <= c -> c <= d -> a + d <= b ->
  slice (slice l a b) c d = slice l (a + c) (a + d).
Proof.
  intros Ha Hc Hcd Hb. unfold slice.
  rewrite skipn_firstn_comm, firstn_firstn, skipn_skipn.
  replace (Z.to_nat c + Z.to_nat a)%nat with (Z.to_nat (a + c)) by lia.
  f_equal. lia.
Qed.

Lemma fields_H_length (n : nat) (bs : bytes) : List.length (fields_H n bs) = n.
Proof. revert bs. induction n as [| n IH]; intros bs; simpl; [| rewrite IH]; reflexivity. Qed.

(** What a successful parse has read, field by field. *)
Lemma read_s3m_inv (data : bytes) (parser : S3MParser) :
  read_s3m data = OK parser ->
  96 <= len data
  /\ num_orders parser = le_uint (slice data 28 30)
  /\ num_instruments parser = le_uint (slice data 30 32)
  /\ num_patterns parser = le_uint (slice data 32 34)
  /\ 96 + num_orders parser + 2 * num_instruments parser + 2 * num_patterns parser
     <= len data
  /\ title parser = decode_ascii (slice data 0 28)
  /\ orders parser
     = map byte_val (slice data 96 (96 + num_orders parser))
  /\ parse_instruments data (instrument_pointers data parser) [] = OK (instruments parser)
  /\ parse_patterns 32 data (pattern_pointers data parser) [] = OK (patterns parser).
Proof.
  intros H. unfold read_s3m in H.
  destruct (len data <? 96) eqn:L; [discriminate |]. zbool.
  unfold unpack_HHH in H. rewrite len_slice in H by lia.
  change (34 - 28 =? 6) with true in H. cbv iota in H.
  cbn [except_struct_error bind] in H.
  rewrite !slice_slice in H by lia. cbn [Z.add] in H.
  change (28 + 0) with 28 in H. change (28 + 2) with 30 in H.
  change (28 + 4) with 32 in H. change (28 + 6) with 34 in H.
  inv_bind H.
  destruct (_ >? len data) eqn:G1 in H; [discriminate |].
  destruct (_ >? len data) eqn:G2 in H; [discriminate |].
  inv_bind H. inv_bind H. inv_bind H. inv_bind H.
  inversion H. subst parser. clear H.
  unfold instrument_pointers, pattern_pointers. cbn.
  zbool.
  pose proof (le_uint_nonneg (slice data 28 30)).
  pose proof (le_uint_nonneg (slice data 30 32)).
  pose proof (le_uint_nonneg (slice data 32 34)).
  unfold unpack_nH in E0, E1.
  destruct (_ =? _) in E0; [| discriminate].
  destruct (_ =? _) in E1; [| discriminate].
  inversion E0. inversion E1. subst.
  repeat split; try assumption; lia.
Qed.

Lemma le_uint_bound (bs : bytes) : 0 <= le_uint bs < 256 ^ len bs.
Proof.
  induction bs as [| b t IH]; cbn [le_uint].
  - unfold len. simpl. lia.
  - pose proof (byte_val_range b) as Hb.
    replace (len (b :: t)) with (len t + 1) by (unfold len; cbn [List.length]; lia).
    rewrite Z.pow_add_r by (pose proof (len_nonneg t); lia).
    change (256 ^ 1) with 256. lia.
Qed.

Lemma le_uint_16 (l : bytes) (a : Z) :
  0 <= a -> a + 2 <= len l -> 0 <= le_uint (slice l a (a + 2)) < 65536.
Proof.
  intros Ha Hl. pose proof (le_uint_bound (slice l a (a + 2))) as H.
  rewrite len_slice in H by lia. replace (a + 2 - a) with 2 in H by lia.
  exact H.
Qed.

Lemma fields_H_nth (n : nat) :
  forall (bs : bytes) (k : nat),
    (k < n)%nat ->
    nth_error (fields_H n bs) k
    = Some (le_uint (slice bs (2 * Z.of_nat k) (2 * Z.of_nat k + 2))).
Proof.
  induction n as [| n IH]; intros bs k Hk; [lia |].
  cbn [fields_H]. destruct k as [| k].
  - reflexivity.
  - cbn [nth_error]. rewrite IH by lia. unfold slice.
    rewrite skipn_skipn.
    replace (Z.to_nat (2 * Z.of_nat k) + 2)%nat with (Z.to_nat (2 * Z.of_nat (S k))) by lia.
    replace (Z.to_nat (2 * Z.of_nat k + 2 - 2 * Z.of_nat k)) with 2%nat by lia.
    replace (Z.to_nat (2 * Z.of_nat (S k) + 2 - 2 * Z.of_nat (S k))) with 2%nat by lia.
    reflexivity.
Qed.

Lemma parse_instruments_kept (data : bytes) (ptrs : list Z) :
  forall acc l,
    parse_instruments data ptrs acc = OK l ->
    l = acc ++ kept (parse_instrument data) ptrs.
Proof.
  induction ptrs as [| ptr rest IH]; intros acc l H; cbn [parse_instruments] in H.
  - inversion H. unfold kept. simpl. rewrite app_nil_r. reflexivity.
  - inv_bind H. apply IH in H. subst l. unfold kept. cbn [flat_map]. rewrite E.
    destruct a as [inst |]; [rewrite <- app_assoc |]; reflexivity.
Qed.

Lemma parse_patterns_kept (data : bytes) (ptrs : list Z) :
  forall acc l,
    parse_patterns 32 data ptrs acc = OK l ->
    l = acc ++ kept (parse_pattern 32 data) ptrs.
Proof.
  induction ptrs as [| ptr rest IH]; intros acc l H; cbn [parse_patterns] in H.
  - inversion H. unfold kept. simpl. rewrite app_nil_r. reflexivity.
  - inv_bind H. apply IH in H. subst l. unfold kept. cbn [flat_map]. rewrite E.
    destruct a as [pattern |]; [rewrite <- app_assoc |]; reflexivity.
Qed.

Lemma kept_length {A : Type} (body : Z -> result (option A)) (ptrs : list Z) :
  (List.length (kept body ptrs) <= List.length ptrs)%nat.
Proof.
  induction ptrs as [| ptr rest IH]; unfold kept in *; cbn [flat_map]; [simpl; lia |].
  rewrite length_app. destruct (body ptr) as [[a |] | e]; simpl; lia.
Qed.

Lemma read_s3m_counts (data : bytes) (parser : S3MParser) :
  read_s3m data = OK parser ->
  orders parser = map byte_val (slice data 96 (96 + num_orders parser))
  /\ len (orders parser) = num_orders parser
  /\ num_orders parser = le_uint (slice data 28 30)
  /\ num_instruments parser = le_uint (slice data 30 32)
  /\ num_patterns parser = le_uint (slice data 32 34)
  /\ 0 <= num_orders parser < 65536
  /\ 0 <= num_instruments parser < 65536
  /\ 0 <= num_patterns parser < 65536.
Proof.
  intros H.
  destruct (read_s3m_inv data parser H) as [L [Ho [Hi [Hp [Hfit [_ [Hord _]]]]]]].
  pose proof (le_uint_16 data 28 ltac:(lia) ltac:(lia)) as B1.
  pose proof (le_uint_16 data 30 ltac:(lia) ltac:(lia)) as B2.
  pose proof (le_uint_16 data 32 ltac:(lia) ltac:(lia)) as B3.
  change (28 + 2) with 30 in B1. change (30 + 2) with 32 in B2.
  change (32 + 2) with 34 in B3.
  rewrite <- Ho in B1. rewrite <- Hi in B2. rewrite <- Hp in B3.
  repeat split; try assumption; try lia.
  rewrite Hord. unfold len at 1. rewrite length_map.
  fold (len (slice data 96 (96 + num_orders parser))).
  rewrite len_slice; lia.
Qed.

Lemma read_s3m_pointer_tables (data : bytes) (parser : S3MParser) :
  read_s3m data = OK parser ->
  len (instrument_pointers data parser) = num_instruments parser
  /\ len (pattern_pointers data parser) = num_patterns parser
  /\ (forall k, 0 <= k < num_instruments parser ->
        nth_error (instrument_pointers data parser) (Z.to_nat k)
        = Some (le_uint (slice data (96 + num_orders parser + 2 * k)
                                    (96 + num_orders parser + 2 * k + 2))))
  /\ (forall k, 0 <= k < num_patterns parser ->
        nth_error (pattern_pointers data parser) (Z.to_nat k)
        = Some (le_uint (slice data
                  (96 + num_orders parser + 2 * num_instruments parser + 2 * k)
                  (96 + num_orders parser + 2 * num_instruments parser + 2 * k + 2)))).
Proof.
  intros H.
  destruct (read_s3m_counts data parser H) as [_ [_ [_ [_ [_ [Bo [Bi Bp]]]]]]].
  destruct (read_s3m_inv data parser H) as [L [_ [_ [_ [Hfit _]]]]].
  unfold instrument_pointers, pattern_pointers, len.
  rewrite !fields_H_length.
  split; [lia |]. split; [lia |]. split; intros k Hk.
  - rewrite fields_H_nth by lia. rewrite Z2Nat.id by lia.
    rewrite slice_slice by lia. do 3 f_equal; lia.
  - rewrite fields_H_nth by lia. rewrite Z2Nat.id by lia.
    rewrite slice_slice by lia. do 3 f_equal; lia.
Qed.

Lemma read_s3m_kept (data : bytes) (parser : S3MParser) :
  read_s3m data = OK parser ->
  instruments parser = kept (parse_instrument data) (instrument_pointers data parser)
  /\ patterns parser = kept (parse_pattern 32 data) (pattern_pointers data parser)
  /\ len (instruments parser) <= num_instruments parser
  /\ len (patterns parser) <= num_patterns parser.
Proof.
  intros H.
  destruct (read_s3m_inv data parser H) as [_ [_ [_ [_ [_ [_ [_ [Hi Hp]]]]]]]].
  destruct (read_s3m_pointer_tables data parser H) as [Li [Lp _]].
  apply parse_instruments_kept in Hi. apply parse_patterns_kept in Hp.
  cbn [app] in Hi, Hp.
  split; [exact Hi |]. split; [exact Hp |].
  rewrite <- Li, <- Lp. rewrite Hi at 1. rewrite Hp at 1. unfold len.
  pose proof (kept_length (parse_instrument data) (instrument_pointers data parser)).
  pose proof (kept_length (parse_pattern 32 data) (pattern_pointers data parser)).
  lia.
Qed.

Lemma range_length (n : Z) : List.length (range n) = Z.to_nat n.
Proof. unfold range. rewrite length_map, length_seq. reflexivity. Qed.

Lemma nth_error_range (n : Z) (k : nat) :
  Z.of_nat k < n -> nth_error (range n) k = Some (Z.of_nat k).
Proof.
  intros H. unfold range. rewrite nth_error_map, nth_error_seq.
  replace (k <? Z.to_nat n)%nat with true by (symmetry; apply Nat.ltb_lt; lia).
  reflexivity.
Qed.

(** A table of [n] entries whose [k]-th entry is [f k]. *)
Lemma table_as_range (l : list Z) (n : Z) (f : Z -> Z) :
  len l = n ->
  (forall k, 0 <= k < n -> nth_error l (Z.to_nat k) = Some (f k)) ->
  l = map f (range n).
Proof.
  intros Hl Hk. apply nth_error_ext. intros k. rewrite nth_error_map.
  destruct (Z.lt_ge_cases (Z.of_nat k) n) as [L | G].
  - rewrite nth_error_range by exact L. cbn [option_map].
    rewrite <- (Nat2Z.id k) at 1. apply Hk. lia.
  - replace (nth_error l k) with (@None Z)
      by (symmetry; apply nth_error_None; unfold len in Hl; lia).
    replace (nth_error (range n) k) with (@None Z)
      by (symmetry; apply nth_error_None; rewrite range_length; lia).
    reflexivity.
Qed.

Lemma read_s3m_from_tables (data : bytes) (parser : S3MParser) :
  read_s3m data = OK parser ->
  instruments parser
  = kept (parse_instrument data)
      (map (fun k => le_uint (slice data (96 + num_orders parser + 2 * k)
                                         (96 + num_orders parser + 2 * k + 2)))
           (range (num_instruments parser)))
  /\ patterns parser
     = kept (parse_pattern 32 data)
         (map (fun k => le_uint (slice data
                 (96 + num_orders parser + 2 * num_instruments parser + 2 * k)
                 (96 + num_orders parser + 2 * num_instruments parser + 2 * k + 2)))
              (range (num_patterns parser))).
Proof.
  intros H.
  destruct (read_s3m_kept data parser H) as [Hi [Hp _]].
  destruct (read_s3m_pointer_tables data parser H) as [Li [Lp [Ki Kp]]].
  rewrite <- (table_as_range _ _ _ Li Ki). rewrite <- (table_as_range _ _ _ Lp Kp).
  split; assumption.
Qed.

Lemma parse_instrument_some (data : bytes) (ptr : Z) (inst : Instrument) :
  0 <= ptr ->
  parse_instrument data ptr = OK (Some inst) ->
  let off := ptr * 16 in
  let sample_ptr := le_uint (slice data (off + 13) (off + 17)) * 16 in
  off + 24 <= len data
  /\ byte_at data off = OK 1
  /\ inst_name inst = decode_ascii (slice data (off + 1) (off + 13))
  /\ inst_length inst = le_uint (slice data (off + 17) (off + 19))
  /\ inst_loop_begin inst = le_uint (slice data (off + 19) (off + 21))
  /\ inst_loop_end inst = le_uint (slice data (off + 21) (off + 23))
  /\ inst_volume inst = (inject_Z (le_uint (slice data (off + 23) (off + 24))) / 64)%Q
  /\ sample_ptr + inst_length inst <= len data
  /\ inst_sample inst
     = map (fun b => store_sample (byte_val b))
           (slice data sample_ptr (sample_ptr + inst_length inst)).
Proof.
  intros Hptr H. cbv zeta. unfold parse_instrument in H.
  destruct (ptr * 16 + 24 >? len data) eqn:G; [discriminate |]. zbool.
  inv_bind H.
  destruct (a =? 1) eqn:T; [| discriminate]. zbool. subst a.
  unfold unpack_LHHHB in H. rewrite len_slice in H by lia.
  replace (ptr * 16 + 24 - (ptr * 16 + 13) =? 11) with true in H
    by (symmetry; apply Z.eqb_eq; lia).
  cbn [bind] in H. rewrite !slice_slice in H by lia.
  replace (ptr * 16 + 13 + 0) with (ptr * 16 + 13) in H by lia.
  replace (ptr * 16 + 13 + 4) with (ptr * 16 + 17) in H by lia.
  replace (ptr * 16 + 13 + 6) with (ptr * 16 + 19) in H by lia.
  replace (ptr * 16 + 13 + 8) with (ptr * 16 + 21) in H by lia.
  replace (ptr * 16 + 13 + 10) with (ptr * 16 + 23) in H by lia.
  replace (ptr * 16 + 13 + 11) with (ptr * 16 + 24) in H by lia.
  destruct (_ >? len data) eqn:G2 in H; [discriminate |]. zbool.
  cbn [except_struct_error] in H. inversion H. subst inst. cbn.
  repeat split; try assumption; try lia.
Qed.


(** *** Text fields *)

Lemma rstrip_nul_spec (s : list Z) :
  exists k, s = rstrip_nul s ++ repeat 0 k /\ last (rstrip_nul s) 1 <> 0.
Proof.
  induction s as [| c t [k [Ht Hl]]]; [exists 0%nat; simpl; split; [reflexivity | lia] |].
  unfold rstrip_nul in *. cbn [fold_right].
  destruct (fold_right _ [] t) as [| d r] eqn:F.
  - destruct (c =? 0) eqn:C; zbool.
    + exists (S k). subst c. cbn [app repeat]. split; [f_equal; exact Ht | lia].
    + exists k. cbn [app last]. split; [f_equal; exact Ht | exact C].
  - exists k. split; [cbn [app]; f_equal; exact Ht |].
    cbn [last]. cbn [last] in Hl. exact Hl.
Qed.

Lemma rstrip_nul_length (s : list Z) : len (rstrip_nul s) <= len s.
Proof.
  destruct (rstrip_nul_spec s) as [k [H _]]. unfold len. rewrite H at 2.
  rewrite length_app. lia.
Qed.

Lemma rstrip_nul_Forall (P : Z -> Prop) (s : list Z) :
  Forall P s -> Forall P (rstrip_nul s).
Proof.
  intros H. destruct (rstrip_nul_spec s) as [k [E _]]. rewrite E in H.
  apply Forall_app in H. apply H.
Qed.

Lemma decode_ascii_spec (bs : bytes) :
  len (decode_ascii bs) <= len bs
  /\ Forall (fun c => 0 <= c < 128) (decode_ascii bs)
  /\ last (decode_ascii bs) 1 <> 0.
Proof.
  unfold decode_ascii. split; [| split].
  - eapply Z.le_trans; [apply rstrip_nul_length |].
    unfold len. pose proof (filter_length_le (fun c => c <? 128) (map byte_val bs)) as H.
    rewrite length_map in H. lia.
  - apply rstrip_nul_Forall. apply Forall_forall. intros c Hc.
    apply filter_In in Hc. destruct Hc as [Hin Hlt]. zbool.
    apply in_map_iff in Hin. destruct Hin as [b [<- _]].
    pose proof (byte_val_range b). lia.
  - destruct (rstrip_nul_spec (filter (fun c => c <? 128) (map byte_val bs))) as [k [_ H]].
    exact H.
Qed.

(** *** The instruments of a parsed module *)

Lemma kept_In {A : Type} (body : Z -> result (option A)) (ptrs : list Z) (a : A) :
  In a (kept body ptrs) -> exists ptr, In ptr ptrs /\ body ptr = OK (Some a).
Proof.
  unfold kept. intros H. apply in_flat_map in H. destruct H as [ptr [Hin Ha]].
  exists ptr. split; [exact Hin |].
  destruct (body ptr) as [[x |] | e]; simpl in Ha; try contradiction.
  destruct Ha as [-> | []]. reflexivity.
Qed.

Lemma read_s3m_instruments (data : bytes) (parser : S3MParser) :
  read_s3m data = OK parser ->
  Forall (fun inst =>
            len (inst_sample inst) = inst_length inst
            /\ Forall is_byte (inst_sample inst)
            /\ 0 <= inst_length inst < 65536
            /\ 0 <= inst_loop_begin inst < 65536
            /\ 0 <= inst_loop_end inst < 65536
            /\ (exists v, is_byte v /\ inst_volume inst = (inject_Z v / 64)%Q)
            /\ len (inst_name inst) <= 12)
         (instruments parser).
Proof.
  intros H. destruct (read_s3m_kept data parser H) as [Hk _]. rewrite Hk.
  apply Forall_forall. intros inst Hin.
  apply kept_In in Hin. destruct Hin as [ptr [Hptr Hsome]].
  assert (Hnn : 0 <= ptr).
  { pose proof (fields_H_nonneg (Z.to_nat (num_instruments parser))
                  (slice data (96 + num_orders parser)
                     (96 + num_orders parser + 2 * num_instruments parser))) as F.
    rewrite Forall_forall in F. apply F. exact Hptr. }
  destruct (parse_instrument_some data ptr inst Hnn Hsome)
    as [Hfit [_ [Hname [Hlen [Hlb [Hle [Hvol [Hs Hsample]]]]]]]].
  cbv zeta in *.
  pose proof (le_uint_nonneg (slice data (ptr * 16 + 13) (ptr * 16 + 17))) as Hsp.
  assert (B : forall a, ptr * 16 <= a -> a + 2 <= ptr * 16 + 24 ->
                        0 <= le_uint (slice data a (a + 2)) < 65536).
  { intros a Ha1 Ha2. apply le_uint_16; lia. }
  split; [| split; [| split; [| split; [| split; [| split]]]]].
  - rewrite Hsample. unfold len at 1. rewrite length_map.
    fold (len (slice data (le_uint (slice data (ptr * 16 + 13) (ptr * 16 + 17)) * 16)
                 (le_uint (slice data (ptr * 16 + 13) (ptr * 16 + 17)) * 16
                  + inst_length inst))).
    rewrite Hlen in *.
    pose proof (le_uint_nonneg (slice data (ptr * 16 + 17) (ptr * 16 + 19))).
    rewrite len_slice; lia.
  - rewrite Hsample. apply Forall_map. apply Forall_forall. intros b _.
    apply store_sample_range.
  - rewrite Hlen. replace (ptr * 16 + 19) with (ptr * 16 + 17 + 2) by lia. apply B; lia.
  - rewrite Hlb. replace (ptr * 16 + 21) with (ptr * 16 + 19 + 2) by lia. apply B; lia.
  - rewrite Hle. replace (ptr * 16 + 23) with (ptr * 16 + 21 + 2) by lia. apply B; lia.
  - eexists. split; [| exact Hvol]. apply le_uint_byte. rewrite len_slice; lia.
  - rewrite Hname. destruct (decode_ascii_spec (slice data (ptr * 16 + 1) (ptr * 16 + 13)))
      as [L _].
    rewrite len_slice in L; lia.
Qed.

Lemma read_s3m_title (data : bytes) (parser : S3MParser) :
  read_s3m data = OK parser ->
  len (title parser) <= 28
  /\ Forall (fun c => 0 <= c < 128) (title parser)
  /\ last (title parser) 1 <> 0.
Proof.
  intros H. destruct (read_s3m_inv data parser H) as [L [_ [_ [_ [_ [Ht _]]]]]].
  rewrite Ht. destruct (decode_ascii_spec (slice data 0 28)) as [A [B C]].
  rewrite len_slice in A by lia. repeat split; assumption || lia.
Qed.

(** *** The events of a parsed module *)

Lemma read_note_wf (pd : bytes) (what i i' : Z) (n k : option Z) :
  read_note pd what i = OK (Some (n, k, i')) ->
  opt_byte n /\ opt_byte k /\ (n = None <-> k = None).
Proof.
  unfold read_note. destruct (Z.land what 32 =? 0).
  - intros H. inversion H. subst. simpl. tauto.
  - destruct (i + 2 >? len pd); [discriminate |].
    intros H. inv_bind H. inv_bind H. inversion H. subst.
    apply byte_at_range in E, E0. unfold is_byte in *. simpl.
    repeat split; try lia; discriminate.
Qed.

Lemma read_volume_wf (pd : bytes) (what i i' : Z) (v : option Z) :
  read_volume pd what i = OK (Some (v, i')) -> opt_byte v.
Proof.
  unfold read_volume. destruct (Z.land what 64 =? 0).
  - intros H. inversion H. exact I.
  - destruct (i + 1 >? len pd); [discriminate |].
    intros H. inv_bind H. inversion H. subst. apply byte_at_range in E. exact E.
Qed.

Lemma read_effect_wf (pd : bytes) (what i i' : Z) (e : option (Z * Z)) :
  read_effect pd what i = OK (Some (e, i')) ->
  match e with Some (c, p) => is_byte c /\ is_byte p | None => True end.
Proof.
  unfold read_effect. destruct (Z.land what 128 =? 0).
  - intros H. inversion H. exact I.
  - destruct (i + 2 >? len pd); [discriminate |].
    intros H. inv_bind H. inv_bind H. inversion H. subst.
    apply byte_at_range in E, E0. split; assumption.
Qed.

Lemma decode_row_wf (fuel : nat) (pd : bytes) :
  forall (i i' : Z) (row row' : Row),
    decode_row fuel pd i row = OK (row', i') ->
    Forall slot_wf row -> Forall slot_wf row'.
Proof.
  induction fuel as [| fuel IH]; intros i i' row row' H Hrow; cbn [decode_row] in H;
    [discriminate |].
  destruct (i <? len pd); [| inversion H; subst; exact Hrow].
  inv_bind H. destruct (a =? 0); [inversion H; subst; exact Hrow |].
  destruct (i + 1 >? len pd); [inversion H; subst; exact Hrow |].
  inv_bind H. inv_bind H.
  destruct a1 as [[[note ins] i1] |]; [| inversion H; subst; exact Hrow].
  inv_bind H. destruct a1 as [[vol i2] |]; [| inversion H; subst; exact Hrow].
  inv_bind H. destruct a1 as [[eff i3] |]; [| inversion H; subst; exact Hrow].
  inv_bind H. eapply IH; [exact H |].
  eapply py_setitem_Forall; [exact E4 | exact Hrow |].
  apply read_note_wf in E1. apply read_volume_wf in E2. apply read_effect_wf in E3.
  unfold slot_wf, event_wf. cbn. tauto.
Qed.

Lemma decode_rows_wf (n : nat) (chans : Z) (pd : bytes) :
  forall (i : Z) (rows : list Row),
    decode_rows n chans pd i = OK rows -> Forall (Forall slot_wf) rows.
Proof.
  induction n as [| n IH]; intros i rows H; cbn [decode_rows] in H.
  - inversion H. constructor.
  - inv_bind H. destruct a as [row i']. cbn beta iota zeta in H.
    inv_bind H. inversion H. subst. constructor.
    + eapply decode_row_wf; [exact E |].
      apply Forall_forall. intros x Hx. apply repeat_spec in Hx. subst. exact I.
    + eapply IH. exact E0.
Qed.

Lemma parse_pattern_wf (chans : Z) (data : bytes) (ptr : Z) (pattern : Pattern) :
  parse_pattern chans data ptr = OK (Some pattern) -> Forall (Forall slot_wf) pattern.
Proof.
  unfold parse_pattern. destruct (ptr * 16 + 2 >? len data); [discriminate |].
  destruct (unpack_H _) as [packed_len | e]; cbn [bind except_struct_error].
  - destruct (_ >? len data); [discriminate |].
    destruct (decode_rows 64 chans _ 0) as [rows | e] eqn:E; cbn [bind].
    + intros H. inversion H. subst. eapply decode_rows_wf. exact E.
    + destruct e; simpl; discriminate.
  - destruct e; simpl; discriminate.
Qed.

Lemma read_s3m_events (data : bytes) (parser : S3MParser) :
  read_s3m data = OK parser ->
  Forall (Forall (Forall slot_wf)) (patterns parser).
Proof.
  intros H. destruct (read_s3m_kept data parser H) as [_ [Hk _]]. rewrite Hk.
  apply Forall_forall. intros pattern Hin.
  apply kept_In in Hin. destruct Hin as [ptr [_ Hsome]].
  eapply parse_pattern_wf. exact Hsome.
Qed.

(** *** Which exception the parser raises *)

Lemma read_s3m_error (data : bytes) :
  match parse_error data with
  | Some msg => read_s3m data = Raise (Exception msg)
  | None => exists parser, read_s3m data = OK parser
  end.
Proof.
  unfold parse_error.
  destruct (len data <? 96) eqn:L.
  { unfold read_s3m. rewrite L. reflexivity. }
  pose proof (read_s3m_cases data) as C. unfold fatal in C.
  unfold read_s3m in *. rewrite L in *. cbn [orb] in C. zbool.
  unfold unpack_HHH in *. rewrite len_slice in * by lia.
  change (34 - 28 =? 6) with true in *. cbv iota in *.
  cbn [except_struct_error bind] in *.
  rewrite !slice_slice in * by lia.
  change (28 + 0) with 28 in *. change (28 + 2) with 30 in *.
  change (28 + 4) with 32 in *. change (28 + 6) with 34 in *.
  assert (Hflags : unpack_H (slice data 38 40) = OK (le_uint (slice data 38 40))).
  { unfold unpack_H. rewrite len_slice by lia. reflexivity. }
  rewrite Hflags in *. cbn [bind] in *.
  destruct (96 + le_uint (slice data 28 30) >? len data) eqn:G1; [reflexivity |].
  destruct (96 + le_uint (slice data 28 30) + 2 * le_uint (slice data 30 32)
            + 2 * le_uint (slice data 32 34) >? len data) eqn:G2; [reflexivity |].
  pose proof (le_uint_nonneg (slice data 32 34)).
  replace (96 + le_uint (slice data 28 30) + 2 * le_uint (slice data 30 32) >? len data)
    with false in C by (symmetry; zbool; rewrite Z.gtb_ltb; apply Z.ltb_ge; lia).
  cbn [orb] in C. destruct C as [p [C _]]. exists p. exact C.
Qed.

(** *** Streams that have been used up *)

Lemma decode_row_exhausted (fuel : nat) (pd : bytes) (i : Z) (row : Row) :
  len pd <= i -> decode_row (S fuel) pd i row = OK (row, i).
Proof.
  intros H. cbn [decode_row].
  replace (i <? len pd) with false by (symmetry; apply Z.ltb_ge; lia).
  reflexivity.
Qed.

Lemma decode_rows_exhausted (n : nat) (chans : Z) (pd : bytes) (i : Z) :
  len pd <= i -> decode_rows n chans pd i = OK (repeat (empty_row chans) n).
Proof.
  intros H. induction n as [| n IH]; cbn [decode_rows repeat]; [reflexivity |].
  rewrite decode_row_exhausted by exact H. cbn [bind]. rewrite IH. reflexivity.
Qed.

(** *** A stream with one event *)

Lemma land_nonzero (w m : Z) : Z.land w m <> 0 -> w <> 0.
Proof. intros H E. subst w. apply H. apply Z.land_0_l. Qed.

Lemma decode_single_event (w n k : byte) :
  Z.land (byte_val w) 32 <> 0 ->
  Z.land (byte_val w) 64 = 0 ->
  Z.land (byte_val w) 128 = 0 ->
  exists row0,
    decode_rows 64 32 [w; n; k; x00] 0 = OK (row0 :: repeat (empty_row 32) 63)
    /\ nth_error row0 (Z.to_nat (Z.land (byte_val w) 31))
       = Some (Some (mkEvent (Some (byte_val n)) (Some (byte_val k)) None None))
    /\ forall c, c <> Z.to_nat (Z.land (byte_val w) 31) ->
                 nth_error row0 c = nth_error (empty_row 32) c.
Proof.
  intros H32 H64 H128.
  pose proof (byte_val_range w) as Hw.
  pose proof (channel_range (byte_val w) (proj1 Hw)) as Hch.
  destruct (py_setitem_ok (empty_row 32) (Z.land (byte_val w) 31)
              (Some (mkEvent (Some (byte_val n)) (Some (byte_val k)) None None)))
    as [row0 [Eset [_ [Hnew Hold]]]].
  { unfold len, empty_row. rewrite repeat_length. lia. }
  exists row0. split; [| split; assumption].
  assert (Hstep : forall m pd i,
            decode_rows (S m) 32 pd i
            = ('(row, i') <- decode_row (S (List.length pd)) pd i (repeat None (Z.to_nat 32)) ;;
               rows <- decode_rows m 32 pd i' ;; OK (row :: rows))) by reflexivity.
  change 64%nat with (S 63). rewrite Hstep.
  change (S (List.length [w; n; k; x00])) with 5%nat.
  assert (Hrow : decode_row 5 [w; n; k; x00] 0 (repeat None (Z.to_nat 32)) = OK (row0, 4)).
  { cbn [decode_row].
    change (len [w; n; k; x00]) with 4.
    change (byte_at [w; n; k; x00] 0) with (OK (byte_val w)).
    cbn [bind Z.ltb Z.compare Z.add Z.gtb Pos.compare Pos.compare_cont].
    replace (byte_val w =? 0) with false
      by (symmetry; apply Z.eqb_neq; eapply land_nonzero; exact H32).
    unfold read_note, read_volume, read_effect.
    replace (Z.land (byte_val w) 32 =? 0) with false
      by (symmetry; apply Z.eqb_neq; exact H32).
    rewrite H64, H128.
    change (len [w; n; k; x00]) with 4.
    change (byte_at [w; n; k; x00] 1) with (OK (byte_val n)).
    change (byte_at [w; n; k; x00] (1 + 1)) with (OK (byte_val k)).
    cbn [bind Z.ltb Z.compare Z.add Z.gtb Z.eqb Pos.compare Pos.compare_cont Pos.add
         Pos.succ].
    fold (empty_row 32). rewrite Eset. cbn [bind].
    change (byte_at [w; n; k; x00] 3) with (OK 0).
    cbn [bind Z.eqb Z.add Pos.add]. reflexivity. }
  rewrite Hrow. cbn [bind]. cbn beta iota zeta.
  rewrite decode_rows_exhausted by (unfold len; simpl; lia).
  reflexivity.
Qed.

(** * Further properties of the renderer *)

(** *** The output is bytes *)

Section OutputRange.

Variable to_pcm : Q -> Z.
Variable parser : S3MParser.
Variable P : Z -> Prop.
Hypothesis to_pcm_P : forall s, P (to_pcm s).

Lemma render_samples_Forall (n : nat) :
  forall states out states',
    render_samples to_pcm parser n states = OK (out, states') -> Forall P out.
Proof.
  induction n as [| n IH]; intros states out states' H; cbn [render_samples] in H.
  - inversion H. constructor.
  - inv_bind H. destruct a as [s st1]. cbn beta iota zeta in H.
    inv_bind H. destruct a as [o st2]. cbn beta iota zeta in H.
    inversion H. subst. constructor; [apply to_pcm_P | eapply IH; exact E0].
Qed.

Lemma render_rows_Forall (row_samples : Z) (pattern : Pattern) :
  forall states out states',
    render_rows to_pcm parser row_samples pattern states = OK (out, states') ->
    Forall P out.
Proof.
  induction pattern as [| row rest IH]; intros states out states' H;
    cbn [render_rows] in H.
  - inversion H. constructor.
  - inv_bind H. inv_bind H. destruct a0 as [o1 st1]. cbn beta iota zeta in H.
    inv_bind H. destruct a0 as [o2 st2]. cbn beta iota zeta in H.
    inversion H. subst. apply Forall_app. split.
    + eapply render_samples_Forall. exact E0.
    + eapply IH. exact E1.
Qed.

Lemma render_orders_Forall (row_samples : Z) (ords : list Z) :
  forall states out states',
    render_orders to_pcm parser row_samples ords states = OK (out, states') ->
    Forall P out.
Proof.
  induction ords as [| order rest IH]; intros states out states' H;
    cbn [render_orders] in H.
  - inversion H. constructor.
  - destruct (order >=? len (patterns parser)); [eapply IH; exact H |].
    inv_bind H. inv_bind H. destruct a0 as [o1 st1]. cbn beta iota zeta in H.
    inv_bind H. destruct a0 as [o2 st2]. cbn beta iota zeta in H.
    inversion H. subst. apply Forall_app. split.
    + eapply render_rows_Forall. exact E0.
    + eapply IH. exact E1.
Qed.

End OutputRange.

Lemma render_bytes (parser : S3MParser) (out : list Z) :
  render parser = OK out -> Forall is_byte out.
Proof.
  unfold render, render_with. intros H. inv_bind H. inv_bind H.
  destruct a0 as [o st]. cbn beta iota zeta in H. inversion H. subst.
  eapply render_orders_Forall; [| exact E0].
  intros s. pose proof (pcm_of_sum_range s). unfold is_byte. lia.
Qed.

(** *** Triggers *)

Lemma trigger_resolved (parser : S3MParser) (states : list ChannelState) (ch : Z)
    (event : Event) (note k : Z) (inst : Instrument) (st : ChannelState) :
  ev_note event = Some note -> note <> 254 ->
  ev_instrument event = Some k -> 1 <= k <= len (instruments parser) ->
  nth_error (instruments parser) (Z.to_nat (k - 1)) = Some inst ->
  sample_rate parser <> 0 ->
  0 <= ch -> nth_error states (Z.to_nat ch) = Some st ->
  exists states',
    trigger parser states ch (Some event) = OK states'
    /\ nth_error states' (Z.to_nat ch)
       = Some (mkState 0 (note_to_freq (Some note) 8363
                          / float_of_int (sample_rate parser))%float
                       (match ev_volume event with
                        | Some v => (inject_Z v / 64)%Q
                        | None => inst_volume inst
                        end)
                       true (Some inst))
    /\ (forall ch', ch' <> Z.to_nat ch -> nth_error states' ch' = nth_error states ch')
    /\ List.length states' = List.length states.
Proof.
  intros Hnote Hkey Hins Hk Hinst Hrate Hch Hst.
  assert (Hlt : 0 <= ch < len states).
  { unfold len. split; [assumption |].
    assert (Z.to_nat ch < List.length states)%nat by (apply nth_error_Some; congruence).
    lia. }
  unfold trigger. rewrite Hnote, Hins.
  replace (note =? 254) with false by (symmetry; apply Z.eqb_neq; exact Hkey).
  replace (k =? 0) with false by (symmetry; apply Z.eqb_neq; lia).
  replace (k - 1 <? len (instruments parser)) with true
    by (symmetry; apply Z.ltb_lt; lia).
  destruct (py_index_ok (instruments parser) (k - 1)) as [inst0 [Ei Hn]]; [lia |].
  assert (inst0 = inst) by congruence. subst inst0.
  rewrite Ei. cbn [bind].
  destruct (py_index_ok states ch Hlt) as [st0 [Es _]]. rewrite Es. cbn [bind].
  replace (sample_rate parser =? 0) with false by (symmetry; apply Z.eqb_neq; exact Hrate).
  cbn [bind].
  set (new := mkState _ _ _ _ _).
  assert (Hvol : (vol <- match ev_volume event with
                          | Some v => OK (inject_Z v / 64)%Q
                          | None => OK (inst_volume inst)
                          end ;;
                   py_setitem states ch
                     (mkState 0 (note_to_freq (Some note) 8363
                                 / float_of_int (sample_rate parser))%float
                        vol true (Some inst)))
                 = py_setitem states ch new).
  { subst new. destruct (ev_volume event); reflexivity. }
  rewrite Hvol.
  destruct (py_setitem_ok states ch new Hlt) as [states' [Eset [Hlen [Hnew Hold]]]].
  exists states'. subst new. auto.
Qed.

Lemma trigger_row_noteless (parser : S3MParser) (row : Row) :
  Forall (fun slot => match slot with
                      | Some event => ev_note event = None
                      | None => True
                      end) row ->
  forall states ch, trigger_row parser states ch row = OK states.
Proof.
  intros H. induction H as [| slot rest Hs _ IH]; intros states ch; cbn [trigger_row];
    [reflexivity |].
  destruct slot as [event |]; cbn [trigger].
  - rewrite Hs. cbn [bind]. apply IH.
  - cbn [bind]. apply IH.
Qed.

(** *** The mixer *)

Lemma mix_channel_frame (sample sample' : Q) (st st' : ChannelState) :
  mix_channel sample st = OK (sample', st') ->
  mix_frame st st' /\ (playing st = false -> sample' = sample).
Proof.
  unfold mix_channel, mix_frame. intros H.
  destruct st as [pos inc vol play ins]. cbn in *.
  destruct play; [| inversion H; subst; cbn; intuition].
  destruct ins as [inst |]; [| inversion H; subst; cbn; intuition].
  inv_bind H.
  assert (Hplay : forall p,
    (b <- py_index (inst_sample inst) p ;;
     OK ((sample + inject_Z (recenter b) * vol)%Q,
         mkState (pos + inc)%float inc vol true (Some inst))) = OK (sample', st') ->
    st' = mkState (pos + inc)%float inc vol true (Some inst)).
  { intros p Hp. inv_bind Hp. inversion Hp. reflexivity. }
  destruct (a >=? inst_length inst).
  - destruct (inst_loop_end inst >? inst_loop_begin inst).
    + apply Hplay in H. subst st'. cbn. intuition discriminate.
    + inversion H. subst. cbn. intuition discriminate.
  - apply Hplay in H. subst st'. cbn. intuition discriminate.
Qed.

Lemma mix_channels_frame (n : nat) :
  forall (states states' : list ChannelState) (sample sample' : Q),
    mix_channels n states sample = OK (sample', states') ->
    Forall2 mix_frame states states'.
Proof.
  induction n as [| n IH]; intros states states' sample sample' H;
    cbn [mix_channels] in H.
  - inversion H. subst. clear H. induction states'; constructor; [| assumption].
    unfold mix_frame. intuition.
  - destruct states as [| st rest]; [discriminate |].
    inv_bind H. destruct a as [s1 st1]. cbn beta iota zeta in H.
    inv_bind H. destruct a as [s2 rest1]. cbn beta iota zeta in H.
    inversion H. subst. constructor.
    + apply mix_channel_frame in E. apply E.
    + eapply IH. exact E0.
Qed.

Lemma mix_channel_reads (sample : Q) (st : ChannelState) (inst : Instrument) (pos : Z) :
  playing st = true -> instrument st = Some inst ->
  int_of_float (sample_pos st) = OK pos ->
  0 <= pos < inst_length inst ->
  inst_length inst <= len (inst_sample inst) ->
  exists b,
    nth_error (inst_sample inst) (Z.to_nat pos) = Some b
    /\ mix_channel sample st
       = OK ((sample + inject_Z (recenter b) * volume st)%Q,
             mkState (sample_pos st + increment st)%float (increment st) (volume st)
                     true (Some inst)).
Proof.
  intros Hp Hi Hpos Hin Hlen. unfold mix_channel. rewrite Hp, Hi, Hpos. cbn [bind].
  replace (pos >=? inst_length inst) with false
    by (symmetry; rewrite Z.geb_leb; apply Z.leb_gt; lia).
  destruct (py_index_ok (inst_sample inst) pos) as [b [Hb Hn]]; [lia |].
  rewrite Hb. cbn [bind]. eauto.
Qed.

Lemma mix_channel_loops (sample : Q) (st : ChannelState) (inst : Instrument) (pos : Z) :
  playing st = true -> instrument st = Some inst ->
  int_of_float (sample_pos st) = OK pos ->
  inst_length inst <= pos ->
  0 <= inst_loop_begin inst < inst_loop_end inst ->
  inst_loop_end inst <= len (inst_sample inst) ->
  let wrapped := inst_loop_begin inst
                 + (pos - inst_loop_end inst)
                   mod (inst_loop_end inst - inst_loop_begin inst) in
  inst_loop_begin inst <= wrapped < inst_loop_end inst
  /\ exists b,
       nth_error (inst_sample inst) (Z.to_nat wrapped) = Some b
       /\ mix_channel sample st
          = OK ((sample + inject_Z (recenter b) * volume st)%Q,
                mkState (sample_pos st + increment st)%float (increment st) (volume st)
                        true (Some inst)).
Proof.
  intros Hp Hi Hpos Hlen Hloop Hin. cbv zeta.
  pose proof (wrapped_position_in_loop pos (inst_loop_begin inst) (inst_loop_end inst)
                ltac:(lia)) as Hw.
  split; [exact Hw |].
  unfold mix_channel. rewrite Hp, Hi, Hpos. cbn [bind].
  replace (pos >=? inst_length inst) with true
    by (symmetry; rewrite Z.geb_leb; apply Z.leb_le; lia).
  replace (inst_loop_end inst >? inst_loop_begin inst) with true
    by (symmetry; rewrite Z.gtb_ltb; apply Z.ltb_lt; lia).
  destruct (py_index_ok (inst_sample inst)
              (inst_loop_begin inst
               + (pos - inst_loop_end inst) mod (inst_loop_end inst - inst_loop_begin inst)))
    as [b [Hb Hn]]; [lia |].
  rewrite Hb. cbn [bind]. eauto.
Qed.

(** The same on a state of the renderer, with the sum so far that of up
    to 31 channels: the new sum is again a multiple of 1/64 within the
    bound of 32 channels, where binary64 is exact. *)
Lemma mix_channel_loops_ok (sample : Q) (st : ChannelState) (inst : Instrument)
    (pos : Z) :
  state_ok st -> sum64 (31 * 32640) sample ->
  playing st = true -> instrument st = Some inst ->
  int_of_float (sample_pos st) = OK pos ->
  inst_length inst <= pos ->
  0 <= inst_loop_begin inst < inst_loop_end inst ->
  inst_loop_end inst <= inst_length inst ->
  let wrapped := inst_loop_begin inst
                 + (pos - inst_loop_end inst)
                   mod (inst_loop_end inst - inst_loop_begin inst) in
  inst_loop_begin inst <= wrapped < inst_loop_end inst
  /\ exists b,
       nth_error (inst_sample inst) (Z.to_nat wrapped) = Some b
       /\ mix_channel sample st
          = OK ((sample + inject_Z (recenter b) * volume st)%Q,
                mkState (sample_pos st + increment st)%float (increment st) (volume st)
                        true (Some inst))
       /\ sum64 (32 * 32640) (sample + inject_Z (recenter b) * volume st)%Q.
Proof.
  intros [Hv Hok] Hs Hp Hi Hpos Hlen Hloop Hin. cbv zeta.
  destruct (Hok inst Hi) as [_ [Hbytes Hl]].
  destruct (mix_channel_loops sample st inst pos Hp Hi Hpos Hlen Hloop ltac:(lia))
    as [Hw [b [Hb Hm]]].
  split; [exact Hw |]. exists b. split; [exact Hb |]. split; [exact Hm |].
  replace (32 * 32640) with (31 * 32640 + 32640) by lia.
  apply sum64_step; [exact Hs | exact Hv |].
  exact (nth_error_Forall _ _ _ _ Hbytes Hb).
Qed.

(** *** Orders *)

Lemma render_orders_valid (to_pcm : Q -> Z) (parser : S3MParser) (row_samples : Z)
    (ords : list Z) :
  forall states,
    render_orders to_pcm parser row_samples ords states
    = render_orders to_pcm parser row_samples
        (filter (fun order => order <? len (patterns parser)) ords) states.
Proof.
  induction ords as [| order rest IH]; intros states; [reflexivity |].
  cbn [render_orders filter]. rewrite Z.geb_leb.
  destruct (len (patterns parser) <=? order) eqn:G; zbool.
  - replace (order <? len (patterns parser)) with false by (symmetry; apply Z.ltb_ge; lia).
    apply IH.
  - replace (order <? len (patterns parser)) with true by (symmetry; apply Z.ltb_lt; lia).
    cbn [render_orders]. rewrite Z.geb_leb.
    replace (len (patterns parser) <=? order) with false by (symmetry; apply Z.leb_gt; lia).
    destruct (py_index (patterns parser) order) as [pattern | e]; cbn [bind]; [| reflexivity].
    destruct (render_rows to_pcm parser row_samples pattern states) as [[o st] | e];
      cbn [bind]; [| reflexivity].
    rewrite IH. reflexivity.
Qed.

Lemma render_orders_app (to_pcm : Q -> Z) (parser : S3MParser) (row_samples : Z)
    (o1 o2 : list Z) :
  forall states,
    render_orders to_pcm parser row_samples (o1 ++ o2) states
    = ('(out1, st1) <- render_orders to_pcm parser row_samples o1 states ;;
       '(out2, st2) <- render_orders to_pcm parser row_samples o2 st1 ;;
       OK (out1 ++ out2, st2)).
Proof.
  induction o1 as [| order rest IH]; intros states; cbn [render_orders app bind].
  - destruct (render_orders to_pcm parser row_samples o2 states) as [[o st] | e];
      reflexivity.
  - destruct (order >=? len (patterns parser)); [apply IH |].
    destruct (py_index (patterns parser) order) as [pattern | e]; cbn [bind]; [| reflexivity].
    destruct (render_rows to_pcm parser row_samples pattern states) as [[o st] | e];
      cbn [bind]; [| reflexivity].
    rewrite IH.
    destruct (render_orders to_pcm parser row_samples rest st) as [[o' st'] | e];
      cbn [bind]; [| reflexivity].
    destruct (render_orders to_pcm parser row_samples o2 st') as [[o'' st''] | e];
      cbn [bind]; [| reflexivity].
    rewrite app_assoc. reflexivity.
Qed.

(** *** Modules that start no note *)

Lemma silentb_Forall (states : list ChannelState) :
  silentb states = true <-> Forall (fun st => playing st = false) states.
Proof.
  unfold silentb. rewrite forallb_forall, Forall_forall.
  split; intros H st Hin; specialize (H st Hin); destruct (playing st);
    simpl in *; congruence.
Qed.

Lemma trigger_inert (parser : S3MParser) (states : list ChannelState) (ch : Z)
    (slot : option Event) :
  inert parser slot = true -> silentb states = true -> 0 <= ch < len states ->
  exists states',
    trigger parser states ch slot = OK states'
    /\ silentb states' = true /\ List.length states' = List.length states.
Proof.
  intros Hin Hs Hch. unfold inert in Hin. unfold trigger.
  destruct slot as [event |]; [| eauto].
  destruct (ev_note event) as [note |]; [| eauto].
  destruct (note =? 254).
  - destruct (py_index_ok states ch Hch) as [st [Es Hn]]. rewrite Es. cbn [bind].
    destruct (py_setitem_ok states ch
                (mkState (sample_pos st) (increment st) (volume st) false (instrument st))
                Hch) as [states' [Eset [Hlen _]]].
    exists states'. split; [exact Eset |]. split; [| exact Hlen].
    apply silentb_Forall. eapply py_setitem_Forall; [exact Eset | | reflexivity].
    apply silentb_Forall. exact Hs.
  - cbn [orb] in Hin. destruct (ev_instrument event) as [k |]; [| eauto].
    destruct (k =? 0); [eauto |]. cbn [orb] in Hin. zbool.
    replace (k - 1 <? len (instruments parser)) with false
      by (symmetry; apply Z.ltb_ge; lia).
    eauto.
Qed.

Lemma trigger_row_inert (parser : S3MParser) (row : Row) :
  forallb (inert parser) row = true ->
  forall states ch,
    silentb states = true -> 0 <= ch -> ch + len row <= len states ->
    exists states',
      trigger_row parser states ch row = OK states'
      /\ silentb states' = true /\ List.length states' = List.length states.
Proof.
  induction row as [| slot rest IH]; intros Hrow states ch Hs Hch Hfit;
    cbn [trigger_row]; [eauto |].
  cbn [forallb] in Hrow. apply andb_prop in Hrow. destruct Hrow as [Hslot Hrest].
  assert (Hl : len (slot :: rest) = len rest + 1)
    by (unfold len; cbn [List.length]; lia).
  pose proof (len_nonneg rest).
  destruct (trigger_inert parser states ch slot Hslot Hs ltac:(lia))
    as [st1 [E [Hs1 Hl1]]].
  rewrite E. cbn [bind].
  destruct (IH Hrest st1 (ch + 1) Hs1 ltac:(lia)) as [st2 [E2 [Hs2 Hl2]]].
  { unfold len in *. lia. }
  exists st2. split; [exact E2 |]. split; [exact Hs2 | congruence].
Qed.

Section Inert.

Variable to_pcm : Q -> Z.
Variable parser : S3MParser.

Lemma render_rows_inert (row_samples : Z) (pattern : Pattern) :
  forallb (forallb (inert parser)) pattern = true ->
  Forall (fun row : Row => List.length row = 32%nat) pattern ->
  forall states,
    silentb states = true -> List.length states = 32%nat -> channels parser = 32 ->
    exists states',
      render_rows to_pcm parser row_samples pattern states
      = OK (repeat (to_pcm 0%Q) (List.length pattern * Z.to_nat row_samples), states')
      /\ silentb states' = true /\ List.length states' = 32%nat.
Proof.
  induction pattern as [| row rest IH]; intros Hin Hshape states Hs Hl Hc;
    cbn [render_rows].
  - exists states. auto.
  - cbn [forallb] in Hin. apply andb_prop in Hin. destruct Hin as [Hrow Hrest].
    inversion Hshape as [| ? ? H32 Hshape']; subst.
    destruct (trigger_row_inert parser row Hrow states 0 Hs ltac:(lia))
      as [st1 [E1 [Hs1 Hl1]]].
    { unfold len. lia. }
    rewrite E1. cbn [bind].
    rewrite (render_samples_silent to_pcm parser _ st1 Hs1)
      by (rewrite Hc; lia).
    cbn [bind].
    destruct (IH Hrest Hshape' st1 Hs1 ltac:(congruence) Hc) as [st2 [E2 [Hs2 Hl2]]].
    rewrite E2. cbn [bind]. exists st2. split; [| auto].
    rewrite <- repeat_app. cbn [List.length]. do 3 f_equal; lia.
Qed.

Lemma render_orders_inert (row_samples : Z) (ords : list Z) :
  Forall (fun pattern =>
            forallb (forallb (inert parser)) pattern = true
            /\ List.length pattern = 64%nat
            /\ Forall (fun row : Row => List.length row = 32%nat) pattern)
         (patterns parser) ->
  Forall (fun order => 0 <= order) ords ->
  channels parser = 32 ->
  forall states,
    silentb states = true -> List.length states = 32%nat ->
    exists states',
      render_orders to_pcm parser row_samples ords states
      = OK (repeat (to_pcm 0%Q)
              (List.length (filter (fun order => order <? len (patterns parser)) ords)
               * (64 * Z.to_nat row_samples)), states')
      /\ silentb states' = true /\ List.length states' = 32%nat.
Proof.
  intros Hpat Hords Hc. induction Hords as [| order rest Hnn _ IH];
    intros states Hs Hl; cbn [render_orders filter].
  - exists states. auto.
  - rewrite Z.geb_leb. destruct (len (patterns parser) <=? order) eqn:G; zbool.
    + replace (order <? len (patterns parser)) with false
        by (symmetry; apply Z.ltb_ge; lia).
      apply IH; assumption.
    + replace (order <? len (patterns parser)) with true
        by (symmetry; apply Z.ltb_lt; lia).
      destruct (py_index_ok (patterns parser) order ltac:(lia)) as [pattern [E Hn]].
      rewrite E. cbn [bind].
      destruct (nth_error_Forall _ _ _ _ Hpat Hn) as [Hin [H64 Hshape]].
      destruct (render_rows_inert row_samples pattern Hin Hshape states Hs Hl Hc)
        as [st1 [E1 [Hs1 Hl1]]].
      rewrite E1. cbn [bind].
      destruct (IH st1 Hs1 Hl1) as [st2 [E2 [Hs2 Hl2]]].
      rewrite E2. cbn [bind]. exists st2. split; [| auto].
      rewrite <- repeat_app. do 3 f_equal. cbn [List.length].
      unfold Pattern, Row in *. nia.
Qed.

End Inert.

Lemma render_inert (data : bytes) (parser : S3MParser) :
  read_s3m data = OK parser ->
  forallb (forallb (forallb (inert parser))) (patterns parser) = true ->
  render parser = OK (repeat 128 (Z.to_nat (valid_orders parser * 2116608))).
Proof.
  intros H Hin.
  destruct (read_s3m_ok data parser H) as [_ [Hpat [Hord [Hsr [Hch [Htempo Hspeed]]]]]].
  unfold render, render_with. rewrite Hsr, Htempo, Hspeed.
  change (125 * 4 / 60) with 8. change (44100 / 8) with 5512.
  cbn [Z.eqb bind].
  destruct (render_orders_inert pcm_of_sum parser (6 * 5512) (orders parser))
    with (states := init_channel_states parser) as [st [E _]].
  - rewrite forallb_forall in Hin. rewrite Forall_forall in *.
    intros pattern Hp. destruct (Hpat pattern Hp) as [H64 Hrows].
    split; [apply Hin; exact Hp |]. split; [exact H64 |].
    rewrite Forall_forall in *. intros row Hr. apply (Hrows row Hr).
  - eapply Forall_impl; [| exact Hord]. intros o Ho. simpl in Ho. lia.
  - exact Hch.
  - apply silentb_Forall. apply Forall_forall. intros st Hst.
    apply repeat_spec in Hst. subst. reflexivity.
  - unfold init_channel_states. rewrite repeat_length, Hch. reflexivity.
  - rewrite E. cbn [bind]. do 2 f_equal. unfold valid_orders, len.
    change (Z.to_nat (6 * 5512)) with (Z.to_nat 33072). lia.
Qed.

Lemma inert_without_instruments (parser : S3MParser) (slot : option Event) :
  instruments parser = [] -> slot_wf slot -> inert parser slot = true.
Proof.
  intros Hi Hwf. unfold inert. destruct slot as [event |]; [| reflexivity].
  destruct Hwf as [_ [Hk [_ [_ Hiff]]]].
  destruct (ev_note event) as [note |]; [| reflexivity].
  destruct (note =? 254); [reflexivity |]. cbn [orb].
  destruct (ev_instrument event) as [k |]; [| reflexivity].
  rewrite Hi. simpl in Hk. unfold is_byte in Hk.
  destruct (k =? 0) eqn:K; [reflexivity |]. zbool. cbn [orb].
  apply Z.leb_le. unfold len. simpl. lia.
Qed.

Lemma render_without_instruments (data : bytes) (parser : S3MParser) :
  read_s3m data = OK parser ->
  instruments parser = [] ->
  render parser = OK (repeat 128 (Z.to_nat (valid_orders parser * 2116608))).
Proof.
  intros H Hi. apply (render_inert data parser H).
  pose proof (read_s3m_events data parser H) as Hev.
  rewrite forallb_forall. intros pattern Hp.
  rewrite forallb_forall. intros row Hr.
  rewrite forallb_forall. intros slot Hs.
  apply inert_without_instruments; [exact Hi |].
  rewrite Forall_forall in Hev. specialize (Hev pattern Hp).
  rewrite Forall_forall in Hev. specialize (Hev row Hr).
  rewrite Forall_forall in Hev. apply Hev. exact Hs.
Qed.

(** * Floats *)

Lemma note_bytes_forall (f : Z -> bool) :
  forallb f note_bytes = true -> forall n, 0 <= n < 256 -> f n = true.
Proof.
  intros H n Hn. rewrite forallb_forall in H. apply H.
  unfold note_bytes. apply in_map_iff. exists (Z.to_nat n).
  split; [lia | apply in_seq; lia].
Qed.

Lemma shr_1_nonneg (mrs : shr_record) : 0 <= shr_m mrs -> 0 <= shr_m (shr_1 mrs).
Proof.
  destruct mrs as [m r s]. cbn. intros H.
  destruct m as [| p | p]; [cbn; lia | | lia].
  destruct p; cbn; lia.
Qed.

Lemma iter_shr_1_nonneg (p : positive) :
  forall mrs, 0 <= shr_m mrs -> 0 <= shr_m (iter_pos shr_1 p mrs).
Proof.
  induction p as [p IH | p IH |]; intros mrs H; cbn [iter_pos].
  - apply IH, IH, shr_1_nonneg, H.
  - apply IH, IH, H.
  - apply shr_1_nonneg, H.
Qed.

Lemma shr_fexp_nonneg (m e : Z) (l : location) :
  0 <= m -> 0 <= shr_m (fst (shr_fexp prec emax m e l)).
Proof.
  intros H. unfold shr_fexp, shr.
  assert (H0 : 0 <= shr_m (shr_record_of_loc m l)) by (destruct l as [| []]; exact H).
  destruct (_ - e) as [| p | p]; cbn [fst]; [exact H0 | | exact H0].
  apply iter_shr_1_nonneg, H0.
Qed.

Lemma round_nearest_even_nonneg (m : Z) (l : location) :
  0 <= m -> 0 <= round_nearest_even m l.
Proof.
  intros H. destruct l as [| []]; cbn; try lia. destruct (Z.even m); lia.
Qed.

Lemma binary_round_aux_nonneg (m e : Z) (l : location) :
  0 <= m ->
  match binary_round_aux prec emax false m e l with
  | S754_nan => False
  | S754_zero _ => True
  | S754_finite s _ _ => s = false
  | S754_infinity s => s = false
  end.
Proof.
  intros H. unfold binary_round_aux.
  pose proof (shr_fexp_nonneg m e l H) as H1.
  destruct (shr_fexp prec emax m e l) as [mrs' e']. cbn [fst] in H1.
  pose proof (shr_fexp_nonneg _ e' loc_Exact
                (round_nearest_even_nonneg _ (loc_of_shr_record mrs') H1)) as H2.
  destruct (shr_fexp prec emax _ e' loc_Exact) as [mrs'' e'']. cbn [fst] in H2.
  destruct (shr_m mrs'') as [| p | p]; [exact I | | lia].
  destruct (e'' <=? emax - prec); reflexivity.
Qed.

Lemma SFadd_nonneg (x y : spec_float) :
  let ok f := match f with
              | S754_nan => False
              | S754_zero _ => True
              | S754_finite s _ _ => s = false
              | S754_infinity s => s = false
              end in
  ok x -> ok y -> ok (SFadd prec emax x y).
Proof.
  cbv zeta. intros Hx Hy.
  destruct x as [sx | sx | | sx mx ex], y as [sy | sy | | sy my ey];
    try contradiction; subst; cbn [SFadd]; try exact I; try reflexivity.
  - destruct sx, sy; exact I.
  - unfold binary_normalize.
    destruct (fst (shl_align mx ex (Z.min ex ey))) as [?|?|];
      destruct (fst (shl_align my ey (Z.min ex ey))) as [?|?|];
      cbn [cond_Zopp Z.add]; unfold binary_round;
      match goal with
      | |- context [shl_align ?a ?b ?c] =>
          destruct (shl_align a b c) as [mz ez]
      end; apply binary_round_aux_nonneg; lia.
Qed.

Lemma add_nonneg (x y : float) :
  nonneg x = true -> nonneg y = true -> nonneg (x + y) = true.
Proof.
  unfold nonneg. rewrite add_spec. intros Hx Hy.
  pose proof (SFadd_nonneg (Prim2SF x) (Prim2SF y)) as H. cbv zeta in H.
  unfold SF64add.
  destruct (SFadd prec emax (Prim2SF x) (Prim2SF y)) as [s | s | | s m e].
  - reflexivity.
  - rewrite H; [reflexivity | |];
      [destruct (Prim2SF x) as [| [] | | [] ? ?] | destruct (Prim2SF y) as [| [] | | [] ? ?]];
      simpl in *; congruence || exact I.
  - exfalso. apply H;
      [destruct (Prim2SF x) as [| [] | | [] ? ?] | destruct (Prim2SF y) as [| [] | | [] ? ?]];
      simpl in *; congruence || exact I.
  - rewrite H; [reflexivity | |];
      [destruct (Prim2SF x) as [| [] | | [] ? ?] | destruct (Prim2SF y) as [| [] | | [] ? ?]];
      simpl in *; congruence || exact I.
Qed.

Lemma int_of_float_nonneg (x : float) :
  nonneg x = true -> sound (fun pos => 0 <= pos) (int_of_float x).
Proof.
  unfold nonneg, int_of_float, sound.
  destruct (Prim2SF x) as [s | s | | s m e]; intros H; try discriminate; cbn beta.
  - reflexivity.
  - destruct s; [discriminate |].
    destruct (0 <=? e) eqn:E; zbool.
    + pose proof (Z.pow_nonneg 2 e ltac:(lia)). lia.
    + apply Z.div_pos; [lia |]. apply Z.pow_pos_nonneg; lia.
Qed.

(** * Rendering without leaving the samples *)

Lemma sound_bind {A B : Type} (P : A -> Prop) (Q : B -> Prop)
    (r : result A) (k : A -> result B) :
  sound P r -> (forall a, P a -> sound Q (k a)) -> sound Q (bind r k).
Proof.
  destruct r as [a | e]; cbn; intros Hr Hk; [apply Hk, Hr | exact Hr].
Qed.

Lemma sound_impl {A : Type} (P Q : A -> Prop) (r : result A) :
  sound P r -> (forall a, P a -> Q a) -> sound Q r.
Proof. destruct r as [a | e]; cbn; intros Hr H; [apply H, Hr | exact Hr]. Qed.

Lemma increment_nonneg (n : Z) :
  0 <= n < 256 ->
  nonneg (note_to_freq (Some n) 8363 / float_of_int 44100)%float = true.
Proof.
  apply (note_bytes_forall
           (fun n => nonneg (note_to_freq (Some n) 8363 / float_of_int 44100)%float)).
  vm_compute. reflexivity.
Qed.

Section Safe.

Variable parser : S3MParser.
Hypothesis Hinst :
  Forall (fun inst => len (inst_sample inst) = inst_length inst
                      /\ 0 <= inst_loop_begin inst
                      /\ loop_in_sample inst = true) (instruments parser).
Hypothesis Hrate : sample_rate parser = 44100.
Hypothesis Hchan : channels parser = 32.

Lemma trigger_safe (states : list ChannelState) (ch : Z) (slot : option Event) :
  slot_wf slot -> Forall state_safe states -> 0 <= ch < len states ->
  sound (fun states' => Forall state_safe states'
                        /\ List.length states' = List.length states)
        (trigger parser states ch slot).
Proof.
  intros Hwf Hst Hch. unfold trigger.
  destruct slot as [event |]; [| cbn; auto].
  destruct Hwf as [Hn [Hk [_ [_ Hiff]]]].
  destruct (ev_note event) as [note |]; [| cbn; auto].
  destruct (py_index_ok states ch Hch) as [st [Es Hnth]].
  pose proof (nth_error_Forall _ _ _ _ Hst Hnth) as [Hp [Hi Hins]].
  destruct (note =? 254).
  - rewrite Es. cbn [bind].
    destruct (py_setitem_ok states ch
                (mkState (sample_pos st) (increment st) (volume st) false (instrument st))
                Hch) as [states' [Eset [Hlen _]]].
    rewrite Eset. cbn. split; [| exact Hlen].
    eapply py_setitem_Forall; [exact Eset | exact Hst |].
    repeat split; assumption || (intros; apply Hins; assumption).
  - destruct (ev_instrument event) as [k |]; [| cbn; auto].
    destruct (k =? 0) eqn:K; [cbn; auto |]. zbool.
    destruct (k - 1 <? len (instruments parser)) eqn:L; [| cbn; auto]. zbool.
    simpl in Hk, Hn. unfold is_byte in *.
    destruct (py_index_ok (instruments parser) (k - 1) ltac:(lia)) as [inst [Ei Hni]].
    rewrite Ei, Es. cbn [bind]. rewrite Hrate. cbn [Z.eqb bind].
    pose proof (nth_error_Forall _ _ _ _ Hinst Hni) as Hok.
    assert (Hnew : forall vol,
              state_safe (mkState 0 (note_to_freq (Some note) 8363 / float_of_int 44100)%float
                                  vol true (Some inst))).
    { intros vol. split; [reflexivity |]. split; [apply increment_nonneg; exact Hn |].
      cbn. intros i Hi'. inversion Hi'. subst. exact Hok. }
    destruct (ev_volume event) as [v |]; cbn [bind].
    + destruct (py_setitem_ok states ch
                  (mkState 0 (note_to_freq (Some note) 8363 / float_of_int 44100)%float
                           (inject_Z v / 64)%Q true (Some inst)) Hch)
        as [states' [Eset [Hlen _]]].
      rewrite Eset. cbn. split; [| exact Hlen].
      eapply py_setitem_Forall; [exact Eset | exact Hst | apply Hnew].
    + destruct (py_setitem_ok states ch
                  (mkState 0 (note_to_freq (Some note) 8363 / float_of_int 44100)%float
                           (inst_volume inst) true (Some inst)) Hch)
        as [states' [Eset [Hlen _]]].
      rewrite Eset. cbn. split; [| exact Hlen].
      eapply py_setitem_Forall; [exact Eset | exact Hst | apply Hnew].
Qed.

Lemma trigger_row_safe (row : Row) :
  Forall slot_wf row ->
  forall states ch,
    Forall state_safe states -> 0 <= ch -> ch + len row <= len states ->
    sound (fun states' => Forall state_safe states'
                          /\ List.length states' = List.length states)
          (trigger_row parser states ch row).
Proof.
  intros Hrow. induction Hrow as [| slot rest Hslot _ IH]; intros states ch Hst Hch Hfit;
    cbn [trigger_row]; [cbn; auto |].
  assert (Hl : len (slot :: rest) = len rest + 1)
    by (unfold len; cbn [List.length]; lia).
  pose proof (len_nonneg rest).
  eapply sound_bind; [apply (trigger_safe states ch slot Hslot Hst); lia |].
  intros st1 [Hst1 Hl1]. cbn beta.
  eapply sound_impl.
  - apply IH; [exact Hst1 | lia | unfold len in *; lia].
  - intros st2 [Hst2 Hl2]. split; [exact Hst2 | congruence].
Qed.

Lemma mix_channel_safe (sample : Q) (st : ChannelState) :
  state_safe st -> sound (fun r => state_safe (snd r)) (mix_channel sample st).
Proof.
  intros Hsafe. pose proof Hsafe as [Hp [Hi Hins]]. unfold mix_channel.
  destruct (playing st) eqn:Pl; [| exact Hsafe].
  destruct (instrument st) as [inst |] eqn:Ei; [| exact Hsafe].
  destruct (Hins inst eq_refl) as [Hlen [Hlb Hloop]].
  assert (Hsafe' : forall pos play,
            state_safe (mkState pos (increment st) (volume st) play (Some inst)) <->
            nonneg pos = true).
  { intros pos play. unfold state_safe. cbn. split; [tauto |].
    intros Hq. repeat split; try assumption; inversion H; subst; assumption. }
  eapply sound_bind; [apply int_of_float_nonneg; exact Hp |].
  intros pos Hpos. cbn beta in Hpos |- *.
  assert (Hplay : forall p, 0 <= p < len (inst_sample inst) ->
            sound (fun r : Q * ChannelState => state_safe (snd r))
              (b <- py_index (inst_sample inst) p ;;
               OK ((sample + inject_Z (recenter b) * volume st)%Q,
                   mkState (sample_pos st + increment st)%float (increment st)
                           (volume st) true (Some inst)))).
  { intros p Hpr. destruct (py_index_ok _ p Hpr) as [b [Eb _]]. rewrite Eb. cbn.
    apply Hsafe'. apply add_nonneg; assumption. }
  destruct (pos >=? inst_length inst) eqn:G; zbool.
  - destruct (inst_loop_end inst >? inst_loop_begin inst) eqn:Lp; zbool.
    + apply Hplay. unfold loop_in_sample in Hloop.
      apply orb_prop in Hloop. destruct Hloop as [Hl | Hl]; zbool; [lia |].
      pose proof (wrapped_position_in_loop pos (inst_loop_begin inst) (inst_loop_end inst)
                    Lp).
      lia.
    + cbn. apply Hsafe'. exact Hp.
  - apply Hplay. lia.
Qed.

Lemma mix_channels_safe (n : nat) :
  forall (states : list ChannelState) (sample : Q),
    Forall state_safe states -> (n <= List.length states)%nat ->
    sound (fun r => Forall state_safe (snd r)
                    /\ List.length (snd r) = List.length states)
          (mix_channels n states sample).
Proof.
  induction n as [| n IH]; intros states sample Hst Hn; cbn [mix_channels];
    [cbn; auto |].
  destruct states as [| st rest]; [simpl in Hn; lia |].
  inversion Hst; subst.
  eapply sound_bind; [apply mix_channel_safe; assumption |].
  intros [s1 st1] Hs1. cbn [snd] in Hs1. cbn beta iota zeta.
  eapply sound_bind; [apply IH; [eassumption | simpl in Hn; lia] |].
  intros [s2 rest1] [Hr Hl]. cbn [snd] in *. cbn.
  split; [constructor; assumption | congruence].
Qed.

Variable to_pcm : Q -> Z.

Lemma render_samples_safe (n : nat) :
  forall states,
    Forall state_safe states -> List.length states = 32%nat ->
    sound (fun r => Forall state_safe (snd r) /\ List.length (snd r) = 32%nat)
          (render_samples to_pcm parser n states).
Proof.
  induction n as [| n IH]; intros states Hst Hl; cbn [render_samples]; [cbn; auto |].
  eapply sound_bind; [apply mix_channels_safe; [exact Hst | rewrite Hchan; lia] |].
  intros [s st1] [Hst1 Hl1]. cbn [snd] in *. cbn beta iota zeta.
  eapply sound_bind; [apply IH; [exact Hst1 | congruence] |].
  intros [o st2] H2. cbn [snd] in *. cbn. exact H2.
Qed.

Lemma render_rows_safe (row_samples : Z) (pattern : Pattern) :
  Forall (fun row : Row => List.length row = 32%nat /\ Forall slot_wf row) pattern ->
  forall states,
    Forall state_safe states -> List.length states = 32%nat ->
    sound (fun r => Forall state_safe (snd r) /\ List.length (snd r) = 32%nat)
          (render_rows to_pcm parser row_samples pattern states).
Proof.
  intros Hpat. induction Hpat as [| row rest [H32 Hrow] _ IH]; intros states Hst Hl;
    cbn [render_rows]; [cbn; auto |].
  eapply sound_bind; [apply (trigger_row_safe row Hrow states 0 Hst);
                      [lia | unfold len; lia] |].
  intros st1 [Hst1 Hl1]. cbn beta.
  eapply sound_bind; [apply render_samples_safe; [exact Hst1 | congruence] |].
  intros [o1 st2] [Hst2 Hl2]. cbn [snd] in *. cbn beta iota zeta.
  eapply sound_bind; [apply IH; assumption |].
  intros [o2 st3] H3. cbn [snd] in *. cbn. exact H3.
Qed.

Lemma render_orders_safe (row_samples : Z) (ords : list Z) :
  Forall (fun pattern =>
            Forall (fun row : Row => List.length row = 32%nat /\ Forall slot_wf row)
                   pattern) (patterns parser) ->
  Forall (fun order => 0 <= order) ords ->
  forall states,
    Forall state_safe states -> List.length states = 32%nat ->
    sound (fun r => Forall state_safe (snd r) /\ List.length (snd r) = 32%nat)
          (render_orders to_pcm parser row_samples ords states).
Proof.
  intros Hpat Hords. induction Hords as [| order rest Hnn _ IH]; intros states Hst Hl;
    cbn [render_orders]; [cbn; auto |].
  destruct (order >=? len (patterns parser)) eqn:G; zbool; [apply IH; assumption |].
  destruct (py_index_ok (patterns parser) order ltac:(lia)) as [pattern [E Hn]].
  rewrite E. cbn [bind].
  pose proof (nth_error_Forall _ _ _ _ Hpat Hn) as Hp.
  eapply sound_bind; [apply render_rows_safe; eassumption |].
  intros [o1 st1] [Hst1 Hl1]. cbn [snd] in *. cbn beta iota zeta.
  eapply sound_bind; [apply IH; assumption |].
  intros [o2 st2] H2. cbn [snd] in *. cbn. exact H2.
Qed.

End Safe.

Lemma render_only_overflows (data : bytes) (parser : S3MParser) (e : exn) :
  read_s3m data = OK parser ->
  forallb loop_in_sample (instruments parser) = true ->
  render parser = Raise e -> e = OverflowError.
Proof.
  intros H Hloop Hr.
  destruct (read_s3m_ok data parser H) as [_ [Hshape [Hord [Hsr [Hch [Htempo Hspeed]]]]]].
  pose proof (read_s3m_events data parser H) as Hev.
  pose proof (read_s3m_instruments data parser H) as Hins.
  assert (S : sound (fun _ : list Z => True) (render parser)).
  { unfold render, render_with. rewrite Htempo. change (125 * 4 / 60 =? 0) with false.
    cbn [bind].
    eapply sound_bind; [| intros [o st] _; cbn; exact I].
    apply render_orders_safe with (parser := parser).
    - rewrite forallb_forall in Hloop. rewrite Forall_forall in *.
      intros inst Hi. destruct (Hins inst Hi) as [Hl [_ [_ [Hlb _]]]].
      repeat split; [exact Hl | lia | apply Hloop; exact Hi].
    - exact Hsr.
    - exact Hch.
    - rewrite Forall_forall in *. intros pattern Hp.
      destruct (Hshape pattern Hp) as [_ Hrows]. specialize (Hev pattern Hp).
      rewrite Forall_forall in *. intros row Hrw.
      split; [apply (Hrows row Hrw) | apply (Hev row Hrw)].
    - eapply Forall_impl; [| exact Hord]. intros o Ho. simpl in Ho. lia.
    - apply Forall_forall. intros st Hst. apply repeat_spec in Hst. subst.
      split; [reflexivity |]. split; [reflexivity | discriminate].
    - unfold init_channel_states. rewrite repeat_length, Hch. reflexivity. }
  rewrite Hr in S. exact S.
Qed.

(** * Notes *)

Lemma note_to_freq_default_facts (n : Z) :
  0 <= n < 256 ->
  (Z.land n 15 <? 12) = true ->
  note_to_freq (Some n) 8363 = base_freq n
  /\ (0 <? note_to_freq (Some n) 8363)%float = true
  /\ ((n <? 240) = true ->
      note_to_freq (Some (n + 16)) 8363 = (2 * note_to_freq (Some n) 8363)%float).
Proof.
  intros Hn Hv.
  pose proof (note_bytes_forall
    (fun n => negb (Z.land n 15 <? 12)
              || (Leibniz.eqb (note_to_freq (Some n) 8363) (base_freq n)
                  && (0 <? note_to_freq (Some n) 8363)%float
                  && (negb (n <? 240)
                      || Leibniz.eqb (note_to_freq (Some (n + 16)) 8363)
                                     (2 * note_to_freq (Some n) 8363)%float)))
    ltac:(vm_compute; reflexivity) n Hn) as H.
  cbv beta in H. rewrite Hv in H. cbn [negb orb] in H.
  apply andb_prop in H. destruct H as [H H3].
  apply andb_prop in H. destruct H as [H1 H2].
  apply Leibniz.eqb_spec in H1.
  split; [exact H1 |]. split; [exact H2 |].
  intros Hlt. rewrite Hlt in H3. cbn [negb orb] in H3.
  apply Leibniz.eqb_spec in H3. exact H3.
Qed.

Lemma note_to_freq_default_range (n : Z) :
  0 <= n < 256 ->
  (0 <=? note_to_freq (Some n) 8363)%float = true
  /\ (note_to_freq (Some n) 8363 <=? 1011466.24)%float = true
  /\ (0 <=? note_to_freq (Some n) 8363 / float_of_int 44100)%float = true
  /\ (note_to_freq (Some n) 8363 / float_of_int 44100 <? 23)%float = true.
Proof.
  intros Hn.
  pose proof (note_bytes_forall
    (fun n => (0 <=? note_to_freq (Some n) 8363)%float
              && (note_to_freq (Some n) 8363 <=? 1011466.24)%float
              && (0 <=? note_to_freq (Some n) 8363 / float_of_int 44100)%float
              && (note_to_freq (Some n) 8363 / float_of_int 44100 <? 23)%float)
    ltac:(vm_compute; reflexivity) n Hn) as H.
  cbv beta in H.
  apply andb_prop in H. destruct H as [H H4].
  apply andb_prop in H. destruct H as [H H3].
  apply andb_prop in H. destruct H as [H1 H2].
  auto.
Qed.

(** * Sample bytes *)

Lemma store_sample_involutive (b : Z) :
  0 <= b < 256 -> store_sample (store_sample b) = b.
Proof.
  intros Hb. unfold store_sample. change 255 with (Z.ones 8).
  rewrite !Z.land_ones by lia. change (2 ^ 8) with 256.
  rewrite Z.add_mod_idemp_l by lia.
  replace (b + 128 + 128) with (b + 1 * 256) by lia.
  rewrite Z.mod_add by lia. apply Z.mod_small. exact Hb.
Qed.

Lemma store_sample_flips_top_bit (b : Z) :
  0 <= b < 256 -> store_sample b = Z.lxor b 128.
Proof.
  intros Hb.
  assert (H : forallb (fun b => store_sample b =? Z.lxor b 128) note_bytes = true)
    by (vm_compute; reflexivity).
  apply Z.eqb_eq. exact (note_bytes_forall _ H b Hb).
Qed.

(** * The WAV writer *)

Lemma le_bytes_length (n : nat) : forall v, List.length (le_bytes n v) = n.
Proof. induction n as [| n IH]; intros v; cbn [le_bytes List.length]; [| rewrite IH]; reflexivity. Qed.

Lemma le_bytes_bytes (n : nat) : forall v, Forall is_byte (le_bytes n v).
Proof.
  induction n as [| n IH]; intros v; cbn [le_bytes]; constructor; [| apply IH].
  unfold is_byte. apply Z.mod_pos_bound. lia.
Qed.

Lemma byte_val_bytes_of (z : Z) :
  0 <= z < 256 -> map byte_val (bytes_of [z]) = [z].
Proof.
  intros Hz. unfold bytes_of. cbn [map].
  destruct (Byte.of_N (Z.to_N z)) as [b |] eqn:E.
  - apply Byte.to_of_N in E. unfold byte_val. rewrite E. f_equal. lia.
  - apply Byte.of_N_None_iff in E. lia.
Qed.

Lemma le_uint_bytes_of (n : nat) :
  forall v, 0 <= v < 256 ^ Z.of_nat n -> le_uint (bytes_of (le_bytes n v)) = v.
Proof.
  induction n as [| n IH]; intros v Hv.
  - cbn in *. lia.
  - cbn [le_bytes]. change (bytes_of (v mod 256 :: le_bytes n (v / 256)))
      with (bytes_of [v mod 256] ++ bytes_of (le_bytes n (v / 256))).
    pose proof (byte_val_bytes_of (v mod 256) (Z.mod_pos_bound v 256 ltac:(lia))) as Hb.
    destruct (bytes_of [v mod 256]) as [| b [| ? ?]] eqn:Eb; try discriminate.
    cbn [map] in Hb. inversion Hb as [Hb']. cbn [app le_uint]. rewrite Hb'.
    rewrite IH.
    + pose proof (Z.div_mod v 256 ltac:(lia)). lia.
    + rewrite Nat2Z.inj_succ, Z.pow_succ_r in Hv by lia.
      split; [apply Z.div_pos; lia | apply Z.div_lt_upper_bound; lia].
Qed.

Lemma pack_uint_cases (n : nat) (v : Z) :
  (0 <= v < 256 ^ Z.of_nat n /\ pack_uint n v = OK (le_bytes n v))
  \/ (~ 0 <= v < 256 ^ Z.of_nat n /\ pack_uint n v = Raise struct_error).
Proof.
  unfold pack_uint.
  destruct (0 <=? v) eqn:A; destruct (v <? 256 ^ Z.of_nat n) eqn:B; zbool; cbn [andb];
    [left | right | right | right]; split; try reflexivity; lia.
Qed.

(** The header, outside the ranges of its fields and inside. *)
Lemma wav_header_cases (sample_rate num_samples : Z) :
  0 <= num_samples ->
  if (0 <=? sample_rate) && (sample_rate <? 2 ^ 32) && (num_samples + 36 <? 2 ^ 32)
  then wav_header sample_rate num_samples
       = OK ([82; 73; 70; 70] ++ le_bytes 4 (36 + num_samples)
             ++ [87; 65; 86; 69; 102; 109; 116; 32]
             ++ le_bytes 4 16 ++ le_bytes 2 1 ++ le_bytes 2 1
             ++ le_bytes 4 sample_rate ++ le_bytes 4 sample_rate
             ++ le_bytes 2 1 ++ le_bytes 2 8
             ++ [100; 97; 116; 97] ++ le_bytes 4 num_samples)
  else wav_header sample_rate num_samples = Raise struct_error.
Proof.
  intros Hn. unfold wav_header. cbn [pack].
  change (256 ^ Z.of_nat 4) with (2 ^ 32) in *.
  destruct (pack_uint_cases 4 (36 + num_samples)) as [[C1 E1] | [C1 E1]];
    destruct (pack_uint_cases 4 sample_rate) as [[C2 E2] | [C2 E2]];
    change (256 ^ Z.of_nat 4) with (2 ^ 32) in *;
    rewrite E1; cbn [bind].
  - replace ((0 <=? sample_rate) && (sample_rate <? 2 ^ 32)
             && (num_samples + 36 <? 2 ^ 32)) with true
      by (symmetry; rewrite !andb_true_iff; repeat split;
          [apply Z.leb_le | apply Z.ltb_lt | apply Z.ltb_lt]; lia).
    rewrite E2. cbn [bind].
    destruct (pack_uint_cases 4 num_samples) as [[C3 E3] | [C3 E3]];
      change (256 ^ Z.of_nat 4) with (2 ^ 32) in *; [| lia].
    rewrite E3. cbn [bind pack_uint Z.leb Z.ltb Z.compare andb Pos.compare
                     Pos.compare_cont Z.pow Z.pow_pos Pos.iter Z.mul Pos.mul Z.of_nat
                     Pos.of_succ_nat Pos.succ].
    rewrite !app_nil_r. rewrite <- !app_assoc. reflexivity.
  - replace ((0 <=? sample_rate) && (sample_rate <? 2 ^ 32)
             && (num_samples + 36 <? 2 ^ 32)) with false.
    + cbn [pack_uint Z.leb Z.ltb Z.compare andb Pos.compare
           Pos.compare_cont Z.pow Z.pow_pos Pos.iter Z.mul Pos.mul Z.of_nat
           Pos.of_succ_nat Pos.succ bind].
      rewrite E2. reflexivity.
    + symmetry. apply andb_false_iff. left.
      destruct (0 <=? sample_rate) eqn:A; destruct (sample_rate <? 2 ^ 32) eqn:B;
        zbool; cbn; try reflexivity; lia.
  - replace ((0 <=? sample_rate) && (sample_rate <? 2 ^ 32)
             && (num_samples + 36 <? 2 ^ 32)) with false; [reflexivity |].
    symmetry. apply andb_false_iff. right. apply Z.ltb_ge. lia.
  - replace ((0 <=? sample_rate) && (sample_rate <? 2 ^ 32)
             && (num_samples + 36 <? 2 ^ 32)) with false; [reflexivity |].
    symmetry. apply andb_false_iff. right. apply Z.ltb_ge. lia.
Qed.

Lemma wav_write_inv (sample_rate : Z) (audio : list Z) (f : list Z) :
  wav_write sample_rate audio = OK f ->
  0 <= sample_rate < 2 ^ 32 /\ len audio + 36 < 2 ^ 32
  /\ f = [82; 73; 70; 70] ++ le_bytes 4 (36 + len audio)
         ++ [87; 65; 86; 69; 102; 109; 116; 32]
         ++ le_bytes 4 16 ++ le_bytes 2 1 ++ le_bytes 2 1
         ++ le_bytes 4 sample_rate ++ le_bytes 4 sample_rate
         ++ le_bytes 2 1 ++ le_bytes 2 8
         ++ [100; 97; 116; 97] ++ le_bytes 4 (len audio) ++ audio.
Proof.
  unfold wav_write. intros H.
  pose proof (wav_header_cases sample_rate (len audio) (len_nonneg audio)) as C.
  destruct ((0 <=? sample_rate) && (sample_rate <? 2 ^ 32)
            && (len audio + 36 <? 2 ^ 32)) eqn:B.
  - rewrite C in H. cbn [bind] in H. inversion H.
    apply andb_prop in B. destruct B as [B B3].
    apply andb_prop in B. destruct B as [B1 B2]. zbool.
    split; [lia |]. split; [lia |].
    cbn [le_bytes app]. reflexivity.
  - rewrite C in H. discriminate.
Qed.

Lemma wav_write_fails (sample_rate : Z) (audio : list Z) :
  is_ok (wav_write sample_rate audio)
  = (0 <=? sample_rate) && (sample_rate <? 2 ^ 32) && (len audio + 36 <? 2 ^ 32)
  /\ (is_ok (wav_write sample_rate audio) = false ->
      wav_write sample_rate audio = Raise struct_error).
Proof.
  unfold wav_write.
  pose proof (wav_header_cases sample_rate (len audio) (len_nonneg audio)) as C.
  destruct ((0 <=? sample_rate) && (sample_rate <? 2 ^ 32)
            && (len audio + 36 <? 2 ^ 32)); rewrite C; cbn; auto.
  split; [reflexivity | discriminate].
Qed.

Lemma wav_write_layout (sample_rate : Z) (audio : list Z) (f : list Z) :
  wav_write sample_rate audio = OK f ->
  len f = 44 + len audio
  /\ skipn 44 f = audio
  /\ slice f 0 4 = [82; 73; 70; 70]
  /\ slice f 8 16 = [87; 65; 86; 69; 102; 109; 116; 32]
  /\ slice f 36 40 = [100; 97; 116; 97]
  /\ le_uint (bytes_of (slice f 4 8)) = len f - 8
  /\ le_uint (bytes_of (slice f 16 20)) = 16
  /\ le_uint (bytes_of (slice f 20 22)) = 1
  /\ le_uint (bytes_of (slice f 22 24)) = 1
  /\ le_uint (bytes_of (slice f 24 28)) = sample_rate
  /\ le_uint (bytes_of (slice f 28 32)) = sample_rate
  /\ le_uint (bytes_of (slice f 32 34)) = 1
  /\ le_uint (bytes_of (slice f 34 36)) = 8
  /\ le_uint (bytes_of (slice f 40 44)) = len audio.
Proof.
  intros H. destruct (wav_write_inv sample_rate audio f H) as [Hsr [Hn Hf]].
  pose proof (len_nonneg audio) as Hp.
  assert (Hlen : len f = 44 + len audio).
  { rewrite Hf. unfold len. rewrite !length_app, !le_bytes_length.
    cbn [List.length]. lia. }
  assert (R4 : forall v, 0 <= v < 2 ^ 32 ->
            le_uint (bytes_of [v mod 256; v / 256 mod 256; v / 256 / 256 mod 256;
                               v / 256 / 256 / 256 mod 256]) = v)
    by (intros v Hv; apply (le_uint_bytes_of 4 v); exact Hv).
  rewrite Hlen. subst f. cbn [le_bytes app].
  repeat split; try reflexivity.
  - replace (44 + len audio - 8) with (36 + len audio) by lia.
    apply R4. lia.
  - apply R4. lia.
  - apply R4. lia.
  - apply R4. lia.
Qed.

Lemma render_len (data : bytes) (parser : S3MParser) (out : list Z) :
  read_s3m data = OK parser -> render parser = OK out ->
  len out = valid_orders parser * 2116608.
Proof.
  intros Hparse Hrender.
  destruct (read_s3m_ok data parser Hparse) as [_ [Hpat [_ [Hsr [_ [Htempo Hspeed]]]]]].
  unfold render, render_with in Hrender.
  rewrite Hsr, Htempo, Hspeed in *.
  change (125 * 4 / 60) with 8 in *. change (44100 / 8) with 5512 in *.
  cbn [Z.eqb bind] in Hrender.
  inv_bind Hrender. destruct a as [output st]. cbn beta iota zeta in Hrender.
  inversion Hrender. subst.
  apply render_orders_length in E; [| assumption].
  unfold valid_orders. unfold len at 1 2. rewrite E.
  change (Z.to_nat (6 * 5512)) with (Z.to_nat 33072). lia.
Qed.

Lemma convert_inv (data : bytes) (f : list Z) :
  convert_s3m_to_wav data = OK f ->
  exists parser audio,
    read_s3m data = OK parser /\ render parser = OK audio
    /\ wav_write 44100 audio = OK f
    /\ len f = 44 + valid_orders parser * 2116608
    /\ valid_orders parser <= 2029.
Proof.
  unfold convert_s3m_to_wav. intros H. inv_bind H. inv_bind H.
  exists a, a0. split; [exact E |]. split; [exact E0 |]. split; [exact H |].
  pose proof (render_len data a a0 E E0) as Hl.
  destruct (wav_write_inv 44100 a0 f H) as [_ [Hn _]].
  destruct (wav_write_layout 44100 a0 f H) as [Hf _].
  split; lia.
Qed.

Lemma convert_too_long (data : bytes) (parser : S3MParser) (audio : list Z) :
  read_s3m data = OK parser -> render parser = OK audio ->
  2030 <= valid_orders parser ->
  convert_s3m_to_wav data = Raise struct_error.
Proof.
  intros Hp Hr Hv. unfold convert_s3m_to_wav. rewrite Hp. cbn [bind].
  rewrite Hr. cbn [bind].
  pose proof (render_len data parser audio Hp Hr) as Hl.
  destruct (wav_write_fails 44100 audio) as [Hok Hraise].
  apply Hraise. rewrite Hok.
  replace (len audio + 36 <? 2 ^ 32) with false by (symmetry; apply Z.ltb_ge; lia).
  apply andb_false_r.
Qed.

Lemma convert_cases (data : bytes) (parser : S3MParser) (audio : list Z) :
  read_s3m data = OK parser -> render parser = OK audio ->
  if valid_orders parser <=? 2029
  then convert_s3m_to_wav data = wav_write 44100 audio
       /\ is_ok (convert_s3m_to_wav data) = true
  else convert_s3m_to_wav data = Raise struct_error.
Proof.
  intros Hp Hr. pose proof (render_len data parser audio Hp Hr) as Hl.
  destruct (valid_orders parser <=? 2029) eqn:B; zbool.
  - unfold convert_s3m_to_wav. rewrite Hp. cbn [bind]. rewrite Hr. cbn [bind].
    split; [reflexivity |].
    destruct (wav_write_fails 44100 audio) as [Hok _]. rewrite Hok.
    replace (len audio + 36 <? 2 ^ 32) with true by (symmetry; apply Z.ltb_lt; lia).
    reflexivity.
  - apply (convert_too_long data parser audio Hp Hr). lia.
Qed.

(** *** The inputs *)

Lemma quiet_parses : read_s3m quiet_file = OK quiet_parser.
Proof. apply is_ok_value. vm_compute. reflexivity. Qed.

Lemma long_parses : read_s3m long_file = OK long_parser.
Proof. apply is_ok_value. vm_compute. reflexivity. Qed.

Lemma long_renders :
  render long_parser = OK (repeat 128 (Z.to_nat (valid_orders long_parser * 2116608))).
Proof.
  apply (render_without_instruments long_file long_parser long_parses).
  vm_compute. reflexivity.
Qed.

Lemma song_converts : is_ok (convert_s3m_to_wav song_file) = true.
Proof.
  pose proof (convert_cases song_file song_parser _ song_parses
                (is_ok_value [] _ song_renders)) as C.
  replace (valid_orders song_parser <=? 2029) with true in C
    by (vm_compute; reflexivity).
  exact (proj2 C).
Qed.

(** * Further properties, by function *)

(** X1: the order list of a parsed module is the [num_orders] bytes that
    follow the 96-byte header, and the three counts are the 16-bit
    little-endian values at offsets 28, 30 and 32. *)
Theorem parsed_orders (data : bytes) (parser : S3MParser) :
  read_s3m data = OK parser ->
  orders parser = map byte_val (slice data 96 (96 + num_orders parser))
  /\ len (orders parser) = num_orders parser
  /\ num_orders parser = le_uint (slice data 28 30)
  /\ num_instruments parser = le_uint (slice data 30 32)
  /\ num_patterns parser = le_uint (slice data 32 34)
  /\ 0 <= num_orders parser < 65536
  /\ 0 <= num_instruments parser < 65536
  /\ 0 <= num_patterns parser < 65536.
Proof. exact (read_s3m_counts data parser). Qed.

Lemma parsed_orders_witness :
  orders song_parser = map byte_val (slice song_file 96 (96 + num_orders song_parser))
  /\ len (orders song_parser) = num_orders song_parser
  /\ num_orders song_parser = le_uint (slice song_file 28 30)
  /\ num_instruments song_parser = le_uint (slice song_file 30 32)
  /\ num_patterns song_parser = le_uint (slice song_file 32 34)
  /\ 0 <= num_orders song_parser < 65536
  /\ 0 <= num_instruments song_parser < 65536
  /\ 0 <= num_patterns song_parser < 65536.
Proof. exact (parsed_orders song_file song_parser song_parses). Defined.

(** X2: the instruments of a parsed module are what the instrument loop
    keeps of the [num_instruments] 16-bit pointers at offsets
    [96 + num_orders + 2k], in that order, and its patterns what the
    pattern loop keeps of the [num_patterns] pointers at offsets
    [96 + num_orders + 2 num_instruments + 2k]. *)
Theorem parsed_pointer_tables (data : bytes) (parser : S3MParser) :
  read_s3m data = OK parser ->
  instruments parser
  = kept (parse_instrument data)
      (map (fun k => le_uint (slice data (96 + num_orders parser + 2 * k)
                                         (96 + num_orders parser + 2 * k + 2)))
           (range (num_instruments parser)))
  /\ patterns parser
     = kept (parse_pattern 32 data)
         (map (fun k => le_uint (slice data
                 (96 + num_orders parser + 2 * num_instruments parser + 2 * k)
                 (96 + num_orders parser + 2 * num_instruments parser + 2 * k + 2)))
              (range (num_patterns parser))).
Proof. exact (read_s3m_from_tables data parser). Qed.

Lemma parsed_pointer_tables_witness :
  instruments song_parser
  = kept (parse_instrument song_file)
      (map (fun k => le_uint (slice song_file (96 + num_orders song_parser + 2 * k)
                                              (96 + num_orders song_parser + 2 * k + 2)))
           (range (num_instruments song_parser)))
  /\ patterns song_parser
     = kept (parse_pattern 32 song_file)
         (map (fun k => le_uint (slice song_file
                 (96 + num_orders song_parser + 2 * num_instruments song_parser + 2 * k)
                 (96 + num_orders song_parser + 2 * num_instruments song_parser
                  + 2 * k + 2)))
              (range (num_patterns song_parser))).
Proof. exact (parsed_pointer_tables song_file song_parser song_parses). Defined.

(** X3: the instrument list of a parsed module holds, in the order of the
    pointer table, the instruments of the pointers whose record was kept,
    and nothing for a skipped pointer; the same for the patterns.  So there
    are at most [num_instruments] instruments and [num_patterns] patterns. *)
Theorem parsed_units_kept (data : bytes) (parser : S3MParser) :
  read_s3m data = OK parser ->
  instruments parser = kept (parse_instrument data) (instrument_pointers data parser)
  /\ patterns parser = kept (parse_pattern 32 data) (pattern_pointers data parser)
  /\ len (instruments parser) <= num_instruments parser
  /\ len (patterns parser) <= num_patterns parser.
Proof. exact (read_s3m_kept data parser). Qed.

Lemma parsed_units_kept_witness :
  instruments song_parser
  = kept (parse_instrument song_file) (instrument_pointers song_file song_parser)
  /\ patterns song_parser
     = kept (parse_pattern 32 song_file) (pattern_pointers song_file song_parser)
  /\ len (instruments song_parser) <= num_instruments song_parser
  /\ len (patterns song_parser) <= num_patterns song_parser.
Proof. exact (parsed_units_kept song_file song_parser song_parses). Defined.



(** X4: the layout of a kept instrument record at byte offset [16 * ptr]:
    type byte 1, the name in bytes 1-12, the sample pointer (in paragraphs)
    in bytes 13-16, the length in 17-18, the loop bounds in 19-20 and
    21-22, the volume in byte 23; the sample lies within the file and is
    stored byte by byte in the unsigned convention. *)
Theorem parse_instrument_layout (data : bytes) (ptr : Z) (inst : Instrument) :
  0 <= ptr ->
  parse_instrument data ptr = OK (Some inst) ->
  let off := ptr * 16 in
  let sample_ptr := le_uint (slice data (off + 13) (off + 17)) * 16 in
  off + 24 <= len data
  /\ byte_at data off = OK 1
  /\ inst_name inst = decode_ascii (slice data (off + 1) (off + 13))
  /\ inst_length inst = le_uint (slice data (off + 17) (off + 19))
  /\ inst_loop_begin inst = le_uint (slice data (off + 19) (off + 21))
  /\ inst_loop_end inst = le_uint (slice data (off + 21) (off + 23))
  /\ inst_volume inst = (inject_Z (le_uint (slice data (off + 23) (off + 24))) / 64)%Q
  /\ sample_ptr + inst_length inst <= len data
  /\ inst_sample inst
     = map (fun b => store_sample (byte_val b))
           (slice data sample_ptr (sample_ptr + inst_length inst)).
Proof. exact (parse_instrument_some data ptr inst). Qed.

Lemma parse_instrument_layout_witness :
  exists inst,
    parse_instrument skipped_instrument_file 9 = OK (Some inst)
    /\ inst_length inst = le_uint (slice skipped_instrument_file (9 * 16 + 17) (9 * 16 + 19))
    /\ inst_name inst = [66].
Proof.
  pose (inst := match parse_instrument skipped_instrument_file 9 with
                | OK (Some i) => i
                | _ => mkInstrument [] [] 0 0 0 0
                end).
  assert (H : parse_instrument skipped_instrument_file 9 = OK (Some inst))
    by (vm_compute; reflexivity).
  exists inst. split; [exact H |].
  destruct (parse_instrument_layout skipped_instrument_file 9 inst ltac:(lia) H)
    as [_ [_ [_ [Hl _]]]].
  split; [exact Hl | vm_compute; reflexivity].
Defined.

(** X5: every instrument of a parsed module has exactly [length] sample
    bytes, each a byte; its length and loop bounds are 16-bit values (the
    loop bounds are not compared with the length); its volume is a byte
    over 64, so up to 255/64; its name has at most 12 characters. *)
Theorem parsed_instruments_sound (data : bytes) (parser : S3MParser) :
  read_s3m data = OK parser ->
  Forall (fun inst =>
            len (inst_sample inst) = inst_length inst
            /\ Forall is_byte (inst_sample inst)
            /\ 0 <= inst_length inst < 65536
            /\ 0 <= inst_loop_begin inst < 65536
            /\ 0 <= inst_loop_end inst < 65536
            /\ (exists v, is_byte v /\ inst_volume inst = (inject_Z v / 64)%Q)
            /\ len (inst_name inst) <= 12)
         (instruments parser).
Proof. exact (read_s3m_instruments data parser). Qed.

Lemma parsed_instruments_sound_witness :
  Forall (fun inst =>
            len (inst_sample inst) = inst_length inst
            /\ Forall is_byte (inst_sample inst)
            /\ 0 <= inst_length inst < 65536
            /\ 0 <= inst_loop_begin inst < 65536
            /\ 0 <= inst_loop_end inst < 65536
            /\ (exists v, is_byte v /\ inst_volume inst = (inject_Z v / 64)%Q)
            /\ len (inst_name inst) <= 12)
         (instruments song_parser).
Proof. exact (parsed_instruments_sound song_file song_parser song_parses). Defined.

(** X6: every pattern of a parsed module has 64 rows of 32 slots, and in
    every event the fields that are present are bytes; the note and the
    instrument are present together or absent together. *)
Theorem parsed_patterns_sound (data : bytes) (parser : S3MParser) :
  read_s3m data = OK parser ->
  Forall (fun pattern =>
            List.length pattern = 64%nat
            /\ Forall (fun row : Row => List.length row = 32%nat /\ Forall slot_wf row)
                      pattern)
         (patterns parser).
Proof.
  intros H. destruct (read_s3m_ok data parser H) as [_ [Hshape _]].
  pose proof (read_s3m_events data parser H) as Hev.
  rewrite Forall_forall in *. intros pattern Hin.
  destruct (Hshape pattern Hin) as [H64 Hrows]. split; [exact H64 |].
  specialize (Hev pattern Hin). rewrite Forall_forall in *.
  intros row Hrow. split; [apply (Hrows row Hrow) | apply (Hev row Hrow)].
Qed.

Lemma parsed_patterns_sound_witness :
  Forall (fun pattern =>
            List.length pattern = 64%nat
            /\ Forall (fun row : Row => List.length row = 32%nat /\ Forall slot_wf row)
                      pattern)
         (patterns song_parser).
Proof. exact (parsed_patterns_sound song_file song_parser song_parses). Defined.

(** X7: which exception the parser raises: "File too small to be a valid
    S3M" under 96 bytes; else "Order list exceeds file size" when the order
    list ends past the buffer; else "Pattern pointers exceed file size"
    when the pattern pointer table does; else it returns.  The "Invalid S3M
    header" exception of line 54 is never raised. *)
Theorem read_s3m_exception (data : bytes) :
  match parse_error data with
  | Some msg => read_s3m data = Raise (Exception msg)
  | None => exists parser, read_s3m data = OK parser
  end.
Proof. exact (read_s3m_error data). Qed.

(** X8: once the packed stream is used up, every further row of the
    pattern is empty; a pattern whose packed length is 0 is 64 empty
    rows. *)
Theorem rows_after_stream_are_empty (n : nat) (chans : Z) (pd : bytes) (i : Z) :
  len pd <= i -> decode_rows n chans pd i = OK (repeat (empty_row chans) n).
Proof. exact (decode_rows_exhausted n chans pd i). Qed.

Lemma rows_after_stream_are_empty_witness :
  decode_rows 64 32 [] 0 = OK (repeat (empty_row 32) 64).
Proof.
  apply (rows_after_stream_are_empty 64 32 [] 0). unfold len. simpl. lia.
Defined.

(** X9: the stream "what, note, instrument, 0", where the what byte has
    bit 5 set and bits 6 and 7 clear, decodes to one event, with that note
    and instrument and no volume or effect, on channel [what & 31] of row
    0; every other slot of the pattern is empty. *)
Theorem single_event_stream (w n k : byte) :
  Z.land (byte_val w) 32 <> 0 ->
  Z.land (byte_val w) 64 = 0 ->
  Z.land (byte_val w) 128 = 0 ->
  exists row0,
    decode_rows 64 32 [w; n; k; x00] 0 = OK (row0 :: repeat (empty_row 32) 63)
    /\ nth_error row0 (Z.to_nat (Z.land (byte_val w) 31))
       = Some (Some (mkEvent (Some (byte_val n)) (Some (byte_val k)) None None))
    /\ forall c, c <> Z.to_nat (Z.land (byte_val w) 31) ->
                 nth_error row0 c = nth_error (empty_row 32) c.
Proof. exact (decode_single_event w n k). Qed.

Lemma single_event_stream_witness :
  exists row0,
    decode_rows 64 32 [x23; x40; x01; x00] 0 = OK (row0 :: repeat (empty_row 32) 63)
    /\ nth_error row0 3 = Some (Some (mkEvent (Some 64) (Some 1) None None))
    /\ forall c, c <> 3%nat -> nth_error row0 c = nth_error (empty_row 32) c.
Proof.
  apply (single_event_stream x23 x40 x01); vm_compute; congruence.
Defined.

(** X10: the title of a parsed module has at most 28 characters, all
    ASCII, and does not end with a NUL. *)
Theorem parsed_title (data : bytes) (parser : S3MParser) :
  read_s3m data = OK parser ->
  len (title parser) <= 28
  /\ Forall (fun c => 0 <= c < 128) (title parser)
  /\ last (title parser) 1 <> 0.
Proof. exact (read_s3m_title data parser). Qed.

Lemma parsed_title_witness :
  len (title song_parser) <= 28
  /\ Forall (fun c => 0 <= c < 128) (title song_parser)
  /\ last (title song_parser) 1 <> 0.
Proof. exact (parsed_title song_file song_parser song_parses). Defined.

(** ** [S3MRenderer.render] *)

(** X11: every sample the renderer returns is a byte, so that
    [bytes(output)] at the end of [render] cannot raise. *)
Theorem render_output_is_bytes (parser : S3MParser) (out : list Z) :
  render parser = OK out -> Forall is_byte out.
Proof. exact (render_bytes parser out). Qed.

Lemma render_output_is_bytes_witness :
  render song_parser = OK (value [] (render song_parser))
  /\ Forall is_byte (value [] (render song_parser)).
Proof.
  split; [exact (is_ok_value [] _ song_renders) |].
  exact (render_output_is_bytes song_parser _ (is_ok_value [] _ song_renders)).
Defined.

(** X12: a note other than key-off whose instrument number [k] is between
    1 and the number of instruments starts instrument [k - 1] on its
    channel: position 0, increment the note's frequency at 8363 Hz over
    the sample rate, the event's volume over 64 or else the instrument's
    volume, playing.  Every other channel stays as it is. *)
Theorem note_on_sets_channel (parser : S3MParser) (states : list ChannelState) (ch : Z)
    (event : Event) (note k : Z) (inst : Instrument) (st : ChannelState) :
  ev_note event = Some note -> note <> 254 ->
  ev_instrument event = Some k -> 1 <= k <= len (instruments parser) ->
  nth_error (instruments parser) (Z.to_nat (k - 1)) = Some inst ->
  sample_rate parser <> 0 ->
  0 <= ch -> nth_error states (Z.to_nat ch) = Some st ->
  exists states',
    trigger parser states ch (Some event) = OK states'
    /\ nth_error states' (Z.to_nat ch)
       = Some (mkState 0 (note_to_freq (Some note) 8363
                          / float_of_int (sample_rate parser))%float
                       (match ev_volume event with
                        | Some v => (inject_Z v / 64)%Q
                        | None => inst_volume inst
                        end)
                       true (Some inst))
    /\ (forall ch', ch' <> Z.to_nat ch -> nth_error states' ch' = nth_error states ch')
    /\ List.length states' = List.length states.
Proof. exact (trigger_resolved parser states ch event note k inst st). Qed.

Lemma note_on_sets_channel_witness :
  exists states',
    trigger song_parser (init_channel_states song_parser) 0
      (Some (mkEvent (Some 64) (Some 1) None None)) = OK states'
    /\ List.length states' = 32%nat.
Proof.
  destruct (note_on_sets_channel song_parser (init_channel_states song_parser) 0
              (mkEvent (Some 64) (Some 1) None None) 64 1
              (hd looping_instrument (instruments song_parser)) initial_state)
    as [states' [H1 [_ [_ H4]]]].
  - reflexivity.
  - discriminate.
  - reflexivity.
  - vm_compute. split; discriminate.
  - vm_compute. reflexivity.
  - vm_compute. discriminate.
  - lia.
  - vm_compute. reflexivity.
  - exists states'. split; [exact H1 |]. rewrite H4. vm_compute. reflexivity.
Defined.

(** X13: a row none of whose events has a note leaves every channel as it
    is: a volume or an effect without a note does nothing. *)
Theorem row_without_notes_changes_nothing (parser : S3MParser) (row : Row) :
  Forall (fun slot => match slot with
                      | Some event => ev_note event = None
                      | None => True
                      end) row ->
  forall states ch, trigger_row parser states ch row = OK states.
Proof. exact (trigger_row_noteless parser row). Qed.

Lemma row_without_notes_changes_nothing_witness :
  trigger_row song_parser (init_channel_states song_parser) 0
    [Some (mkEvent None None (Some 30) (Some (4, 2))); None]
  = OK (init_channel_states song_parser).
Proof.
  apply (row_without_notes_changes_nothing song_parser).
  repeat constructor.
Defined.

(** X14: mixing one output sample keeps the length of the channel list
    and, on every channel, the instrument, the volume and the increment;
    a position stays or moves on by the increment; no channel starts to
    play, and a channel that is not playing is not touched. *)
Theorem mixing_keeps_channel_settings (n : nat) (states states' : list ChannelState)
    (sample sample' : Q) :
  mix_channels n states sample = OK (sample', states') ->
  Forall2 mix_frame states states'.
Proof. exact (mix_channels_frame n states states' sample sample'). Qed.

Lemma mixing_keeps_channel_settings_witness :
  Forall2 mix_frame [looping_state; initial_state]
    (snd (value (0%Q, []) (mix_channels 2 [looping_state; initial_state] 0))).
Proof.
  apply (mixing_keeps_channel_settings 2 _ _ 0
           (fst (value (0%Q, []) (mix_channels 2 [looping_state; initial_state] 0)))).
  rewrite <- surjective_pairing. apply is_ok_value. vm_compute. reflexivity.
Defined.

(** X15: in a state of the renderer (a volume of a byte over 64, an
    instrument as the parser builds them, the sum so far that of up to 31
    channels) a playing channel whose position has reached the
    instrument's length, with a loop that begins at 0 or later and ends
    within the length, reads the byte at
    [loop_begin + (pos - loop_end) mod (loop_end - loop_begin)], a position
    inside the loop, adds its recentred value times the volume to the sum,
    and moves on by the increment; the new sum is a multiple of 1/64
    within the bound of 32 channels. *)
Theorem loop_read_within_sample (sample : Q) (st : ChannelState) (inst : Instrument)
    (pos : Z) :
  state_ok st -> sum64 (31 * 32640) sample ->
  playing st = true -> instrument st = Some inst ->
  int_of_float (sample_pos st) = OK pos ->
  inst_length inst <= pos ->
  0 <= inst_loop_begin inst < inst_loop_end inst ->
  inst_loop_end inst <= inst_length inst ->
  let wrapped := inst_loop_begin inst
                 + (pos - inst_loop_end inst)
                   mod (inst_loop_end inst - inst_loop_begin inst) in
  inst_loop_begin inst <= wrapped < inst_loop_end inst
  /\ exists b,
       nth_error (inst_sample inst) (Z.to_nat wrapped) = Some b
       /\ mix_channel sample st
          = OK ((sample + inject_Z (recenter b) * volume st)%Q,
                mkState (sample_pos st + increment st)%float (increment st) (volume st)
                        true (Some inst))
       /\ sum64 (32 * 32640) (sample + inject_Z (recenter b) * volume st)%Q.
Proof. exact (mix_channel_loops_ok sample st inst pos). Qed.

Lemma loop_read_within_sample_witness :
  state_ok wrapping_state
  /\ exists b,
       nth_error [10; 20; 30; 40] 1 = Some b
       /\ mix_channel 0 wrapping_state
          = OK ((0 + inject_Z (recenter b) * 1)%Q,
                mkState (5 + 1)%float 1 1 true (Some wrapping_instrument))
       /\ sum64 (32 * 32640) (0 + inject_Z (recenter b) * 1)%Q.
Proof.
  assert (Hv : vol64 1) by (exists 64; split; [lia | reflexivity]).
  assert (Hst : state_ok wrapping_state).
  { split; [exact Hv |]. intros inst Hi. injection Hi as <-.
    split; [exact Hv |]. split; [| reflexivity].
    repeat constructor; cbn; lia. }
  split; [exact Hst |].
  exact (proj2 (loop_read_within_sample 0 wrapping_state wrapping_instrument 5
                  Hst (sum64_weaken 0 (31 * 32640) 0 ltac:(lia) sum64_zero) eq_refl eq_refl eq_refl
                  ltac:(cbn; lia) ltac:(cbn; lia) ltac:(cbn; lia))).
Defined.

(** X16: an order that names no pattern (a marker such as 255, or any
    number from the count of parsed patterns on) is skipped: the orders
    render as the orders that name a pattern do. *)
Theorem invalid_orders_are_skipped (to_pcm : Q -> Z) (parser : S3MParser)
    (row_samples : Z) (ords : list Z) (states : list ChannelState) :
  render_orders to_pcm parser row_samples ords states
  = render_orders to_pcm parser row_samples
      (filter (fun order => order <? len (patterns parser)) ords) states.
Proof. exact (render_orders_valid to_pcm parser row_samples ords states). Qed.

(** X17: the orders are rendered one after the other: the samples of
    [o1 ++ o2] are those of [o1] followed by those of [o2] rendered from
    the channel states [o1] leaves, and a failure in either is the failure
    of the whole. *)
Theorem render_orders_concat (to_pcm : Q -> Z) (parser : S3MParser) (row_samples : Z)
    (o1 o2 : list Z) (states : list ChannelState) :
  render_orders to_pcm parser row_samples (o1 ++ o2) states
  = ('(out1, st1) <- render_orders to_pcm parser row_samples o1 states ;;
     '(out2, st2) <- render_orders to_pcm parser row_samples o2 st1 ;;
     OK (out1 ++ out2, st2)).
Proof. exact (render_orders_app to_pcm parser row_samples o1 o2 states). Qed.

(** X18: a parsed module whose patterns start nothing (every slot is
    empty, has no note, is a key-off, or names instrument 0 or an
    instrument past the list) renders to silence: 2116608 samples of 128
    for each order that names a pattern. *)
Theorem module_that_starts_nothing_is_silent (data : bytes) (parser : S3MParser) :
  read_s3m data = OK parser ->
  forallb (forallb (forallb (inert parser))) (patterns parser) = true ->
  render parser = OK (repeat 128 (Z.to_nat (valid_orders parser * 2116608))).
Proof. exact (render_inert data parser). Qed.

Lemma module_that_starts_nothing_is_silent_witness :
  read_s3m quiet_file = OK quiet_parser
  /\ render quiet_parser = OK (repeat 128 (Z.to_nat (valid_orders quiet_parser * 2116608))).
Proof.
  split; [exact quiet_parses |].
  apply (module_that_starts_nothing_is_silent quiet_file quiet_parser quiet_parses).
  vm_compute. reflexivity.
Defined.

(** X19: a parsed module without instruments renders to silence, whatever
    its patterns hold. *)
Theorem module_without_instruments_is_silent (data : bytes) (parser : S3MParser) :
  read_s3m data = OK parser ->
  instruments parser = [] ->
  render parser = OK (repeat 128 (Z.to_nat (valid_orders parser * 2116608))).
Proof. exact (render_without_instruments data parser). Qed.

Lemma module_without_instruments_is_silent_witness :
  read_s3m truncated_pattern_file
  = OK (value empty_parser (read_s3m truncated_pattern_file))
  /\ render (value empty_parser (read_s3m truncated_pattern_file))
     = OK (repeat 128
             (Z.to_nat (valid_orders (value empty_parser (read_s3m truncated_pattern_file))
                        * 2116608))).
Proof.
  assert (H : read_s3m truncated_pattern_file
              = OK (value empty_parser (read_s3m truncated_pattern_file)))
    by (apply is_ok_value; vm_compute; reflexivity).
  split; [exact H |].
  apply (module_without_instruments_is_silent truncated_pattern_file _ H).
  vm_compute. reflexivity.
Defined.

(** X20: when every instrument of a parsed module has its loop, if it has
    one, end within its length, rendering never indexes outside a sample
    and never divides by zero: it returns, or raises the [OverflowError]
    of [int] on an infinite position. *)
Theorem render_stays_within_samples (data : bytes) (parser : S3MParser) :
  read_s3m data = OK parser ->
  forallb loop_in_sample (instruments parser) = true ->
  (exists out, render parser = OK out) \/ render parser = Raise OverflowError.
Proof.
  intros H Hloop. destruct (render parser) as [out | e] eqn:E.
  - left. exists out. reflexivity.
  - right. f_equal. exact (render_only_overflows data parser e H Hloop E).
Qed.

Lemma render_stays_within_samples_witness :
  read_s3m song_file = OK song_parser
  /\ forallb loop_in_sample (instruments song_parser) = true
  /\ ((exists out, render song_parser = OK out)
      \/ render song_parser = Raise OverflowError).
Proof.
  split; [exact song_parses |].
  split; [vm_compute; reflexivity |].
  apply (render_stays_within_samples song_file song_parser song_parses).
  vm_compute. reflexivity.
Defined.

(** ** [S3MRenderer.note_to_freq] *)

(** X21: with the default [c2spd] of 8363 the scaling by [c2spd / 8363]
    changes nothing: a note with a semitone below 12 has exactly its table
    frequency times two to the octave minus 4, which is positive, and the
    same semitone one octave up has exactly twice the frequency. *)
Theorem default_tuning_is_table_frequency (n : Z) :
  0 <= n < 256 ->
  (Z.land n 15 <? 12) = true ->
  note_to_freq (Some n) 8363 = base_freq n
  /\ (0 <? note_to_freq (Some n) 8363)%float = true
  /\ ((n <? 240) = true ->
      note_to_freq (Some (n + 16)) 8363 = (2 * note_to_freq (Some n) 8363)%float).
Proof. exact (note_to_freq_default_facts n). Qed.

Lemma default_tuning_is_table_frequency_witness :
  note_to_freq (Some 73) 8363 = base_freq 73
  /\ (0 <? note_to_freq (Some 73%Z) 8363)%float = true
  /\ ((73 <? 240) = true ->
      note_to_freq (Some (73 + 16)) 8363 = (2 * note_to_freq (Some 73%Z) 8363)%float).
Proof.
  apply (default_tuning_is_table_frequency 73); [lia | reflexivity].
Defined.

(** X22: for every note byte the frequency at the default [c2spd] lies
    between 0 and 1011466.24 Hz, so the increment the renderer derives
    from it at 44100 Hz is at least 0 and below 23 sample bytes per output
    sample. *)
Theorem default_frequency_range (n : Z) :
  0 <= n < 256 ->
  (0 <=? note_to_freq (Some n) 8363)%float = true
  /\ (note_to_freq (Some n) 8363 <=? 1011466.24)%float = true
  /\ (0 <=? note_to_freq (Some n) 8363 / float_of_int 44100)%float = true
  /\ (note_to_freq (Some n) 8363 / float_of_int 44100 <? 23)%float = true.
Proof. exact (note_to_freq_default_range n). Qed.

Lemma default_frequency_range_witness :
  (0 <=? note_to_freq (Some 251%Z) 8363)%float = true
  /\ (note_to_freq (Some 251%Z) 8363 <=? 1011466.24)%float = true
  /\ (0 <=? note_to_freq (Some 251%Z) 8363 / float_of_int 44100)%float = true
  /\ (note_to_freq (Some 251%Z) 8363 / float_of_int 44100 <? 23)%float = true.
Proof. apply (default_frequency_range 251). lia. Defined.

(** ** Sample bytes *)

(** X23: storing a sample byte, [(b + 128) & 0xFF], flips its top bit and
    leaves the other seven; applied twice it gives the byte back, so no
    two file bytes are stored as the same sample byte. *)
Theorem store_sample_flips_sign_bit (b : Z) :
  0 <= b < 256 ->
  store_sample b = Z.lxor b 128
  /\ store_sample (store_sample b) = b.
Proof.
  intros Hb. split.
  - exact (store_sample_flips_top_bit b Hb).
  - exact (store_sample_involutive b Hb).
Qed.

Lemma store_sample_flips_sign_bit_witness :
  store_sample 200 = Z.lxor 200 128 /\ store_sample (store_sample 200) = 200.
Proof. apply (store_sample_flips_sign_bit 200). lia. Defined.

(** ** [WAVWriter.write] *)

(** X24: building the header succeeds exactly when the sample rate is
    within 0..2^32-1 and the audio data has fewer than 2^32 - 36 bytes;
    otherwise [struct.pack] raises [struct.error], before the file is
    opened. *)
Theorem wav_write_succeeds_iff (sample_rate : Z) (audio : list Z) :
  is_ok (wav_write sample_rate audio)
  = (0 <=? sample_rate) && (sample_rate <? 2 ^ 32) && (len audio + 36 <? 2 ^ 32)
  /\ (is_ok (wav_write sample_rate audio) = false ->
      wav_write sample_rate audio = Raise struct_error).
Proof. exact (wav_write_fails sample_rate audio). Qed.

(** X25: the bytes written are a 44-byte header followed by the audio data
    unchanged.  The header holds "RIFF", the file length minus 8,
    "WAVEfmt ", the chunk length 16, format 1 (PCM), 1 channel, the sample
    rate, the byte rate (again the sample rate), block alignment 1, 8 bits
    per sample, "data" and the number of audio bytes; each number reads
    back from its little-endian field. *)
Theorem wav_file_layout (sample_rate : Z) (audio : list Z) (f : list Z) :
  wav_write sample_rate audio = OK f ->
  len f = 44 + len audio
  /\ skipn 44 f = audio
  /\ slice f 0 4 = [82; 73; 70; 70]
  /\ slice f 8 16 = [87; 65; 86; 69; 102; 109; 116; 32]
  /\ slice f 36 40 = [100; 97; 116; 97]
  /\ le_uint (bytes_of (slice f 4 8)) = len f - 8
  /\ le_uint (bytes_of (slice f 16 20)) = 16
  /\ le_uint (bytes_of (slice f 20 22)) = 1
  /\ le_uint (bytes_of (slice f 22 24)) = 1
  /\ le_uint (bytes_of (slice f 24 28)) = sample_rate
  /\ le_uint (bytes_of (slice f 28 32)) = sample_rate
  /\ le_uint (bytes_of (slice f 32 34)) = 1
  /\ le_uint (bytes_of (slice f 34 36)) = 8
  /\ le_uint (bytes_of (slice f 40 44)) = len audio.
Proof. exact (wav_write_layout sample_rate audio f). Qed.

Lemma wav_file_layout_witness :
  len (value [] (wav_write 22050 [128; 255; 0])) = 44 + len [128; 255; 0]
  /\ skipn 44 (value [] (wav_write 22050 [128; 255; 0])) = [128; 255; 0].
Proof.
  destruct (wav_file_layout 22050 [128; 255; 0] (value [] (wav_write 22050 [128; 255; 0])))
    as [H1 [H2 _]].
  - apply is_ok_value. vm_compute. reflexivity.
  - split; [exact H1 | exact H2].
Defined.

(** ** [convert_s3m_to_wav] *)

(** X26: when the conversion succeeds, the module was parsed and rendered,
    and the WAV bytes are the 44-byte header and then the rendered audio:
    44 + 2116608 bytes for each order that names a pattern, at most 2029
    such orders, with 44100 in the sample-rate field. *)
Theorem converted_file (data : bytes) (f : list Z) :
  convert_s3m_to_wav data = OK f ->
  exists parser audio,
    read_s3m data = OK parser
    /\ render parser = OK audio
    /\ skipn 44 f = audio
    /\ len f = 44 + valid_orders parser * 2116608
    /\ valid_orders parser <= 2029
    /\ le_uint (bytes_of (slice f 24 28)) = 44100.
Proof.
  intros H.
  destruct (convert_inv data f H) as [parser [audio [Hp [Hr [Hw [Hl Hv]]]]]].
  exists parser, audio.
  pose proof (wav_write_layout 44100 audio f Hw) as L.
  repeat split; try assumption; apply L.
Qed.

Lemma converted_file_witness :
  exists parser audio,
    read_s3m song_file = OK parser
    /\ render parser = OK audio
    /\ skipn 44 (value [] (convert_s3m_to_wav song_file)) = audio
    /\ len (value [] (convert_s3m_to_wav song_file)) = 44 + valid_orders parser * 2116608
    /\ valid_orders parser <= 2029
    /\ le_uint (bytes_of (slice (value [] (convert_s3m_to_wav song_file)) 24 28)) = 44100.
Proof.
  exact (converted_file song_file _ (is_ok_value [] _ song_converts)).
Defined.

(** X27: a module that parses and renders converts exactly when at most
    2029 of its orders name a pattern.  From 2030 on the audio has 2^32 -
    36 bytes or more, the chunk size no longer fits the header's 32-bit
    field and the conversion ends with [struct.error] after the module
    has been rendered. *)
Theorem convert_size_limit (data : bytes) (parser : S3MParser) (audio : list Z) :
  read_s3m data = OK parser -> render parser = OK audio ->
  if valid_orders parser <=? 2029
  then convert_s3m_to_wav data = wav_write 44100 audio
       /\ is_ok (convert_s3m_to_wav data) = true
  else convert_s3m_to_wav data = Raise struct_error.
Proof. exact (convert_cases data parser audio). Qed.

Lemma convert_size_limit_witness :
  valid_orders long_parser = 2030
  /\ convert_s3m_to_wav long_file = Raise struct_error.
Proof.
  split; [vm_compute; reflexivity |].
  exact (convert_size_limit long_file long_parser _ long_parses long_renders).
Defined.
